(* ===== verification/_CoqProject ===== *)
-Q . S2P
Prelude.v
Exec.v
Props.v
Heap.v
Objects.v
Builtins.v
Assign.v
Host.v
JestConfig.v
Invariant.v
Compose.v
Sharing.v
Trans.v
Machine.v
Typing.v
Soundness.v
Represent.v
