(* ===== verification/Prelude.v ===== *)
(** * Verification of [jest.config.js] (downshift)

    ** The program

    The repository's source is one CommonJS module, [src/jest.config.js]:

<<
    1  const jestConfig = require('kcd-scripts/jest')
    3  module.exports = Object.assign(jestConfig, {
    4    coveragePathIgnorePatterns: [
    5      ...jestConfig.coveragePathIgnorePatterns,
    6      '.macro.js$',
    7      '<rootDir>/src/stateChangeTypes.js',
    8    ],
    9  })
>>

    It loads the shared test-runner configuration of [kcd-scripts], builds a
    new array holding the base coverage-exclusion patterns followed by two
    patterns of its own, writes that array into the base configuration object
    with [Object.assign], and exports the (same, mutated) object.

    Nine lines, but every one of them is an effect on shared state: [require]
    reads the module cache, the literals allocate, the spread iterates a value
    whose shape the module does not control, [Object.assign] mutates an object
    owned by another package, and the assignment to [module.exports] publishes
    an alias of it.  The development models these effects as they are written
    and proves what the module guarantees about them.  The specification
    describes the module as an instance of a pure function [compose]; the
    development models that function too and proves where the module
    implements it and where it does not.

    ** Files, in dependency order

    - [Prelude] (this file): the notation scope [js_scope], the tactics and
      hint databases of the development ([by_compute], [js], [js_run]),
      lemmas on lists.
    - [Exec]: the errors a run can end in ([js_error]) and the
      state-and-exception monad [exec] in which every operation is written;
      pointwise equality [≡] of computations with its [Proper] instances and
      the monad laws; the judgement [hoare] (pre- and postcondition, with a
      postcondition for the exceptional exit) and the two-state judgement
      [relates] (what a computation leaves unchanged), with their rules.
    - [Props]: property keys and ordered property tables.  Array-index keys
      ([index_of_key], [key_of_index]: canonical decimal strings up to
      [2^32 - 2]), the enumeration order [ordered_keys], own-property lookup
      [prop_get], the in-place-or-append update [prop_set], the invariant
      [props_wf], the view [to_map] of a table as a finite map and the
      equivalence it induces.
    - [Heap]: values ([value]), objects ([object]: optional indexed elements,
      named properties, integrity level), the store ([state]: heap and module
      cache), [alloc], [read_obj], [write_obj], the invariant [state_wf],
      [ok_state] (the invariant together with the validity of the values the
      running code holds) and the frame relation [frame].
    - [Objects]: the internal methods of one object, as pure functions:
      [own_prop], [own_keys], [object_get], [object_set] (with [set_named]
      and [set_index]), the iteration of a string ([chars]) and the filling
      of an array in order ([push_all]).
    - [Builtins]: the operations the module calls, as computations: the
      member read [get_member], the iteration of a spread [iterate], [[Set]]
      ([set_member], strict or not), [create_data_property] and [push_from]
      for the literals, [Object.assign] ([object_assign], with [to_object],
      [assign_from], [copy_prop]) and [require] as a read of the module cache.
    - [Assign]: [Object.assign] on ordinary objects in closed form
      ([assign_props], [assign_all]) and as a union of finite maps.
    - [Host]: the interface [ModuleHost], what the module needs of the module
      system, with two instances: [cache_host] (every module is loaded) and
      [empty_host] (no module is found).
    - [JestConfig]: the module itself.  [patterns_literal] is the array
      literal of lines 4 to 8, [overrides_literal] the object literal of lines
      3 to 9, [jest_config_body] the whole file, in the order ECMAScript
      evaluates it.  Its theorems describe the runs from a store in which
      [require] has a known answer.
    - [Invariant]: the invariant, the safety and the footprint of the module
      on every [ModuleHost] and from every well-formed store.
    - [Compose]: the composer of the specification ([compose], modelled from
      the specification since the source has no such function) and its
      iteration [compose_times], the abstraction [config_of] from stores to
      configurations, the refinement theorem and the divergences.
    - [Sharing]: sequences of steps through the module cache: the module
      followed by another [require] of the base, the module evaluated twice
      ([run_twice]) and [n] times ([run_times]).
    - [Trans]: transition systems over stdpp's [relations]: [eventually],
      [invariant], termination by a measure, runs of a deterministic
      relation.
    - [Machine]: the module again, as a transition system in which every
      operation on the store is one step.  A [point] is a place in the nine
      lines together with the values computed so far, [next] the operation
      at a point, [step] the transition relation on configurations, [run]
      its iteration with fuel; [rest] is the computation that remains at a
      point, [assertion] what is known of the store there, [keyed] that
      the base configuration has its patterns once they have been spread.
    - [Typing]: the shape of a configuration as a type ([ty]: primitive
      types, arrays, objects with promised fields), the typing of a store by
      a store typing ([has_type], [cell_type], [typed]) and its preservation.
    - [Soundness]: typing along the machine.  [point_typed] states what the
      values of a point are in the store typing of the moment, which grows
      as the literals get their types; [config_typed] is kept by every step
      ([step_typed]), one lemma for each operation.
    - [Represent]: from configurations to stores.  [represent b] is the
      store in which Node runs the module when [kcd-scripts/jest] exports
      the configuration [b] of the specification; on it the theorems of the
      other files hold without a hypothesis on the store, for every [flat]
      configuration [b], and [agrees b] says that the module exports what
      [compose] gives.

    ** Correspondence with the code

    A JavaScript value is a [Heap.value]; an object lives in the heap at a
    location and is reached through [VRef], so that two references to one
    object are two occurrences of one location and a write through one is
    seen through the other.  The constant [jestConfig] of line 1 is the value
    [host_require] returns; the [module] variable of the CommonJS wrapper is
    the location of the module object, a parameter of [jest_config_body].
    The file has no strict-mode directive, so the assignment to
    [module.exports] is [set_member false]: a refused write is ignored.
    [Object.assign] and the literals write with [set_member true].  A run is
    a function from the initial [state] to an outcome ([Return] or [Throw])
    and the final state, so the state after an exception is part of what is
    proved.

    The points of [Machine] follow the evaluation order of the file:
    [AtRequire] is line 1; [AtObject] and [AtArray] are the allocations of
    the object literal of line 3 and of the array literal of line 4;
    [AtMember] and [AtSpread] are the member read and the start of the
    iteration of line 5; [AtElement] stores one element of the spread,
    [AtLiteral] one of the strings of lines 6 and 7; [AtDefine] defines the
    property of line 4; [AtAssign] starts [Object.assign] and [AtCopy]
    copies one key; [AtExport] is the assignment to [module.exports].

    ** What the theorems show

    - Functional behaviour ([JestConfig]): from a store in which the base
      configuration is an object, not frozen, whose patterns can be iterated
      (the record [ready]), the run returns normally and leaves exactly the
      store [exported_state]; the exported value is the base object; its
      patterns are the old ones followed by ['.macro.js$'] and
      ['<rootDir>/src/stateChangeTypes.js']; every other key, the order of
      the keys and every other object are unchanged; a string under the
      pattern key is spread into its characters; past the largest array
      index a pattern is stored as a property of the array, not as an
      element.
    - Errors ([JestConfig]): an exception of [require], a [null] or
      [undefined] base, a base without the pattern key and a frozen base each
      end in the exception JavaScript raises, with the store described
      exactly; a refused write to [module.exports] is silent.
    - Invariant, safety, footprint, outcome ([Invariant]): for every host
      and every well-formed store the module preserves [state_wf], raises
      only JavaScript exceptions (never [OutOfFragment]), changes no object
      other than the one [require] returned and the module object, and its
      outcome is the one [expected_outcome] reads off the store: there is no
      way for it to fail but the ones listed above.
    - Sharing ([Sharing]): a later [require] of the base returns the mutated
      object; a second evaluation appends the two patterns again, and [n]
      evaluations leave in the cache [compose] applied [n] times, by
      induction on [n] with [ready], [state_wf] and the denoted
      configuration as the invariant of one evaluation.
    - Refinement ([Compose]): where the base holds its patterns in an array
      the exported configuration is [compose base module_overrides]; the
      module differs from [compose] in that it changes its input, raises on a
      base without patterns, and raises [TypeError] where the specification
      names [InvalidConfigurationError].
    - Operation by operation ([Machine]): the machine reaches exactly the
      completion of [jest_config_body]; it terminates from every
      configuration, whatever the host and the store; every configuration it
      reaches from a well-formed store satisfies the assertion of its point
      and has a well-formed store; an exception is raised by [require], by
      the member read, by the spread or by the copy of [Object.assign] and
      by no other operation, it says what the value at hand was (the copy
      raises on a frozen target only, since the target has the property by
      then), and the store is the one in which the operation was attempted;
      no object that existed is changed before [Object.assign] copies; from
      a [ready] store the export is eventually made, after
      [length items + 14] steps.
    - Every configuration ([Represent]): [config_of] is a left inverse of
      [represent] on flat configurations, and the represented store is well
      formed; for every flat [b] with a sequence of patterns the module
      exports [compose b module_overrides], in [length xs + 14] steps; the
      module and [compose] agree on a flat configuration if and only if it
      holds its patterns as a sequence or as the empty string.  [agrees] is
      decidable, and the instances are also checked by running the module.
    - Type safety ([Soundness]): once [require] has returned a base
      configuration of a type that promises an array of patterns, every
      configuration the machine reaches has a store typed by an extension of
      the store typing it started from, and the only exception left is the
      [TypeError] of the copy into a frozen base configuration.  The store
      of every flat configuration whose patterns are strings is typed
      ([Represent.represent_typed]), so this holds of every run from it.
    - Types ([Typing]): a write that suits the type of its cell keeps the
      store typed; from a base configuration whose type promises an array of
      strings under the pattern key, the module keeps the store typed and the
      base configuration at its type, and does not fail in the member read
      or in the spread.
    - Components: the monad laws ([Exec]); the round trip of array-index
      keys, the enumeration order and the property table as an implementation
      of a finite map ([Props]); read-after-write and the refusal of writes
      by frozen objects ([Objects]); [Object.assign] changes its target only
      and preserves the invariant, and the accumulation of an array literal
      appends ([Builtins]); on ordinary objects [Object.assign] is the union
      of maps in which later sources prevail ([Assign]).

    Each theorem with hypotheses is applied to a concrete store
    ([JestConfig.sample_state] and its variations, [Builtins.demo_store],
    [Assign.assign_store]) or configuration ([Represent.sample_base]) by
    a lemma named after it with the suffix [_witness]; the definitions are
    executable and the instances are checked by computation.

    ** Bounds

    No operation uses fuel: each is structurally recursive on a list (of
    properties, of elements, of sources), so termination is by construction
    and the theorems about runs are total statements.  The one definition
    with fuel is [Machine.run], the iteration of the step function; that
    enough fuel exists for every configuration is a theorem
    ([Machine.machine_terminates], by the measure [Machine.rank]: the stage
    of the point, then the length of the list it still goes through), and
    from a [ready] store [length items + 14] steps are exactly enough
    ([Machine.module_step_count]).  The host's [require] is one step: it is
    a function of the store, so a host that does not return is outside the
    model.  Array
    indices are the numbers up to [max_array_index = 2^32 - 2], as in
    ECMAScript; the key of a larger number is an ordinary property name.  The
    runs of the module are described without a bound on the number of
    patterns ([Objects.push_all]), and [JestConfig.patterns_past_last_index]
    says what the array holds then: the first [2^32 - 1] values as
    elements, every value under the key of its position.  The theorems that
    state the new list as [items ++ extra_patterns] assume that it fits an
    array (at most [2^32 - 1] elements), which is the only case an
    implementation can reach; for [n] evaluations the bound is on
    [length items + 2 * n].
    Locations are [positive] and numbers are [Z]: unbounded; the module
    performs no arithmetic.  In [represent b] the array of the setting of
    key [k] is at [encode k + 4], an injective function of the key, so the
    store needs no allocation counter.

    ** Not modelled

    - Prototype chains, accessors, symbols and the attributes of single
      properties: an object is its own enumerable data properties plus an
      integrity level for the whole object.  The module reads and writes one
      key that no built-in prototype defines.
    - Wrapper objects of primitives, sparse arrays and writes to the [length]
      of an array: reaching them is [OutOfFragment], proved unreachable from
      the module.
    - Strings are byte strings; iterating a string yields one string per
      byte, which is JavaScript's behaviour on ASCII.
    - Module resolution and the loading of a module that is not in the cache,
      the body of [kcd-scripts/jest] included: the module is verified against
      the interface [ModuleHost], and the cache read is one instance of it.
    - Jest itself: how the exported patterns are matched against paths.  Of
      Jest's schema the development has the part the module can break or
      keep, the type of the value under the pattern key ([Typing]).
    - Types are exact: a reference has the type of its cell and no other
      (no subtyping between object types), and a field that may be absent is
      typed [TAny].
    - Nested configurations: [represent] is defined on every configuration
      but denotes it only when it is [flat] (primitive values and sequences
      of primitive values).  A setting that is itself an object is a
      reference in the store, and the configuration does not say what it
      refers to; on stores that hold such settings the theorems of
      [JestConfig], [Invariant] and [Compose] apply as before, with the
      store as a parameter.
    - Nothing else of the repository is code: there is no source beside
      [src/jest.config.js], and what the module calls (the object model,
      [Object.assign], [require]) is modelled to the extent the nine lines
      can reach it. *)

From stdpp Require Export base tactics option list gmap strings fin_maps pretty.

Declare Scope js_scope.
Delimit Scope js_scope with js.
Open Scope js_scope.

(** ** Hint databases

    [js] collects the resolution hints of the development (constructors of
    the invariants, preservation lemmas); [js_run] is the rewrite database of
    the equations that evaluate one step of a computation. *)
Create HintDb js discriminated.
Create Rewrite HintDb js_run.

(** ** Tactics *)

(** [by_compute] proves a closed instance of a decidable proposition by
    evaluating its decision procedure.  The invariants of the development
    are decidable, so their instances on concrete stores are proved so. *)
Ltac by_compute := apply (bool_decide_unpack _); vm_compute; exact I.

(** ** Lists *)

Lemma Forall_elem {A} (P : A → Prop) (l : list A) (x : A) :
  Forall P l → x ∈ l → P x.
Proof. rewrite Forall_forall. auto. Qed.

(** A property of the values of an association list holds of the value of
    each of its pairs. *)
Lemma Forall_snd_elem {K V} (P : V → Prop) (l : list (K * V)) (k : K) (v : V) :
  Forall P l.*2 → (k, v) ∈ l → P v.
Proof.
  intros Hl Hin. apply (Forall_elem _ _ _ Hl), list_elem_of_fmap. by exists (k, v).
Qed.
