(* ===== verification/Exec.v ===== *)
(** * Exec: errors and the state-and-exception monad

    A JavaScript operation either completes normally with a value or
    completes abruptly with an exception, and in both cases it may have
    changed the store.  [exec S A] is the type of such operations over a
    store [S]: a function from the initial store to an [outcome] and the
    final store.  This file holds the monad, pointwise equality on its
    computations with the [Proper] instances that let [rewrite] work under
    [≫=], the monad laws, the equations that evaluate one step of a run
    (collected in the rewrite database [js_run]), a Hoare-style judgement
    [hoare] with its rules, used for every invariant-preservation proof, a
    two-state judgement [relates] for frame properties, and the tactics
    [run_step] and [run_simpl] that evaluate the first step of a run. *)

From S2P Require Import Prelude.

(** ** Errors

    The reasons for which the operations of [src/jest.config.js] can raise a
    [TypeError], abstracting the engine's message. *)
Inductive type_error :=
| NullishBase      (* property read on [undefined] or [null] *)
| NotIterable      (* spread of a value without an iterator *)
| NullishTarget    (* [Object.assign] on [undefined] or [null] *)
| ReadOnly         (* write to a property of a frozen object *)
| NotExtensible.   (* new property on a sealed or frozen object *)

(** [TypeError] is ECMAScript's; [ModuleNotFound] is the error [require]
    raises (code [MODULE_NOT_FOUND]); [OutOfFragment] is not a JavaScript
    error: it marks a path the model does not cover. *)
Inductive js_error :=
| TypeError (why : type_error)
| ModuleNotFound (request : string)
| OutOfFragment (what : string).

#[export] Instance type_error_eq_dec : EqDecision type_error.
Proof. solve_decision. Defined.

#[export] Instance js_error_eq_dec : EqDecision js_error.
Proof. solve_decision. Defined.

(** [is_js_exception e]: [e] is an exception a JavaScript program can
    observe, as opposed to a limit of the model. *)
Definition is_js_exception (e : js_error) : bool :=
  match e with
  | OutOfFragment _ => false
  | _ => true
  end.

(** ** Outcomes and computations *)

Inductive outcome (A : Type) :=
| Return (a : A)
| Throw (e : js_error).
Arguments Return {A} a.
Arguments Throw {A} e.

#[export] Instance outcome_eq_dec `{EqDecision A} : EqDecision (outcome A).
Proof. solve_decision. Defined.

Definition exec (S A : Type) : Type := S → outcome A * S.

(** [is_js_exception_outcome r]: [r] is a value or an exception of
    JavaScript, that is, the run did not leave the model. *)
Definition is_js_exception_outcome {A} (r : outcome A) : bool :=
  match r with
  | Return _ => true
  | Throw e => is_js_exception e
  end.

Section monad.
Context {S : Type}.

#[export] Instance exec_ret : MRet (exec S) := λ A a s, (Return a, s).

#[export] Instance exec_bind : MBind (exec S) := λ A B k m s,
  match m s with
  | (Return a, s') => k a s'
  | (Throw e, s') => (Throw e, s')
  end.

#[export] Instance exec_fmap : FMap (exec S) := λ A B f m s,
  match m s with
  | (Return a, s') => (Return (f a), s')
  | (Throw e, s') => (Throw e, s')
  end.

Definition throw {A} (e : js_error) : exec S A := λ s, (Throw e, s).

Definition gets {A} (f : S → A) : exec S A := λ s, (Return (f s), s).

Definition modify (f : S → S) : exec S () := λ s, (Return (), f s).

(** [lift_opt e o]: the value of [o], or the exception [e]. *)
Definition lift_opt {A} (e : js_error) (o : option A) : exec S A :=
  match o with
  | Some a => mret a
  | None => throw e
  end.

(** [for_each f l]: run [f] on the elements of [l] from left to right,
    stopping at the first exception. *)
Fixpoint for_each {A} (f : A → exec S ()) (l : list A) : exec S () :=
  match l with
  | [] => mret ()
  | a :: l' => f a ≫= λ _, for_each f l'
  end.

(** ** Pointwise equality *)

#[export] Instance exec_equiv {A} : Equiv (exec S A) := λ m1 m2, ∀ s, m1 s = m2 s.

#[export] Instance exec_equivalence {A} : Equivalence (≡@{exec S A}).
Proof.
  split.
  - by intros m s.
  - intros m1 m2 H s. by rewrite H.
  - intros m1 m2 m3 H1 H2 s. by rewrite H1, H2.
Qed.

#[export] Instance exec_bind_proper {A B} :
  Proper (pointwise_relation A (≡) ==> (≡) ==> (≡@{exec S B})) mbind.
Proof.
  intros k1 k2 Hk m1 m2 Hm s. unfold mbind, exec_bind. rewrite Hm.
  destruct (m2 s) as [[a|e] s']; [apply Hk | done].
Qed.

#[export] Instance exec_fmap_proper {A B} (f : A → B) :
  Proper ((≡) ==> (≡@{exec S B})) (fmap f).
Proof. intros m1 m2 Hm s. unfold fmap, exec_fmap. by rewrite Hm. Qed.

Lemma exec_run_proper {A} (m1 m2 : exec S A) s : m1 ≡ m2 → m1 s = m2 s.
Proof. intros H. apply H. Qed.

(** ** Monad laws *)

Lemma exec_bind_ret_l {A B} (a : A) (k : A → exec S B) : mret a ≫= k ≡ k a.
Proof. by intros s. Qed.

Lemma exec_bind_ret_r {A} (m : exec S A) : m ≫= mret ≡ m.
Proof. intros s. unfold mbind, exec_bind. by destruct (m s) as [[a|e] s']. Qed.

Lemma exec_bind_assoc {A B C} (m : exec S A) (k : A → exec S B) (k' : B → exec S C) :
  (m ≫= k) ≫= k' ≡ m ≫= (λ a, k a ≫= k').
Proof. intros s. unfold mbind, exec_bind. by destruct (m s) as [[a|e] s']. Qed.

Lemma exec_bind_throw {A B} (e : js_error) (k : A → exec S B) : throw e ≫= k ≡ throw e.
Proof. by intros s. Qed.

Lemma exec_fmap_bind {A B} (f : A → B) (m : exec S A) : f <$> m ≡ m ≫= λ a, mret (f a).
Proof. by intros s. Qed.

(** ** Evaluating one step *)

Lemma run_ret {A} (a : A) s : (mret a : exec S A) s = (Return a, s).
Proof. done. Qed.

Lemma run_throw {A} e s : (throw e : exec S A) s = (Throw e, s).
Proof. done. Qed.

Lemma run_gets {A} (f : S → A) s : gets f s = (Return (f s), s).
Proof. done. Qed.

Lemma run_modify (f : S → S) s : modify f s = (Return (), f s).
Proof. done. Qed.

Lemma run_bind {A B} (m : exec S A) (k : A → exec S B) s :
  (m ≫= k) s = match m s with
               | (Return a, s') => k a s'
               | (Throw e, s') => (Throw e, s')
               end.
Proof. done. Qed.

Lemma run_bind_return {A B} (m : exec S A) (k : A → exec S B) s a s' :
  m s = (Return a, s') → (m ≫= k) s = k a s'.
Proof. intros H. by rewrite run_bind, H. Qed.

Lemma run_bind_throw {A B} (m : exec S A) (k : A → exec S B) s e s' :
  m s = (Throw e, s') → (m ≫= k) s = (Throw e, s').
Proof. intros H. by rewrite run_bind, H. Qed.

Lemma run_lift_opt_Some {A} e (o : option A) a s :
  o = Some a → lift_opt e o s = (Return a, s).
Proof. by intros ->. Qed.

Lemma run_lift_opt_None {A} e (o : option A) s :
  o = None → lift_opt e o s = (Throw e, s).
Proof. by intros ->. Qed.

(** Inversion of a run of [m ≫= k]. *)
Lemma run_bind_inv_return {A B} (m : exec S A) (k : A → exec S B) s b s2 :
  (m ≫= k) s = (Return b, s2) →
  ∃ a s1, m s = (Return a, s1) ∧ k a s1 = (Return b, s2).
Proof. rewrite run_bind. destruct (m s) as [[a|e] s1]; [eauto | done]. Qed.

Lemma run_bind_inv_throw {A B} (m : exec S A) (k : A → exec S B) s e s2 :
  (m ≫= k) s = (Throw e, s2) →
  m s = (Throw e, s2) ∨ ∃ a s1, m s = (Return a, s1) ∧ k a s1 = (Throw e, s2).
Proof. rewrite run_bind. destruct (m s) as [[a|e'] s1]; intros ?; [right; eauto | simplify_eq; by left]. Qed.

(** ** The final store, whatever the outcome *)

Definition final {A} (m : exec S A) (s : S) : S := (m s).2.

Definition result {A} (m : exec S A) (s : S) : outcome A := (m s).1.

Lemma run_eta {A} (m : exec S A) s : m s = (result m s, final m s).
Proof. unfold result, final. by destruct (m s). Qed.

(** ** A Hoare judgement

    [hoare P m Q E]: from a store satisfying [P], [m] ends either normally
    with a value and store satisfying [Q] or abruptly with an exception and
    store satisfying [E].  The judgement is total: [m] is a function. *)
Definition hoare {A} (P : S → Prop) (m : exec S A)
    (Q : A → S → Prop) (E : js_error → S → Prop) : Prop :=
  ∀ s, P s →
    match m s with
    | (Return a, s') => Q a s'
    | (Throw e, s') => E e s'
    end.

Lemma hoare_ret {A} (P : S → Prop) (a : A) (Q : A → S → Prop) E :
  (∀ s, P s → Q a s) → hoare P (mret a) Q E.
Proof. intros H s Hs. by apply H. Qed.

Lemma hoare_throw {A} (P : S → Prop) e (Q : A → S → Prop) (E : js_error → S → Prop) :
  (∀ s, P s → E e s) → hoare P (throw e) Q E.
Proof. intros H s Hs. by apply H. Qed.

Lemma hoare_gets {A} (P : S → Prop) (f : S → A) (Q : A → S → Prop) E :
  (∀ s, P s → Q (f s) s) → hoare P (gets f) Q E.
Proof. intros H s Hs. by apply H. Qed.

Lemma hoare_modify (P : S → Prop) (f : S → S) (Q : () → S → Prop) E :
  (∀ s, P s → Q () (f s)) → hoare P (modify f) Q E.
Proof. intros H s Hs. by apply H. Qed.

Lemma hoare_bind {A B} (P : S → Prop) (m : exec S A) (R : A → S → Prop)
    (k : A → exec S B) (Q : B → S → Prop) E :
  hoare P m R E → (∀ a, hoare (R a) (k a) Q E) → hoare P (m ≫= k) Q E.
Proof.
  intros Hm Hk s Hs. rewrite run_bind. specialize (Hm s Hs).
  destruct (m s) as [[a|e] s']; [by apply Hk | done].
Qed.

Lemma hoare_conseq {A} (P P' : S → Prop) (m : exec S A)
    (Q Q' : A → S → Prop) (E E' : js_error → S → Prop) :
  hoare P' m Q' E' →
  (∀ s, P s → P' s) → (∀ a s, Q' a s → Q a s) → (∀ e s, E' e s → E e s) →
  hoare P m Q E.
Proof.
  intros Hm HP HQ HE s Hs. specialize (Hm s (HP s Hs)).
  destruct (m s) as [[a|e] s']; auto.
Qed.

Lemma hoare_lift_opt {A} (P : S → Prop) e (o : option A) (Q : A → S → Prop)
    (E : js_error → S → Prop) :
  (∀ a s, o = Some a → P s → Q a s) → (∀ s, o = None → P s → E e s) →
  hoare P (lift_opt e o) Q E.
Proof. intros HQ HE s Hs. destruct o; [by apply HQ | by apply HE]. Qed.

Lemma hoare_for_each {A} (I : S → Prop) (f : A → exec S ()) (l : list A) E :
  (∀ a, a ∈ l → hoare I (f a) (λ _, I) E) →
  hoare I (for_each f l) (λ _, I) E.
Proof.
  induction l as [|a l IH]; intros Hf.
  - by apply hoare_ret.
  - apply hoare_bind with (R := λ _, I).
    + apply Hf. by left.
    + intros _. apply IH. intros b Hb. apply Hf. by right.
Qed.

(** [hoare] with the same assertion on both exits is preservation of an
    invariant by the final store. *)
Lemma hoare_final {A} (I : S → Prop) (m : exec S A) (Q : A → S → Prop) :
  hoare I m Q (λ _, I) → (∀ a s, Q a s → I s) → ∀ s, I s → I (final m s).
Proof.
  intros Hm HQ s Hs. specialize (Hm s Hs). unfold final.
  destruct (m s) as [[a|e] s']; eauto.
Qed.

Lemma hoare_conj {A} (P : S → Prop) (m : exec S A)
    (Q1 Q2 : A → S → Prop) (E1 E2 : js_error → S → Prop) :
  hoare P m Q1 E1 → hoare P m Q2 E2 →
  hoare P m (λ a s, Q1 a s ∧ Q2 a s) (λ e s, E1 e s ∧ E2 e s).
Proof.
  intros H1 H2 s Hs. specialize (H1 s Hs). specialize (H2 s Hs).
  by destruct (m s) as [[a|e] s'].
Qed.

#[export] Instance hoare_proper {A} (P : S → Prop) :
  Proper ((≡) ==> (=) ==> (=) ==> iff) (hoare (A := A) P).
Proof.
  intros m1 m2 Hm Q ? <- E ? <-. unfold hoare.
  split; intros H s Hs; specialize (H s Hs); [by rewrite <- Hm | by rewrite Hm].
Qed.

(** From the judgement to one run. *)
Lemma hoare_run_return {A} (P : S → Prop) (m : exec S A) Q E s a s' :
  hoare P m Q E → P s → m s = (Return a, s') → Q a s'.
Proof. intros H Hs Hm. specialize (H s Hs). by rewrite Hm in H. Qed.

Lemma hoare_run_throw {A} (P : S → Prop) (m : exec S A) Q E s e s' :
  hoare P m Q E → P s → m s = (Throw e, s') → E e s'.
Proof. intros H Hs Hm. specialize (H s Hs). by rewrite Hm in H. Qed.

(** ** A two-state judgement

    [relates R m]: the final store of [m] is related by [R] to the initial
    one, whatever the outcome.  With [R] a preorder it composes along
    [≫=]; it is used for frame properties (what a computation leaves
    unchanged). *)
Definition relates {A} (R : relation S) (m : exec S A) : Prop :=
  ∀ s, R s (final m s).

Lemma final_bind {A B} (m : exec S A) (k : A → exec S B) s :
  final (m ≫= k) s = match m s with
                     | (Return a, s') => final (k a) s'
                     | (Throw _, s') => s'
                     end.
Proof. unfold final. rewrite run_bind. by destruct (m s) as [[a|e] s']. Qed.

Lemma relates_ret {A} (R : relation S) `{!Reflexive R} (a : A) : relates R (mret a).
Proof. intros s. apply reflexivity. Qed.

Lemma relates_throw {A} (R : relation S) `{!Reflexive R} e : relates R (throw (A := A) e).
Proof. intros s. apply reflexivity. Qed.

Lemma relates_gets {A} (R : relation S) `{!Reflexive R} (f : S → A) : relates R (gets f).
Proof. intros s. apply reflexivity. Qed.

Lemma relates_lift_opt {A} (R : relation S) `{!Reflexive R} e (o : option A) :
  relates R (lift_opt e o).
Proof. destruct o; [by apply relates_ret | by apply relates_throw]. Qed.

Lemma relates_modify (R : relation S) (f : S → S) : (∀ s, R s (f s)) → relates R (modify f).
Proof. intros H s. apply H. Qed.

Lemma relates_bind {A B} (R : relation S) `{!Transitive R}
    (m : exec S A) (k : A → exec S B) :
  relates R m → (∀ a, relates R (k a)) → relates R (m ≫= k).
Proof.
  intros Hm Hk s. rewrite final_bind. specialize (Hm s). unfold final in Hm.
  destruct (m s) as [[a|e] s']; [|done]. transitivity s'; [done|]. apply Hk.
Qed.

Lemma relates_for_each {A} (R : relation S) `{!PreOrder R} (f : A → exec S ()) l :
  (∀ a, a ∈ l → relates R (f a)) → relates R (for_each f l).
Proof.
  induction l as [|a l IH]; intros Hf; [apply relates_ret; apply _|].
  apply relates_bind; try apply _.
  - apply Hf. by left.
  - intros _. apply IH. intros b Hb. apply Hf. by right.
Qed.

#[export] Instance relates_proper {A} (R : relation S) :
  Proper ((≡) ==> iff) (relates (A := A) R).
Proof.
  intros m1 m2 Hm. unfold relates, final.
  split; intros H s; specialize (H s); [by rewrite <- Hm | by rewrite Hm].
Qed.

Lemma relates_run {A} (R : relation S) (m : exec S A) s r s' :
  relates R m → m s = (r, s') → R s s'.
Proof. intros H Hm. specialize (H s). unfold final in H. by rewrite Hm in H. Qed.

End monad.

Arguments exec_equiv {S A} _ _ /.

#[export] Hint Rewrite @run_bind @run_ret @run_throw @run_gets @run_modify : js_run.
#[export] Hint Resolve hoare_ret hoare_throw hoare_gets hoare_modify
  relates_ret relates_throw relates_gets relates_lift_opt : js.

(** ** Tactics for runs

    [run_step H], where [H] is the run of the first computation of a
    sequence from the store at hand, rewrites the run of the sequence: with
    the continuation applied to the value [H] returns, or with the exception
    [H] raises. *)
Tactic Notation "run_step" uconstr(H) :=
  first [rewrite (run_bind_return _ _ _ _ _ H) | rewrite (run_bind_throw _ _ _ _ _ H)].
Tactic Notation "run_step" uconstr(H) "in" hyp(G) :=
  first [rewrite (run_bind_return _ _ _ _ _ H) in G
        |rewrite (run_bind_throw _ _ _ _ _ H) in G].

(** [run_simpl] evaluates the steps of a run that need no hypothesis. *)
Ltac run_simpl := autorewrite with js_run.

(** ** Notation for runs *)

Notation "⟨ m , s ⟩ ⇓ ⟨ a , s' ⟩" := (m s = (Return a, s'))
  (at level 0, format "⟨ m ,  s ⟩  ⇓  ⟨ a ,  s' ⟩") : js_scope.
Notation "⟨ m , s ⟩ ⇑ ⟨ e , s' ⟩" := (m s = (Throw e, s'))
  (at level 0, format "⟨ m ,  s ⟩  ⇑  ⟨ e ,  s' ⟩") : js_scope.

(** ** Summary: sequencing *)

(** Sequencing is lawful.  Up to pointwise equality of computations,
    [mret] is a unit of [≫=] on both sides, [≫=] is associative, and an
    exception cuts the rest of the sequence short and leaves the store as it
    was when it was raised. *)
Theorem exec_monad_laws {S A B C} (a : A) (m : exec S A)
    (k : A → exec S B) (k' : B → exec S C) (e : js_error) :
  mret a ≫= k ≡ k a
  ∧ m ≫= mret ≡ m
  ∧ (m ≫= k) ≫= k' ≡ m ≫= (λ x, k x ≫= k')
  ∧ throw e ≫= k ≡ throw e
  ∧ ∀ s s', m s = (Throw e, s') → (m ≫= k) s = (Throw e, s').
Proof.
  split_and!; [apply exec_bind_ret_l|apply exec_bind_ret_r|apply exec_bind_assoc
              |apply exec_bind_throw|intros s s'; apply run_bind_throw].
Qed.
