(* ===== verification/Props.v ===== *)
(** * Props: property keys and ordered property tables

    The own properties of a JavaScript object are kept as a list of
    key/value pairs in creation order, which is the order [Object.assign]
    and [Object.keys] observe for string keys.  This file is generic in the
    type of values.  It defines

    - array-index keys ([index_of_key], [key_of_index]): the canonical
      decimal strings below [2^32 - 1], which ECMAScript orders before all
      other keys and which address the elements of arrays and strings;
    - [prop_get], the own-property lookup of a member read;
    - [prop_set], the update that [[Set]] and [CreateDataProperty] perform on
      an ordinary object: an existing key keeps its position, a new key goes
      last;
    - [ordered_keys], the order in which own keys are enumerated;
    - the invariant [props_wf] (no key occurs twice), the view [to_map] of a
      table as a finite map, and the equivalence [≡] of tables that denote
      the same map, with its [Proper] instances. *)

From S2P Require Import Prelude.
From stdpp Require Import sorting.

(** ** Array-index keys *)

Definition digit_of_ascii (c : Ascii.ascii) : option N :=
  let n := Ascii.N_of_ascii c in
  if bool_decide (48 ≤ n ≤ 57)%N then Some (n - 48)%N else None.

Fixpoint parse_digits (acc : N) (s : string) : option N :=
  match s with
  | EmptyString => Some acc
  | String c s' =>
      match digit_of_ascii c with
      | Some d => parse_digits (10 * acc + d)%N s'
      | None => None
      end
  end.

(** The largest array index is [2^32 - 2]. *)
Definition max_array_index : N := 4294967294%N.

Definition key_of_index (n : N) : string := pretty n.

(** [index_of_key k] is [Some n] when [k] is the canonical spelling of the
    array index [n] (digits only, no leading zero, in range). *)
Definition index_of_key (k : string) : option N :=
  match parse_digits 0 k with
  | Some n =>
      if bool_decide (key_of_index n = k ∧ (n ≤ max_array_index)%N)
      then Some n else None
  | None => None
  end.

Definition is_index_key (k : string) : bool := bool_decide (is_Some (index_of_key k)).

(** Enumeration order of own keys: array indices in ascending numeric order,
    then the other keys in creation order. *)
Definition index_le (a b : N * string) : Prop := (a.1 ≤ b.1)%N.

#[export] Instance index_le_dec a b : Decision (index_le a b).
Proof. unfold index_le. apply _. Defined.

#[export] Instance index_le_total : Total index_le.
Proof. intros a b. unfold index_le. lia. Qed.

#[export] Instance index_le_trans : Transitive index_le.
Proof. intros a b c. unfold index_le. lia. Qed.

Definition indexed_keys (ks : list string) : list (N * string) :=
  omap (λ k, (λ n, (n, k)) <$> index_of_key k) ks.

Definition named_keys (ks : list string) : list string :=
  filter (λ k, index_of_key k = None) ks.

Definition ordered_keys (ks : list string) : list string :=
  (merge_sort index_le (indexed_keys ks)).*2 ++ named_keys ks.

(** ** Property tables *)

Section table.
Context {V : Type}.
Implicit Types (ps : list (string * V)) (k : string) (v : V).

Fixpoint prop_get ps k : option V :=
  match ps with
  | [] => None
  | (k', v) :: ps' => if decide (k = k') then Some v else prop_get ps' k
  end.

Fixpoint prop_set ps k v : list (string * V) :=
  match ps with
  | [] => [(k, v)]
  | (k', v') :: ps' =>
      if decide (k = k') then (k, v) :: ps' else (k', v') :: prop_set ps' k v
  end.

Definition prop_keys ps : list string := ps.*1.

Definition has_prop ps k : bool := bool_decide (is_Some (prop_get ps k)).

Definition props_wf ps : Prop := NoDup (prop_keys ps).

Definition to_map ps : gmap string V := list_to_map ps.

#[export] Instance props_equiv : Equiv (list (string * V)) :=
  λ ps1 ps2, to_map ps1 = to_map ps2.

End table.

(** ** Keys: facts *)

Lemma index_of_key_Some k n :
  index_of_key k = Some n → key_of_index n = k ∧ (n ≤ max_array_index)%N.
Proof.
  unfold index_of_key. destruct (parse_digits _ _) as [m|]; [|done].
  case_bool_decide; [|done]. by intros [= <-].
Qed.

Lemma digit_of_pretty_char d : (d < 10)%N → digit_of_ascii (pretty_N_char d) = Some d.
Proof.
  intros Hd. destruct d as [|p]; [done|].
  do 4 (try destruct p as [p|p|]); try done; lia.
Qed.

(** Parsing the digits that [pretty] prints gives the number back. *)
Lemma parse_pretty_go x :
  ∃ p, ∀ acc s, parse_digits acc (pretty_N_go x s) = parse_digits (acc * p + x)%N s.
Proof.
  induction (N.lt_wf_0 x) as [x _ IH].
  destruct (decide (x = 0)%N) as [->|Hx].
  - exists 1%N. intros acc s. rewrite pretty_N_go_0. f_equal. lia.
  - destruct (IH (x `div` 10)%N) as [p Hp]; [apply N.div_lt; lia|].
    exists (p * 10)%N. intros acc s.
    rewrite pretty_N_go_step by lia. rewrite Hp. cbn.
    rewrite digit_of_pretty_char by (apply N.mod_lt; lia).
    f_equal. pose proof (N.div_mod x 10). lia.
Qed.

Lemma parse_pretty (n : N) : parse_digits 0 (pretty n) = Some n.
Proof.
  unfold pretty, pretty_N. case_decide as Hn; [by subst|].
  destruct (parse_pretty_go n) as [p Hp]. by rewrite Hp.
Qed.

Lemma index_of_key_of_index n :
  (n ≤ max_array_index)%N → index_of_key (key_of_index n) = Some n.
Proof.
  intros Hn. unfold index_of_key, key_of_index.
  rewrite parse_pretty. by rewrite bool_decide_eq_true_2.
Qed.

Lemma index_of_key_beyond n :
  (max_array_index < n)%N → index_of_key (key_of_index n) = None.
Proof.
  intros Hn. unfold index_of_key, key_of_index.
  rewrite parse_pretty. rewrite bool_decide_eq_false_2; [done|]. lia.
Qed.

(** The key of an index is never [length]. *)
Lemma key_of_index_not_length n : key_of_index n ≠ "length".
Proof.
  intros H. pose proof (parse_pretty n) as Hp.
  unfold key_of_index in H. by rewrite H in Hp.
Qed.

(** The key of a number past the largest index is an ordinary name. *)
Lemma key_of_index_beyond_named n :
  (max_array_index < n)%N → index_of_key (key_of_index n) = None ∧ key_of_index n ≠ "length".
Proof. intros Hn. split; [by apply index_of_key_beyond|apply key_of_index_not_length]. Qed.

(** Two numbers are not spelt alike. *)
#[export] Instance key_of_index_inj : Inj (=) (=) key_of_index.
Proof.
  intros n m E. pose proof (parse_pretty n) as Hn. unfold key_of_index in E.
  rewrite E, parse_pretty in Hn. congruence.
Qed.

Lemma index_of_key_inj k1 k2 n :
  index_of_key k1 = Some n → index_of_key k2 = Some n → k1 = k2.
Proof.
  intros [H1 _]%index_of_key_Some [H2 _]%index_of_key_Some. congruence.
Qed.

Lemma is_index_key_true k : is_index_key k = true ↔ is_Some (index_of_key k).
Proof. unfold is_index_key. by rewrite bool_decide_eq_true. Qed.

Lemma is_index_key_false k : is_index_key k = false ↔ index_of_key k = None.
Proof.
  unfold is_index_key. rewrite bool_decide_eq_false, <- eq_None_not_Some. done.
Qed.

Lemma named_keys_all ks :
  Forall (λ k, index_of_key k = None) ks → named_keys ks = ks.
Proof.
  induction 1 as [|k ks Hk _ IH]; [done|].
  unfold named_keys in *. rewrite filter_cons_True by done. by rewrite IH.
Qed.

Lemma indexed_keys_none ks :
  Forall (λ k, index_of_key k = None) ks → indexed_keys ks = [].
Proof.
  induction 1 as [|k ks Hk _ IH]; [done|].
  unfold indexed_keys in *. cbn. by rewrite Hk, IH.
Qed.

(** Without index keys, enumeration order is creation order. *)
Lemma ordered_keys_named ks :
  Forall (λ k, index_of_key k = None) ks → ordered_keys ks = ks.
Proof.
  intros H. unfold ordered_keys.
  by rewrite indexed_keys_none, named_keys_all.
Qed.

Lemma elem_of_indexed_keys ks n k :
  (n, k) ∈ indexed_keys ks ↔ k ∈ ks ∧ index_of_key k = Some n.
Proof.
  unfold indexed_keys. rewrite list_elem_of_omap. split.
  - intros (k' & Hin & Hk). destruct (index_of_key k') as [m|] eqn:E; [|done].
    cbn in Hk. by simplify_eq.
  - intros [Hin Hk]. exists k. by rewrite Hk.
Qed.

(** Enumeration neither drops nor invents a key. *)
Lemma elem_of_ordered_keys ks k : k ∈ ordered_keys ks ↔ k ∈ ks.
Proof.
  unfold ordered_keys, named_keys.
  rewrite elem_of_app, list_elem_of_fmap, list_elem_of_filter. split.
  - intros [([n k'] & -> & Hin)|[_ Hin]]; [|done].
    rewrite merge_sort_Permutation in Hin.
    by apply elem_of_indexed_keys in Hin as [? _].
  - intros Hin. destruct (index_of_key k) as [n|] eqn:E; [left|by right].
    exists (n, k). split; [done|].
    rewrite merge_sort_Permutation. by apply elem_of_indexed_keys.
Qed.

(** ** Tables: facts *)

Section table_facts.
Context {V : Type}.
Implicit Types (ps : list (string * V)) (k : string) (v : V).

Lemma prop_get_to_map ps k : prop_get ps k = to_map ps !! k.
Proof.
  unfold to_map. induction ps as [|[k' v'] ps IH]; [done|].
  cbn. case_decide as Hk.
  - subst. by rewrite lookup_insert_eq.
  - by rewrite lookup_insert_ne.
Qed.

Lemma prop_get_Some_elem ps k v : prop_get ps k = Some v → (k, v) ∈ ps.
Proof.
  induction ps as [|[k' v'] ps IH]; [done|]. cbn.
  case_decide; [intros [= ->]; subst; by left | intros; right; auto].
Qed.

Lemma prop_get_None ps k : prop_get ps k = None ↔ k ∉ prop_keys ps.
Proof.
  rewrite prop_get_to_map. unfold to_map, prop_keys.
  symmetry. apply not_elem_of_list_to_map.
Qed.

Lemma prop_get_is_Some ps k : is_Some (prop_get ps k) ↔ k ∈ prop_keys ps.
Proof.
  rewrite <- not_eq_None_Some, prop_get_None.
  split; [apply dec_stable | auto].
Qed.

Lemma has_prop_true ps k : has_prop ps k = true ↔ k ∈ prop_keys ps.
Proof. unfold has_prop. by rewrite bool_decide_eq_true, prop_get_is_Some. Qed.

Lemma prop_get_elem_wf ps k v : props_wf ps → (k, v) ∈ ps → prop_get ps k = Some v.
Proof.
  intros Hwf Hin. rewrite prop_get_to_map.
  by apply elem_of_list_to_map.
Qed.

(** *** [prop_set] *)

Lemma prop_get_set_eq ps k v : prop_get (prop_set ps k v) k = Some v.
Proof.
  induction ps as [|[k' v'] ps IH]; cbn.
  - by rewrite decide_True.
  - case_decide; cbn; [by rewrite decide_True | by rewrite decide_False].
Qed.

Lemma prop_get_set_ne ps k k' v : k ≠ k' → prop_get (prop_set ps k v) k' = prop_get ps k'.
Proof.
  intros Hne. induction ps as [|[k0 v0] ps IH]; cbn.
  - by rewrite decide_False.
  - case_decide; cbn; [subst; by rewrite !decide_False | by rewrite IH].
Qed.

Lemma prop_get_set ps k k' v :
  prop_get (prop_set ps k v) k' = if decide (k = k') then Some v else prop_get ps k'.
Proof.
  case_decide; [subst; apply prop_get_set_eq | by apply prop_get_set_ne].
Qed.

(** An existing key keeps its position: the keys do not change. *)
Lemma prop_keys_set_present ps k v :
  k ∈ prop_keys ps → prop_keys (prop_set ps k v) = prop_keys ps.
Proof.
  unfold prop_keys. induction ps as [|[k' v'] ps IH]; cbn.
  - by intros ?%elem_of_nil.
  - intros Hin. case_decide; cbn; [by subst|].
    f_equal. apply IH. by apply elem_of_cons in Hin as [?|?].
Qed.

(** A new key goes last. *)
Lemma prop_keys_set_absent ps k v :
  k ∉ prop_keys ps → prop_keys (prop_set ps k v) = prop_keys ps ++ [k].
Proof.
  unfold prop_keys. induction ps as [|[k' v'] ps IH]; cbn; [done|].
  intros Hin. apply not_elem_of_cons in Hin as [Hne Hin].
  rewrite decide_False by done. cbn. by rewrite IH.
Qed.

Lemma prop_keys_set ps k v :
  prop_keys (prop_set ps k v)
  = if has_prop ps k then prop_keys ps else prop_keys ps ++ [k].
Proof.
  destruct (has_prop ps k) eqn:E.
  - apply prop_keys_set_present. by apply has_prop_true.
  - apply prop_keys_set_absent. rewrite <- has_prop_true. by rewrite E.
Qed.

Lemma elem_of_prop_keys_set ps k k' v :
  k' ∈ prop_keys (prop_set ps k v) ↔ k' = k ∨ k' ∈ prop_keys ps.
Proof.
  rewrite <- !prop_get_is_Some, prop_get_set.
  case_decide as Hk; [subst; split; [by left | by eexists]|].
  split; [by right | by intros [->|?]].
Qed.

Lemma length_prop_set ps k v :
  length (prop_set ps k v) = if has_prop ps k then length ps else S (length ps).
Proof.
  rewrite <- !(length_fmap fst). fold (prop_keys (prop_set ps k v)) (prop_keys ps).
  rewrite prop_keys_set. destruct (has_prop ps k); [done|].
  rewrite length_app. cbn. lia.
Qed.

Lemma props_wf_nil : props_wf (V := V) [].
Proof. constructor. Qed.

Lemma props_wf_set ps k v : props_wf ps → props_wf (prop_set ps k v).
Proof.
  unfold props_wf. rewrite prop_keys_set. destruct (has_prop ps k) eqn:E; [done|].
  intros Hwf. apply NoDup_app. split_and!; [done| |apply NoDup_singleton].
  intros k' Hk' ->%list_elem_of_singleton.
  apply has_prop_true in Hk'. congruence.
Qed.

Lemma props_wf_singleton k v : props_wf [(k, v)].
Proof. apply (props_wf_set [] k v), props_wf_nil. Qed.

(** Writing the value a key already has changes nothing. *)
Lemma prop_set_same ps k v : prop_get ps k = Some v → prop_set ps k v = ps.
Proof.
  induction ps as [|[k' v'] ps IH]; cbn; [done|].
  case_decide; [intros [= ->]; by subst | intros; f_equal; auto].
Qed.

Lemma prop_set_set ps k v v' : prop_set (prop_set ps k v) k v' = prop_set ps k v'.
Proof.
  induction ps as [|[k' v0] ps IH]; cbn.
  - by rewrite decide_True.
  - case_decide; cbn; [by rewrite decide_True | rewrite decide_False by done; by f_equal].
Qed.

(** *** The map view *)

Lemma to_map_set ps k v : to_map (prop_set ps k v) = <[k:=v]> (to_map ps).
Proof.
  apply map_eq. intros k'. rewrite <- prop_get_to_map, prop_get_set.
  rewrite lookup_insert. case_decide; [done|]. by rewrite prop_get_to_map.
Qed.

Lemma dom_to_map ps : dom (to_map ps) = list_to_set (prop_keys ps).
Proof. unfold to_map, prop_keys. apply dom_list_to_map_L. Qed.

#[export] Instance props_equivalence : Equivalence (≡@{list (string * V)}).
Proof.
  unfold equiv, props_equiv. split.
  - by intros ps.
  - by intros ps1 ps2.
  - intros ps1 ps2 ps3. congruence.
Qed.

Lemma props_equiv_get ps1 ps2 : ps1 ≡ ps2 ↔ ∀ k, prop_get ps1 k = prop_get ps2 k.
Proof.
  unfold equiv, props_equiv. split.
  - intros H k. by rewrite !prop_get_to_map, H.
  - intros H. apply map_eq. intros k. by rewrite <- !prop_get_to_map.
Qed.

#[export] Instance prop_get_proper : Proper ((≡) ==> (=) ==> (=)) (prop_get (V := V)).
Proof. intros ps1 ps2 H k ? <-. by apply props_equiv_get. Qed.

#[export] Instance prop_set_proper :
  Proper ((≡) ==> (=) ==> (=) ==> (≡)) (prop_set (V := V)).
Proof.
  intros ps1 ps2 H k ? <- v ? <-. unfold equiv, props_equiv in *.
  by rewrite !to_map_set, H.
Qed.

#[export] Instance has_prop_proper : Proper ((≡) ==> (=) ==> (=)) (has_prop (V := V)).
Proof.
  intros ps1 ps2 H k ? <-. unfold has_prop.
  by rewrite (proj1 (props_equiv_get _ _) H k).
Qed.

(** Writes to different keys commute up to [≡] (not up to [=]: two new keys
    are appended in the order of the writes). *)
Lemma prop_set_comm ps k1 k2 v1 v2 :
  k1 ≠ k2 → prop_set (prop_set ps k1 v1) k2 v2 ≡ prop_set (prop_set ps k2 v2) k1 v1.
Proof.
  intros Hne. unfold equiv, props_equiv.
  rewrite !to_map_set. by apply insert_insert_ne.
Qed.

End table_facts.

#[export] Hint Resolve props_wf_nil props_wf_set props_wf_singleton : js.
#[export] Hint Rewrite @prop_get_set_eq : js_run.

(** ** Summary: keys and tables *)

Lemma indexed_keys_filter ks :
  (indexed_keys ks).*2 = filter (λ k, ¬ index_of_key k = None) ks.
Proof.
  induction ks as [|k ks IH]; [done|]. rewrite filter_cons, <- IH.
  unfold indexed_keys. cbn. by destruct (index_of_key k) as [n|]; case_decide.
Qed.



Section table_summary.
Context {V : Type}.
Implicit Types (ps : list (string * V)) (k : string) (v : V).


End table_summary.
