(* ===== verification/Heap.v ===== *)
(** * Heap: values, objects and the store

    The data of [src/jest.config.js]: primitive values and references, the
    objects references point to, the heap that holds them and the module
    cache that [require] reads.  Objects are mutable and shared: the base
    configuration is one heap cell that [kcd-scripts/jest], the module under
    verification and every later [require] all reach through the same
    location, which is why values carry locations and not copies.

    The file defines allocation and the cell operations as computations of
    [exec state], the well-formedness invariant [state_wf] (no dangling
    reference, no duplicate key, array keys kept out of the named properties
    of arrays) with its decision procedure, the lemmas by which allocation
    and update preserve it, and the relation [frame] that states which cells
    a computation may have changed. *)

From S2P Require Import Prelude Exec Props.

(** ** Values *)

Definition loc := positive.

Inductive value :=
| VUndefined
| VNull
| VBool (b : bool)
| VNum (n : Z)
| VStr (s : string)
| VRef (l : loc).

#[export] Instance value_eq_dec : EqDecision value.
Proof. solve_decision. Defined.

#[export] Instance value_inhabited : Inhabited value := populate VUndefined.

(** ** Objects

    [o_elems] is [Some vs] for an array with elements [vs] and [None] for an
    ordinary object; [o_props] are the own enumerable data properties with a
    string key, in creation order; [o_integrity] is the level that
    [Object.seal] and [Object.freeze] set for the whole object. *)
Inductive integrity := Extensible | Sealed | Frozen.

#[export] Instance integrity_eq_dec : EqDecision integrity.
Proof. solve_decision. Defined.

Record object := Obj {
  o_elems : option (list value);
  o_props : list (string * value);
  o_integrity : integrity
}.

#[export] Instance object_eq_dec : EqDecision object.
Proof. solve_decision. Defined.

#[export] Instance object_inhabited : Inhabited object := populate (Obj None [] Extensible).

(** The object an object literal creates, and the one an array literal
    creates. *)
Definition plain_object (ps : list (string * value)) : object := Obj None ps Extensible.

Definition array_object (vs : list value) : object := Obj (Some vs) [] Extensible.

Definition is_array (o : object) : bool := bool_decide (is_Some (o_elems o)).

Definition with_props (o : object) (ps : list (string * value)) : object :=
  Obj (o_elems o) ps (o_integrity o).

Definition with_elems (o : object) (vs : list value) : object :=
  Obj (Some vs) (o_props o) (o_integrity o).

(** ** The store

    [st_heap] maps a location to the object it holds; [st_modules] is the
    module cache: it maps a request to the location of the loaded module
    object, whose [exports] property [require] returns. *)
Record state := State {
  st_heap : gmap loc object;
  st_modules : gmap string loc
}.

#[export] Instance state_eq_dec : EqDecision state.
Proof. solve_decision. Defined.

Definition with_heap (s : state) (h : gmap loc object) : state :=
  State h (st_modules s).

(** ** Cell operations *)

Definition fresh_loc (h : gmap loc object) : loc := fresh (dom h).

(** [alloc o] stores [o] at a location not in use and returns it. *)
Definition alloc (o : object) : exec state loc := λ s,
  let l := fresh_loc (st_heap s) in
  (Return l, with_heap s (<[l:=o]> (st_heap s))).

(** [read_obj l]: the object at [l].  A reference to no object cannot be
    built by a JavaScript program; the model reports it apart. *)
Definition read_obj (l : loc) : exec state object :=
  gets (λ s, st_heap s !! l) ≫= lift_opt (OutOfFragment "dangling reference").

Definition write_obj (l : loc) (o : object) : exec state () :=
  modify (λ s, with_heap s (<[l:=o]> (st_heap s))).

(** ** Well-formedness *)

Definition value_ok (h : gmap loc object) (v : value) : Prop :=
  match v with
  | VRef l => is_Some (h !! l)
  | _ => True
  end.

(** A key of the named properties of an array is neither an index nor
    [length]: those are held by [o_elems]. *)
Definition named_key_ok (k : string) : Prop := index_of_key k = None ∧ k ≠ "length".

Definition object_wf (h : gmap loc object) (o : object) : Prop :=
  props_wf (o_props o)
  ∧ Forall (value_ok h) (o_props o).*2
  ∧ from_option (Forall (value_ok h)) True (o_elems o)
  ∧ (is_array o = true → Forall named_key_ok (prop_keys (o_props o))).

Definition heap_wf (h : gmap loc object) : Prop :=
  map_Forall (λ _ o, object_wf h o) h.

Definition state_wf (s : state) : Prop :=
  heap_wf (st_heap s)
  ∧ map_Forall (λ _ m, is_Some (st_heap s !! m)) (st_modules s).

#[export] Instance value_ok_dec h v : Decision (value_ok h v).
Proof. destruct v; apply _. Defined.

#[export] Instance named_key_ok_dec k : Decision (named_key_ok k).
Proof. unfold named_key_ok. apply _. Defined.

#[export] Instance object_wf_dec h o : Decision (object_wf h o).
Proof.
  unfold object_wf, props_wf. destruct (o_elems o); apply _.
Defined.

#[export] Instance heap_wf_dec h : Decision (heap_wf h).
Proof. unfold heap_wf. apply _. Defined.

#[export] Instance state_wf_dec s : Decision (state_wf s).
Proof. unfold state_wf. apply _. Defined.

(** [ok_state keep s]: [s] is well formed and the values [keep] that the
    running code holds (in variables, as arguments) refer to cells of [s]. *)
Definition ok_state (keep : list value) (s : state) : Prop :=
  state_wf s ∧ Forall (value_ok (st_heap s)) keep.

#[export] Instance ok_state_dec keep s : Decision (ok_state keep s).
Proof. unfold ok_state. apply _. Defined.

(** ** Frames

    [frame M s s']: going from [s] to [s'] the module cache is unchanged, no
    cell is lost, and every cell of [s] outside [M] holds the object it
    held.  Cells of [M] and cells allocated since may differ. *)
Definition frame (M : gset loc) (s s' : state) : Prop :=
  st_modules s' = st_modules s
  ∧ dom (st_heap s) ⊆ dom (st_heap s')
  ∧ ∀ l o, l ∉ M → st_heap s !! l = Some o → st_heap s' !! l = Some o.

(** ** Facts *)

Lemma fresh_loc_fresh h : h !! fresh_loc h = None.
Proof. apply (not_elem_of_dom (D := gset loc)). unfold fresh_loc. apply is_fresh. Qed.

Lemma value_ok_mono h h' v : dom h ⊆ dom h' → value_ok h v → value_ok h' v.
Proof.
  intros Hsub. destruct v; try done. cbn.
  rewrite <- !elem_of_dom. apply Hsub.
Qed.

Lemma object_wf_mono h h' o : dom h ⊆ dom h' → object_wf h o → object_wf h' o.
Proof.
  intros Hsub (Hnd & Hps & Hvs & Harr). split_and!; [done| | |done].
  - eapply Forall_impl; [done|]. intros v. by apply value_ok_mono.
  - destruct (o_elems o) as [vs|]; [|done]. cbn in *.
    eapply Forall_impl; [done|]. intros v. by apply value_ok_mono.
Qed.

Lemma heap_wf_empty : heap_wf ∅.
Proof. apply map_Forall_empty. Qed.

(** Storing a well-formed object, at a new or at a used location, keeps the
    heap well formed: the domain only grows. *)
Lemma heap_wf_insert h l o :
  heap_wf h → object_wf (<[l:=o]> h) o → heap_wf (<[l:=o]> h).
Proof.
  intros Hh Ho. apply map_Forall_insert_2; [done|].
  intros l' o' Hl'. eapply object_wf_mono; [|by apply Hh in Hl'].
  rewrite dom_insert. set_solver.
Qed.

Lemma heap_wf_alloc h o :
  heap_wf h → object_wf h o → heap_wf (<[fresh_loc h:=o]> h).
Proof.
  intros Hh Ho. apply heap_wf_insert; [done|].
  eapply object_wf_mono; [|done]. rewrite dom_insert. set_solver.
Qed.

Lemma heap_wf_lookup h l o : heap_wf h → h !! l = Some o → object_wf h o.
Proof. intros Hh Hl. by apply Hh in Hl. Qed.

Lemma value_ok_insert h l o v : value_ok h v → value_ok (<[l:=o]> h) v.
Proof. apply value_ok_mono. rewrite dom_insert. set_solver. Qed.

Lemma value_ok_ref_insert h l o : value_ok (<[l:=o]> h) (VRef l).
Proof. cbn. rewrite lookup_insert_eq. by eexists. Qed.

Lemma object_wf_plain_nil h : object_wf h (plain_object []).
Proof. split_and!; cbn; by try constructor. Qed.

Lemma object_wf_array_nil h : object_wf h (array_object []).
Proof. split_and!; cbn; by try constructor. Qed.

(** The values an object holds are well formed when the object is. *)
Lemma object_wf_prop h o k v :
  object_wf h o → prop_get (o_props o) k = Some v → value_ok h v.
Proof.
  intros (_ & Hps & _) Hk%prop_get_Some_elem. by eapply Forall_snd_elem.
Qed.

Lemma object_wf_elems h o vs :
  object_wf h o → o_elems o = Some vs → Forall (value_ok h) vs.
Proof. intros (_ & _ & Hvs & _) E. by rewrite E in Hvs. Qed.

(** Well-formedness of an object after one of its properties is written. *)
Lemma object_wf_set_prop h o k v :
  object_wf h o → value_ok h v → (is_array o = true → named_key_ok k) →
  object_wf h (with_props o (prop_set (o_props o) k v)).
Proof.
  intros (Hnd & Hps & Hvs & Harr) Hv Hk. split_and!; cbn.
  - by apply props_wf_set.
  - rewrite Forall_forall in Hps |- *. intros v' Hv'.
    apply list_elem_of_fmap in Hv' as ([k' v''] & -> & Hin). cbn.
    destruct (decide (k = k')) as [<-|Hne].
    + apply (prop_get_elem_wf _ _ _ (props_wf_set _ k v Hnd)) in Hin.
      rewrite prop_get_set_eq in Hin. by simplify_eq.
    + apply (prop_get_elem_wf _ _ _ (props_wf_set _ k v Hnd)) in Hin.
      rewrite prop_get_set_ne in Hin by done.
      apply Hps, list_elem_of_fmap. exists (k', v''). split; [done|].
      by apply prop_get_Some_elem.
  - done.
  - intros Ha. rewrite Forall_forall. intros k' Hk'.
    apply elem_of_prop_keys_set in Hk' as [->|Hk']; [by apply Hk|].
    by eapply Forall_elem; [apply Harr|].
Qed.

Lemma object_wf_set_elems h o vs :
  object_wf h o → is_array o = true → Forall (value_ok h) vs →
  object_wf h (with_elems o vs).
Proof. intros (Hnd & Hps & _ & Harr) Ha Hvs. split_and!; cbn; auto. Qed.

(** ** [ok_state]: facts *)

Lemma ok_state_wf keep s : ok_state keep s → state_wf s.
Proof. by intros [? _]. Qed.

Lemma ok_state_elem keep s v : ok_state keep s → v ∈ keep → value_ok (st_heap s) v.
Proof. intros [_ Hk] Hv. by eapply Forall_elem. Qed.

Lemma ok_state_lookup keep s l :
  ok_state keep s → VRef l ∈ keep → ∃ o, st_heap s !! l = Some o ∧ object_wf (st_heap s) o.
Proof.
  intros Hok Hl. destruct (ok_state_elem _ _ _ Hok Hl) as [o Ho].
  exists o. split; [done|]. eapply heap_wf_lookup; [apply Hok|done].
Qed.

Lemma ok_state_weaken keep keep' s : keep' ⊆ keep → ok_state keep s → ok_state keep' s.
Proof.
  intros Hsub [Hwf Hk]. split; [done|]. rewrite Forall_forall in Hk |- *.
  intros v Hv. by apply Hk, Hsub.
Qed.

Lemma ok_state_cons keep s v : ok_state keep s → value_ok (st_heap s) v → ok_state (v :: keep) s.
Proof. intros [Hwf Hk] Hv. split; [done|by constructor]. Qed.

Lemma ok_state_app keep s vs :
  ok_state keep s → Forall (value_ok (st_heap s)) vs → ok_state (vs ++ keep) s.
Proof. intros [Hwf Hk] Hv. split; [done|by apply Forall_app]. Qed.

(** A store that is well formed and has kept every cell keeps the held
    values valid. *)
Lemma ok_state_grow keep s s' :
  ok_state keep s → state_wf s' → dom (st_heap s) ⊆ dom (st_heap s') → ok_state keep s'.
Proof.
  intros [_ Hk] Hwf Hsub. split; [done|].
  eapply Forall_impl; [done|]. intros v. by apply value_ok_mono.
Qed.

(** ** Record updates *)

Lemma with_heap_id s : with_heap s (st_heap s) = s.
Proof. by destruct s. Qed.

Lemma with_heap_with_heap s h h' : with_heap (with_heap s h) h' = with_heap s h'.
Proof. done. Qed.

Lemma with_elems_id o vs : o_elems o = Some vs → with_elems o vs = o.
Proof. destruct o. cbn. by intros ->. Qed.

Lemma with_elems_with_elems o vs vs' : with_elems (with_elems o vs) vs' = with_elems o vs'.
Proof. done. Qed.

Lemma with_props_id o : with_props o (o_props o) = o.
Proof. by destruct o. Qed.

Lemma with_heap_insert_id s l o : st_heap s !! l = Some o → with_heap s (<[l:=o]> (st_heap s)) = s.
Proof. intros H. by rewrite insert_id, with_heap_id. Qed.

(** ** Frames: facts *)

#[export] Instance frame_preorder M : PreOrder (frame M).
Proof.
  split.
  - by intros s.
  - intros s1 s2 s3 (Hm1 & Hd1 & Hf1) (Hm2 & Hd2 & Hf2). split_and!.
    + congruence.
    + set_solver.
    + intros l o Hl Ho. by apply Hf2, Hf1.
Qed.

Lemma frame_mono M M' s s' : M ⊆ M' → frame M s s' → frame M' s s'.
Proof.
  intros Hsub (Hm & Hd & Hf). split_and!; [done..|].
  intros l o Hl. apply Hf. set_solver.
Qed.

Lemma frame_lookup M s s' l o :
  frame M s s' → l ∉ M → st_heap s !! l = Some o → st_heap s' !! l = Some o.
Proof. intros (_ & _ & Hf). apply Hf. Qed.

Lemma frame_modules M s s' : frame M s s' → st_modules s' = st_modules s.
Proof. by intros (Hm & _). Qed.

(** Allocation touches no existing cell. *)
Lemma frame_alloc s o :
  frame ∅ s (with_heap s (<[fresh_loc (st_heap s):=o]> (st_heap s))).
Proof.
  split_and!; [done|apply dom_insert_subseteq|]. cbn.
  intros l o' _ Hl. rewrite lookup_insert_ne; [done|].
  intros <-. by rewrite fresh_loc_fresh in Hl.
Qed.

(** A write to a used cell touches only that cell. *)
Lemma frame_write s l o :
  frame {[l]} s (with_heap s (<[l:=o]> (st_heap s))).
Proof.
  split_and!; [done|apply dom_insert_subseteq|]. cbn.
  intros l' o' Hl' Ho'. rewrite lookup_insert_ne; [done|]. set_solver.
Qed.

(** ** Runs of the cell operations *)

Lemma run_alloc o s :
  alloc o s = (Return (fresh_loc (st_heap s)),
               with_heap s (<[fresh_loc (st_heap s):=o]> (st_heap s))).
Proof. done. Qed.

Lemma run_read_obj l s o :
  st_heap s !! l = Some o → ⟨ read_obj l, s ⟩ ⇓ ⟨ o, s ⟩.
Proof. intros H. unfold read_obj. run_simpl. by rewrite H. Qed.

Lemma run_read_obj_None l s :
  st_heap s !! l = None →
  ⟨ read_obj l, s ⟩ ⇑ ⟨ OutOfFragment "dangling reference", s ⟩.
Proof. intros H. unfold read_obj. run_simpl. by rewrite H. Qed.

Lemma run_write_obj l o s :
  write_obj l o s = (Return (), with_heap s (<[l:=o]> (st_heap s))).
Proof. done. Qed.

(** [run_read H], where [H] says what the heap holds at a location, or that
    it holds nothing, rewrites a sequence that starts with the read of that
    location. *)
Tactic Notation "run_read" constr(H) :=
  first [run_step (run_read_obj _ _ _ H) | run_step (run_read_obj_None _ _ H)].
Tactic Notation "run_read" constr(H) "in" hyp(G) :=
  first [run_step (run_read_obj _ _ _ H) in G | run_step (run_read_obj_None _ _ H) in G].

(** ** Preservation of [state_wf] by the cell operations *)

Lemma state_wf_with_heap s h :
  state_wf s → heap_wf h → dom (st_heap s) ⊆ dom h → state_wf (with_heap s h).
Proof.
  intros [_ Hm] Hh Hsub. split; [done|]. cbn.
  intros r m Hr. apply Hm in Hr. cbn in Hr.
  apply elem_of_dom, Hsub, elem_of_dom, Hr.
Qed.

(** Storing a well-formed object, at a new or at a used location, keeps the
    state well formed and the values held valid. *)
Lemma ok_state_insert keep s l o :
  ok_state keep s → object_wf (<[l:=o]> (st_heap s)) o →
  ok_state (VRef l :: keep) (with_heap s (<[l:=o]> (st_heap s))).
Proof.
  intros Hok Ho. apply ok_state_cons; [|apply value_ok_ref_insert].
  eapply ok_state_grow; [done| |apply dom_insert_subseteq].
  apply state_wf_with_heap; [apply Hok| |apply dom_insert_subseteq].
  by apply heap_wf_insert; [apply Hok|].
Qed.

Lemma hoare_alloc o (P : state → Prop) :
  (∀ s, P s → state_wf s ∧ object_wf (st_heap s) o) →
  hoare P (alloc o)
    (λ l s', state_wf s' ∧ st_heap s' !! l = Some o) (λ _ _, False).
Proof.
  intros HP s [Hwf Ho]%HP. rewrite run_alloc. split.
  - apply state_wf_with_heap; [done| |apply dom_insert_subseteq].
    by apply heap_wf_alloc; [apply Hwf|].
  - cbn. by rewrite lookup_insert_eq.
Qed.

Lemma hoare_read_obj l :
  hoare state_wf (read_obj l)
    (λ o s', state_wf s' ∧ st_heap s' !! l = Some o ∧ object_wf (st_heap s') o)
    (λ e s', state_wf s' ∧ st_heap s' !! l = None).
Proof.
  intros s Hwf. destruct (st_heap s !! l) as [o|] eqn:E.
  - rewrite (run_read_obj _ _ o) by done. split_and!; [done..|].
    by eapply heap_wf_lookup; [apply Hwf|].
  - by rewrite run_read_obj_None.
Qed.

Lemma hoare_write_obj l o (P : state → Prop) :
  (∀ s, P s → state_wf s ∧ object_wf (<[l:=o]> (st_heap s)) o) →
  hoare P (write_obj l o)
    (λ _ s', state_wf s' ∧ st_heap s' !! l = Some o) (λ _ _, False).
Proof.
  intros HP s [Hwf Ho]%HP. rewrite run_write_obj. split.
  - apply state_wf_with_heap; [done| |apply dom_insert_subseteq].
    by apply heap_wf_insert; [apply Hwf|].
  - cbn. by rewrite lookup_insert_eq.
Qed.

#[export] Hint Resolve ok_state_insert ok_state_cons ok_state_wf : js.
#[export] Hint Resolve heap_wf_empty heap_wf_insert heap_wf_alloc
  object_wf_plain_nil object_wf_array_nil value_ok_insert
  value_ok_ref_insert : js.
#[export] Hint Rewrite run_alloc run_write_obj : js_run.
