(* ===== verification/Objects.v ===== *)
(** * Objects: the internal methods of one object

    The operations of this file are pure functions of a single object; the
    operations of [Builtins] read an object from the heap, apply one of them
    and write the result back.

    - [own_prop] and [own_keys]: the enumerable own properties that
      [Object.assign] copies, with the order in which it visits them;
    - [object_get] and [string_get]: what a member read returns;
    - [object_set]: the ordinary [[Set]] on a data property, with the three
      ways it can end ([set_result]): the updated object, a refusal (the
      object is sealed or frozen), or a case outside the model (sparse
      arrays, writes to [length]);
    - [chars]: the values that iterating a string yields;
    - [push_all]: the array that results from storing a list of values at
      consecutive indices, which is what an array literal does, with the
      invariant [growing] under which every one of these writes succeeds.

    The lemmas relate [object_set] to [own_prop] and [own_keys] (what is read
    after a write, which keys exist and in which order), show that it
    preserves [object_wf], and show that [push_all] appends as long as the
    indices stay array indices. *)

From S2P Require Import Prelude Exec Props Heap.

(** ** Reading *)

(** The own enumerable property [k] of [o]: an element for an index key of
    an array, a named property otherwise. *)
Definition own_prop (o : object) (k : string) : option value :=
  match o_elems o, index_of_key k with
  | Some vs, Some n => vs !! N.to_nat n
  | _, _ => prop_get (o_props o) k
  end.

(** [o.k]: arrays answer [length]; an absent property reads as
    [undefined]. *)
Definition object_get (o : object) (k : string) : value :=
  match o_elems o with
  | Some vs =>
      if decide (k = "length") then VNum (Z.of_nat (length vs))
      else default VUndefined (own_prop o k)
  | None => default VUndefined (own_prop o k)
  end.

(** One string per character. *)
Definition chars (s : string) : list value :=
  (λ c, VStr (String c EmptyString)) <$> String.list_ascii_of_string s.

(** [s.k] for a string [s]: its length and its characters. *)
Definition string_get (s : string) (k : string) : value :=
  if decide (k = "length") then VNum (Z.of_nat (String.length s))
  else match index_of_key k with
       | Some n => default VUndefined (chars s !! N.to_nat n)
       | None => VUndefined
       end.

(** The keys of the indices [0 .. n-1]. *)
Definition index_keys (n : nat) : list string :=
  (λ i, key_of_index (N.of_nat i)) <$> seq 0 n.

(** The own enumerable string keys of [o] in enumeration order.  The
    [length] of an array is not enumerable. *)
Definition own_keys (o : object) : list string :=
  match o_elems o with
  | Some vs => index_keys (length vs) ++ prop_keys (o_props o)
  | None => ordered_keys (prop_keys (o_props o))
  end.

(** ** Writing *)

Inductive set_result :=
| SetOk (o : object)
| SetFail (why : type_error)
| SetOutside (what : string).

(** Write the named property [k]: an existing property of a frozen object
    is read-only; a sealed or frozen object takes no new property. *)
Definition set_named (o : object) (k : string) (v : value) : set_result :=
  if has_prop (o_props o) k then
    match o_integrity o with
    | Frozen => SetFail ReadOnly
    | _ => SetOk (with_props o (prop_set (o_props o) k v))
    end
  else
    match o_integrity o with
    | Extensible => SetOk (with_props o (prop_set (o_props o) k v))
    | _ => SetFail NotExtensible
    end.

(** Write element [n] of an array with elements [vs]: overwrite inside,
    append at the end; a write past the end would leave holes. *)
Definition set_index (o : object) (vs : list value) (n : N) (v : value) : set_result :=
  let i := N.to_nat n in
  if decide (i < length vs) then
    match o_integrity o with
    | Frozen => SetFail ReadOnly
    | _ => SetOk (with_elems o (<[i:=v]> vs))
    end
  else
    match o_integrity o with
    | Extensible =>
        if decide (i = length vs) then SetOk (with_elems o (vs ++ [v]))
        else SetOutside "sparse array"
    | _ => SetFail NotExtensible
    end.

Definition object_set (o : object) (k : string) (v : value) : set_result :=
  match o_elems o with
  | Some vs =>
      if decide (k = "length") then SetOutside "array length"
      else match index_of_key k with
           | Some n => set_index o vs n v
           | None => set_named o k v
           end
  | None => set_named o k v
  end.

(** The object that storing [vs] under the keys of [i], [i + 1], ... leaves:
    what the accumulation of an array literal does to the array it fills.
    It stops at the first write that does not succeed. *)
Fixpoint push_all (o : object) (i : N) (vs : list value) : object :=
  match vs with
  | [] => o
  | v :: vs' =>
      match object_set o (key_of_index i) v with
      | SetOk o' => push_all o' (i + 1) vs'
      | _ => o
      end
  end.

(** [growing o i]: [o] is an extensible array being filled in order and [i]
    is the next index.  As long as [i] is an array index it is the length of
    the array; past the largest index the keys are ordinary names and the
    elements stay as they are. *)
Definition growing (o : object) (i : N) : Prop :=
  o_integrity o = Extensible
  ∧ ∃ vs, o_elems o = Some vs ∧ ((i ≤ max_array_index)%N → N.of_nat (length vs) = i).

(** ** Facts about reading *)

Lemma own_prop_plain o k : o_elems o = None → own_prop o k = prop_get (o_props o) k.
Proof. unfold own_prop. by intros ->. Qed.

Lemma own_prop_named o k : index_of_key k = None → own_prop o k = prop_get (o_props o) k.
Proof. unfold own_prop. intros ->. by destruct (o_elems o). Qed.

Lemma own_prop_index o vs k n :
  o_elems o = Some vs → index_of_key k = Some n → own_prop o k = vs !! N.to_nat n.
Proof. unfold own_prop. by intros -> ->. Qed.

Lemma object_get_plain o k :
  o_elems o = None → object_get o k = default VUndefined (prop_get (o_props o) k).
Proof. intros E. unfold object_get. by rewrite E, own_prop_plain. Qed.

Lemma object_get_Some o k v :
  o_elems o = None → prop_get (o_props o) k = Some v → object_get o k = v.
Proof. intros E Hk. by rewrite object_get_plain, Hk. Qed.

Lemma object_get_None o k :
  o_elems o = None → prop_get (o_props o) k = None → object_get o k = VUndefined.
Proof. intros E Hk. by rewrite object_get_plain, Hk. Qed.

(** An absent property reads as [undefined]. *)
Lemma object_get_absent o k : k ≠ "length" → own_prop o k = None → object_get o k = VUndefined.
Proof.
  intros Hk Hn. unfold object_get. rewrite Hn.
  destruct (o_elems o); [by rewrite decide_False|done].
Qed.

Lemma object_get_present o k v : k ≠ "length" → own_prop o k = Some v → object_get o k = v.
Proof.
  intros Hk Hn. unfold object_get. rewrite Hn.
  destruct (o_elems o); [by rewrite decide_False|done].
Qed.

(** A string has no property under an ordinary name. *)
Lemma string_get_named s k : named_key_ok k → string_get s k = VUndefined.
Proof. intros [Hk Hlen]. unfold string_get. by rewrite decide_False, Hk. Qed.

Lemma length_chars s : length (chars s) = String.length s.
Proof.
  unfold chars. rewrite length_fmap.
  induction s as [|c s IH]; cbn; congruence.
Qed.

Lemma length_index_keys n : length (index_keys n) = n.
Proof. unfold index_keys. by rewrite length_fmap, length_seq. Qed.

Lemma own_keys_plain o :
  o_elems o = None → own_keys o = ordered_keys (prop_keys (o_props o)).
Proof. unfold own_keys. by intros ->. Qed.

(** Every enumerated key of an ordinary object has a value. *)
Lemma own_keys_own_prop o k :
  o_elems o = None → k ∈ own_keys o → is_Some (own_prop o k).
Proof.
  intros E. rewrite own_keys_plain, own_prop_plain by done.
  rewrite elem_of_ordered_keys. apply prop_get_is_Some.
Qed.

(** What is read from a well-formed object is a valid value. *)
Lemma own_prop_ok h o k v : object_wf h o → own_prop o k = Some v → value_ok h v.
Proof.
  intros Hwf. unfold own_prop.
  destruct (o_elems o) as [vs|] eqn:E, (index_of_key k) as [n|];
    try by apply object_wf_prop.
  intros Hv. pose proof (object_wf_elems _ _ _ Hwf E) as Hvs.
  by eapply Forall_lookup_1.
Qed.

Lemma object_get_ok h o k : object_wf h o → value_ok h (object_get o k).
Proof.
  intros Hwf. unfold object_get.
  destruct (o_elems o); [case_decide; [done|]|];
    (destruct (own_prop o k) as [v|] eqn:Hv; [by eapply own_prop_ok|done]).
Qed.

Lemma chars_ok h s : Forall (value_ok h) (chars s).
Proof. unfold chars. apply Forall_fmap, Forall_true. done. Qed.

Lemma string_get_ok h s k : value_ok h (string_get s k).
Proof.
  unfold string_get. case_decide; [done|]. destruct (index_of_key k); [|done].
  destruct (chars s !! _) as [v|] eqn:Hv; [|done]. cbn.
  by eapply Forall_lookup_1; [apply chars_ok|].
Qed.

(** ** Facts about writing *)

Lemma set_named_extensible o k v :
  o_integrity o = Extensible →
  set_named o k v = SetOk (with_props o (prop_set (o_props o) k v)).
Proof. unfold set_named. intros ->. by destruct (has_prop _ _). Qed.

Lemma set_named_present o k v :
  has_prop (o_props o) k = true → o_integrity o ≠ Frozen →
  set_named o k v = SetOk (with_props o (prop_set (o_props o) k v)).
Proof. unfold set_named. intros -> Hi. by destruct (o_integrity o). Qed.

Lemma set_named_frozen o k v :
  has_prop (o_props o) k = true → o_integrity o = Frozen →
  set_named o k v = SetFail ReadOnly.
Proof. unfold set_named. by intros -> ->. Qed.

Lemma set_named_closed o k v :
  has_prop (o_props o) k = false → o_integrity o ≠ Extensible →
  set_named o k v = SetFail NotExtensible.
Proof. unfold set_named. intros -> Hi. by destruct (o_integrity o). Qed.

Lemma set_named_inv o k v o' :
  set_named o k v = SetOk o' → o' = with_props o (prop_set (o_props o) k v).
Proof.
  unfold set_named. destruct (has_prop _ _), (o_integrity o); by intros [= <-].
Qed.

Lemma set_named_never_outside o k v what : set_named o k v = SetOutside what → False.
Proof. unfold set_named. by destruct (has_prop _ _), (o_integrity o). Qed.

Lemma object_set_plain o k v : o_elems o = None → object_set o k v = set_named o k v.
Proof. unfold object_set. by intros ->. Qed.

(** Appending through the key of the first free index. *)
Lemma object_set_push o vs v :
  o_elems o = Some vs → o_integrity o = Extensible →
  (N.of_nat (length vs) ≤ max_array_index)%N →
  object_set o (key_of_index (N.of_nat (length vs))) v = SetOk (with_elems o (vs ++ [v])).
Proof.
  intros E Hi Hlen. unfold object_set. rewrite E.
  rewrite decide_False; last first.
  { intros Hk. pose proof (index_of_key_of_index _ Hlen) as Hidx.
    by rewrite Hk in Hidx. }
  rewrite index_of_key_of_index by done. unfold set_index.
  rewrite Nat2N.id, decide_False by lia. rewrite Hi. by rewrite decide_True.
Qed.

(** A write is refused by a sealed or frozen object only, with one of the
    two [TypeError]s of a write. *)
Lemma object_set_fail o k v why :
  object_set o k v = SetFail why →
  o_integrity o ≠ Extensible ∧ (why = ReadOnly ∨ why = NotExtensible).
Proof.
  unfold object_set, set_index, set_named.
  destruct (o_elems o) as [vs|], (index_of_key k), (has_prop (o_props o) k),
    (o_integrity o); repeat case_decide; intros; simplify_eq; auto.
Qed.

(** A write to a property that exists, under an ordinary name, is refused by
    a frozen object only. *)
Lemma object_set_fail_present o k v why :
  named_key_ok k → is_Some (own_prop o k) → object_set o k v = SetFail why →
  why = ReadOnly ∧ o_integrity o = Frozen.
Proof.
  intros [Hk Hlen] Hp. rewrite own_prop_named in Hp by done.
  assert (has_prop (o_props o) k = true) as Hh by (by apply bool_decide_eq_true).
  unfold object_set, set_named. rewrite Hk, Hh.
  destruct (o_elems o); [rewrite decide_False by done|];
    by destruct (o_integrity o); intros [= <-].
Qed.

(** A write to an ordinary name stays inside the model. *)
Lemma object_set_named_inside o k v what :
  named_key_ok k → object_set o k v = SetOutside what → False.
Proof.
  intros [Hk Hlen]. unfold object_set. rewrite Hk.
  destruct (o_elems o); [rewrite decide_False by done|]; apply set_named_never_outside.
Qed.

(** So does a write to an ordinary object. *)
Lemma object_set_plain_inside o k v what :
  o_elems o = None → object_set o k v = SetOutside what → False.
Proof. intros E. rewrite object_set_plain by done. apply set_named_never_outside. Qed.

(** The two ways a write to an element succeeds. *)
Lemma set_index_inv o vs n v o' :
  set_index o vs n v = SetOk o' →
  (N.to_nat n < length vs ∧ o' = with_elems o (<[N.to_nat n:=v]> vs))
  ∨ (N.to_nat n = length vs ∧ o' = with_elems o (vs ++ [v])).
Proof.
  unfold set_index. intros Hset.
  repeat case_decide; destruct (o_integrity o); simplify_eq; auto.
Qed.

(** The ways [object_set] succeeds, by the kind of object and key. *)
Lemma object_set_cases o k v o' :
  object_set o k v = SetOk o' →
  ((o_elems o = None ∨ named_key_ok k)
   ∧ o' = with_props o (prop_set (o_props o) k v))
  ∨ ∃ vs n, o_elems o = Some vs ∧ index_of_key k = Some n
      ∧ set_index o vs n v = SetOk o'.
Proof.
  unfold object_set. destruct (o_elems o) as [vs|] eqn:E.
  - case_decide; [done|]. destruct (index_of_key k) as [n|] eqn:Hn.
    + intros Hset. right. by exists vs, n.
    + intros ->%set_named_inv. left. split; [by right|done].
  - intros ->%set_named_inv. left. auto.
Qed.

Lemma object_set_inv o k v o' :
  object_set o k v = SetOk o' →
  o' = with_props o (prop_set (o_props o) k v)
  ∨ ∃ vs vs', o_elems o = Some vs ∧ is_Some (index_of_key k) ∧ o' = with_elems o vs'.
Proof.
  intros [[_ ->]|(vs & n & E & Hn & Hset)]%object_set_cases; [by left|].
  right. exists vs.
  apply set_index_inv in Hset as [[_ ->]|[_ ->]]; eauto.
Qed.

Lemma object_set_integrity o k v o' :
  object_set o k v = SetOk o' → o_integrity o' = o_integrity o.
Proof. by intros [->|(vs & vs' & _ & _ & ->)]%object_set_inv. Qed.

Lemma object_set_is_array o k v o' :
  object_set o k v = SetOk o' → is_array o' = is_array o.
Proof.
  intros [->|(vs & vs' & E & _ & ->)]%object_set_inv; [done|].
  unfold is_array. cbn. by rewrite E.
Qed.

(** What is read after a write. *)
Lemma own_prop_set_eq o k v o' : object_set o k v = SetOk o' → own_prop o' k = Some v.
Proof.
  intros [[Hk ->]|(vs & n & E & Hn & Hset)]%object_set_cases.
  - unfold own_prop. cbn. destruct Hk as [->|[-> _]].
    + apply prop_get_set_eq.
    + destruct (o_elems o); apply prop_get_set_eq.
  - apply set_index_inv in Hset as [[Hlt ->]|[Heq ->]];
      erewrite own_prop_index by done.
    + by apply list_lookup_insert_eq.
    + by rewrite lookup_app_r, Heq, Nat.sub_diag by lia.
Qed.

Lemma own_prop_set_ne o k k' v o' :
  object_set o k v = SetOk o' → k ≠ k' → own_prop o' k' = own_prop o k'.
Proof.
  intros [[Hk ->]|(vs & n & E & Hn & Hset)]%object_set_cases Hne.
  - unfold own_prop. cbn.
    destruct (o_elems o), (index_of_key k'); try done; by apply prop_get_set_ne.
  - unfold own_prop. rewrite E.
    apply set_index_inv in Hset as [[Hlt ->]|[Heq ->]]; cbn;
      (destruct (index_of_key k') as [n'|] eqn:Hn'; [|done]).
    all: assert (N.to_nat n ≠ N.to_nat n') as Hnn
      by (intros Heq'; apply Hne, (index_of_key_inj _ _ n); [done|];
          by replace n with n' by lia).
    + by apply list_lookup_insert_ne.
    + destruct (decide (N.to_nat n' < length vs)); [by rewrite lookup_app_l|].
      rewrite !lookup_ge_None_2; [done|lia|rewrite length_app; cbn; lia].
Qed.

(** Writing an existing key of an ordinary object leaves the keys and
    their order as they were. *)
Lemma own_keys_set_present o k v o' :
  o_elems o = None → has_prop (o_props o) k = true →
  object_set o k v = SetOk o' → own_keys o' = own_keys o.
Proof.
  intros E Hk. rewrite object_set_plain by done. intros ->%set_named_inv.
  unfold own_keys, with_props. cbn [o_elems o_props]. rewrite E.
  by rewrite prop_keys_set_present by by apply has_prop_true.
Qed.

(** Replacing the value of a named property: what is read back, which
    keys there are, and what the other keys hold. *)
Lemma object_get_with_props_set o k v :
  named_key_ok k → object_get (with_props o (prop_set (o_props o) k v)) k = v.
Proof.
  intros [Hk Hlen]. unfold object_get. rewrite own_prop_named by done. cbn.
  rewrite prop_get_set_eq. destruct (o_elems o); [by rewrite decide_False|done].
Qed.

Lemma own_prop_with_props_set o k k' v :
  k ≠ k' → own_prop (with_props o (prop_set (o_props o) k v)) k' = own_prop o k'.
Proof.
  intros Hne. unfold own_prop. cbn.
  destruct (o_elems o), (index_of_key k'); try done; by apply prop_get_set_ne.
Qed.

Lemma object_get_with_props_set_ne o k k' v :
  k ≠ k' → object_get (with_props o (prop_set (o_props o) k v)) k' = object_get o k'.
Proof.
  intros Hne. unfold object_get. rewrite own_prop_with_props_set by done.
  done.
Qed.

Lemma own_keys_with_props_present o k v :
  has_prop (o_props o) k = true →
  own_keys (with_props o (prop_set (o_props o) k v)) = own_keys o.
Proof.
  intros Hk. unfold own_keys, with_props. cbn [o_elems o_props].
  by rewrite prop_keys_set_present by by apply has_prop_true.
Qed.

(** [object_set] preserves well-formedness. *)
Lemma object_wf_set h o k v o' :
  object_wf h o → value_ok h v → object_set o k v = SetOk o' → object_wf h o'.
Proof.
  intros Hwf Hv [[Hk ->]|(vs & n & E & Hn & Hset)]%object_set_cases.
  - apply object_wf_set_prop; [done..|]. unfold is_array. intros Ha.
    destruct Hk as [Hk|Hk]; [by rewrite Hk in Ha|done].
  - assert (is_array o = true) as Ha by (unfold is_array; by rewrite E).
    pose proof (object_wf_elems _ _ _ Hwf E) as Hvs.
    apply set_index_inv in Hset as [[_ ->]|[_ ->]];
      apply object_wf_set_elems; try done.
    + by apply Forall_insert.
    + apply Forall_app; split; [done|by constructor].
Qed.

#[export] Hint Resolve object_wf_set : js.

(** ** Filling an array in order *)

Lemma growing_array_nil : growing (array_object []) 0.
Proof. split; [done|]. by exists []. Qed.

Lemma growing_length o vs :
  o_elems o = Some vs → o_integrity o = Extensible → growing o (N.of_nat (length vs)).
Proof. intros E Hi. split; [done|]. by exists vs. Qed.

(** Past the largest index the key is an ordinary name: the value becomes a
    property of the array, whose elements stay as they are. *)
Lemma object_set_beyond o vs i v :
  o_elems o = Some vs → o_integrity o = Extensible → (max_array_index < i)%N →
  object_set o (key_of_index i) v
  = SetOk (with_props o (prop_set (o_props o) (key_of_index i) v)).
Proof.
  intros E Hi Hgt. destruct (key_of_index_beyond_named i Hgt) as [Hk Hl].
  unfold object_set. rewrite E, decide_False, Hk by done. by apply set_named_extensible.
Qed.

(** Each write of the accumulation succeeds and leaves an array that is
    still growing. *)
Lemma growing_step o i v :
  growing o i → ∃ o', object_set o (key_of_index i) v = SetOk o' ∧ growing o' (i + 1).
Proof.
  intros (Hi & vs & E & Hlen). destruct (decide (i ≤ max_array_index)%N) as [Hle|Hgt].
  - pose proof (Hlen Hle) as Hn. subst i. eexists. split; [by apply object_set_push|].
    split; [done|]. exists (vs ++ [v]). split; [done|]. rewrite length_app. cbn. lia.
  - eexists. split; [apply (object_set_beyond _ _ _ _ E Hi); lia|].
    split; [done|]. exists vs. split; [done|lia].
Qed.

Lemma push_all_cons o o' i v vs :
  object_set o (key_of_index i) v = SetOk o' →
  push_all o i (v :: vs) = push_all o' (i + 1) vs.
Proof. cbn. by intros ->. Qed.

Lemma push_all_growing o i vs :
  growing o i → growing (push_all o i vs) (i + N.of_nat (length vs)).
Proof.
  revert o i. induction vs as [|v vs IH]; intros o i Hg.
  { cbn. by rewrite N.add_0_r. }
  destruct (growing_step o i v Hg) as (o' & Hset & Hg').
  rewrite (push_all_cons _ _ _ _ _ Hset).
  replace (i + N.of_nat (length (v :: vs)))%N with (i + 1 + N.of_nat (length vs))%N
    by (cbn [length]; lia).
  by apply IH.
Qed.

(** Filling with [vs] and then with [ws] is filling with [vs ++ ws]. *)
Lemma push_all_app o i vs ws :
  growing o i →
  push_all o i (vs ++ ws) = push_all (push_all o i vs) (i + N.of_nat (length vs)) ws.
Proof.
  revert o i. induction vs as [|v vs IH]; intros o i Hg.
  { cbn. by rewrite N.add_0_r. }
  destruct (growing_step o i v Hg) as (o' & Hset & Hg').
  rewrite <- app_comm_cons, !(push_all_cons _ _ _ _ _ Hset). rewrite IH by done.
  f_equal. cbn [length]. lia.
Qed.

(** Within the bound on array indices the values are appended to the
    elements. *)
Lemma push_all_within o old vs :
  o_elems o = Some old → o_integrity o = Extensible →
  (N.of_nat (length old + length vs) ≤ max_array_index + 1)%N →
  push_all o (N.of_nat (length old)) vs = with_elems o (old ++ vs).
Proof.
  revert o old. induction vs as [|v vs IH]; intros o old E Hi Hlen.
  { cbn. by rewrite app_nil_r, with_elems_id. }
  cbn [length] in Hlen.
  rewrite (push_all_cons _ (with_elems o (old ++ [v]))) by (apply object_set_push; [done..|lia]).
  replace (N.of_nat (length old) + 1)%N with (N.of_nat (length (old ++ [v])))
    by (rewrite length_app; cbn; lia).
  rewrite (IH _ (old ++ [v])); [|done|done|rewrite length_app; cbn; lia].
  by rewrite with_elems_with_elems, <- app_assoc.
Qed.

(** *** Without the bound

    As many values as there are array indices left become elements; the
    others are stored all the same, as properties named by their position.
    Each value is read back under the key of its position. *)

Lemma push_all_elems o i old vs :
  growing o i → o_elems o = Some old →
  o_elems (push_all o i vs) = Some (old ++ take (N.to_nat (max_array_index + 1 - i)) vs).
Proof.
  revert o i old. induction vs as [|v vs IH]; intros o i old Hg E.
  { by rewrite take_nil, app_nil_r. }
  destruct (growing_step o i v Hg) as (o' & Hset & Hg').
  rewrite (push_all_cons _ _ _ _ _ Hset). destruct Hg as (Hi & vs0 & E0 & Hlen).
  rewrite E in E0. injection E0 as <-.
  destruct (decide (i ≤ max_array_index)%N) as [Hle|Hgt].
  - pose proof (Hlen Hle) as <-. rewrite object_set_push in Hset by done.
    injection Hset as <-. rewrite (IH _ _ (old ++ [v])) by done.
    replace (N.to_nat (max_array_index + 1 - N.of_nat (length old)))
      with (S (N.to_nat (max_array_index + 1 - (N.of_nat (length old) + 1)))) by lia.
    by rewrite firstn_cons, <- app_assoc.
  - rewrite (object_set_beyond _ _ _ _ E Hi) in Hset by lia. injection Hset as <-.
    rewrite (IH _ _ old) by done.
    by replace (max_array_index + 1 - (i + 1))%N with 0%N by lia;
      replace (max_array_index + 1 - i)%N with 0%N by lia.
Qed.

(** A key that is not written keeps what it held. *)
Lemma push_all_other o i vs k :
  growing o i → (∀ j, (i ≤ j)%N → key_of_index j ≠ k) →
  own_prop (push_all o i vs) k = own_prop o k.
Proof.
  revert o i. induction vs as [|v vs IH]; intros o i Hg Hk; [done|].
  destruct (growing_step o i v Hg) as (o' & Hset & Hg').
  rewrite (push_all_cons _ _ _ _ _ Hset), IH; [|done|intros j Hj; apply Hk; lia].
  apply (own_prop_set_ne _ _ _ _ _ Hset), Hk. lia.
Qed.

Lemma push_all_own_prop o i vs j v :
  growing o i → vs !! j = Some v →
  own_prop (push_all o i vs) (key_of_index (i + N.of_nat j)) = Some v.
Proof.
  revert o i j. induction vs as [|w vs IH]; intros o i j Hg Hj; [done|].
  destruct (growing_step o i w Hg) as (o' & Hset & Hg').
  rewrite (push_all_cons _ _ _ _ _ Hset). destruct j as [|j]; cbn in Hj.
  - injection Hj as ->. rewrite N.add_0_r, push_all_other; [|done|].
    + by eapply own_prop_set_eq.
    + intros j Hj E%(inj key_of_index). lia.
  - replace (i + N.of_nat (S j))%N with (i + 1 + N.of_nat j)%N by lia. by apply IH.
Qed.

Lemma object_wf_push_all h o i vs :
  object_wf h o → Forall (value_ok h) vs → growing o i → object_wf h (push_all o i vs).
Proof.
  revert o i. induction vs as [|v vs IH]; intros o i Hwf Hvs Hg; [done|].
  destruct (growing_step o i v Hg) as (o' & Hset & Hg').
  rewrite (push_all_cons _ _ _ _ _ Hset). apply Forall_cons in Hvs as [Hv Hvs].
  apply IH; [by eapply object_wf_set|done..].
Qed.

(** ** Summary: the write *)

(** C37.  Read after write.  When [[Set]] succeeds, the key written reads
    as the value written, every other key reads as before, and the object
    keeps its integrity level and its kind: a write never freezes, unfreezes
    or turns an object into an array. *)
Theorem object_set_read_back o k v o' :
  object_set o k v = SetOk o' →
  own_prop o' k = Some v
  ∧ (∀ k', k ≠ k' → own_prop o' k' = own_prop o k')
  ∧ o_integrity o' = o_integrity o
  ∧ is_array o' = is_array o.
Proof.
  intros Hset. split_and!.
  - by eapply own_prop_set_eq.
  - intros k' Hk'. by eapply own_prop_set_ne.
  - by eapply object_set_integrity.
  - by eapply object_set_is_array.
Qed.

(** A frozen object refuses every write: [[Set]] on it never returns
    an updated object, whatever the key and the value, whether the object
    is ordinary or an array. *)
Theorem frozen_object_rejects o k v :
  o_integrity o = Frozen →
  object_set o k v = SetFail ReadOnly ∨ object_set o k v = SetFail NotExtensible
  ∨ object_set o k v = SetOutside "array length".
Proof.
  intros Hf. unfold object_set, set_index, set_named. rewrite Hf.
  destruct (o_elems o) as [vs|], (index_of_key k), (has_prop (o_props o) k);
    repeat case_decide; auto.
Qed.

Lemma object_set_read_back_witness :
  let o := Obj (Some [VStr "x"]) [("a", VNum 1)] Sealed in
  let o' := Obj (Some [VStr "y"]) [("a", VNum 1)] Sealed in
  own_prop o' "0" = Some (VStr "y")
  ∧ (∀ k', "0" ≠ k' → own_prop o' k' = own_prop o k')
  ∧ o_integrity o' = o_integrity o
  ∧ is_array o' = is_array o.
Proof. intros o o'. by apply (object_set_read_back o "0" (VStr "y") o'). Defined.

Lemma frozen_object_rejects_witness :
  let o := Obj None [("a", VNum 1)] Frozen in
  object_set o "a" (VNum 2) = SetFail ReadOnly
  ∨ object_set o "a" (VNum 2) = SetFail NotExtensible
  ∨ object_set o "a" (VNum 2) = SetOutside "array length".
Proof. intros o. by apply (frozen_object_rejects o "a" (VNum 2)). Defined.

#[export] Hint Resolve growing_array_nil growing_length object_wf_push_all : js.
