(* ===== verification/Builtins.v ===== *)
(** * Builtins: the language operations [jest.config.js] calls

    Each operation is a computation of [exec state], written after the
    abstract operation of ECMAScript (or of Node, for [require]) that the
    source line performs:

    - [get_member v k]: the member read [v.k] of line 5;
    - [iterate v]: the values a spread element [...v] contributes (line 5);
    - [set_member strict l k v]: the [[Set]] of an assignment; a refused
      write raises [TypeError] when [strict] and is ignored otherwise;
    - [create_data_property] and [push_from]: how the object literal of
      lines 3 to 9 and the array literal of lines 4 to 8 fill the objects
      they allocate, one property at a time;
    - [object_assign target sources]: [Object.assign] of line 3;
    - [require request]: line 1, a read of the module cache.

    For each operation the file gives the equations of its runs, the
    preservation of [ok_state] on both exits ([hoare_...]) and its frame
    ([relates_...]): reads change nothing, a write changes one cell,
    [Object.assign] changes only its target.  The last section applies the
    theorems to a small store, [demo_store]. *)

From S2P Require Import Prelude Exec Props Heap Objects.

(** ** Reading *)

Definition get_member (v : value) (k : string) : exec state value :=
  match v with
  | VUndefined | VNull => throw (TypeError NullishBase)
  | VBool _ | VNum _ => mret VUndefined
  | VStr s => mret (string_get s k)
  | VRef l => o ← read_obj l; mret (object_get o k)
  end.

Definition iterate (v : value) : exec state (list value) :=
  match v with
  | VStr s => mret (chars s)
  | VRef l =>
      o ← read_obj l;
      match o_elems o with
      | Some vs => mret vs
      | None => throw (TypeError NotIterable)
      end
  | _ => throw (TypeError NotIterable)
  end.

(** ** Writing *)

Definition set_member (strict : bool) (l : loc) (k : string) (v : value) : exec state () :=
  o ← read_obj l;
  match object_set o k v with
  | SetOk o' => write_obj l o'
  | SetFail why => if strict then throw (TypeError why) else mret ()
  | SetOutside what => throw (OutOfFragment what)
  end.

(** [CreateDataPropertyOrThrow] on the object a literal has just created:
    on a data property of an ordinary object it is the strict [[Set]]. *)
Definition create_data_property (l : loc) (k : string) (v : value) : exec state () :=
  set_member true l k v.

(** The accumulation of an array literal: store [vs] at the indices from
    [i] on and return the next index. *)
Fixpoint push_from (a : loc) (i : N) (vs : list value) : exec state N :=
  match vs with
  | [] => mret i
  | v :: vs' => create_data_property a (key_of_index i) v ;; push_from a (i + 1)%N vs'
  end.

(** ** [Object.assign] *)

(** [ToObject] of the target.  A primitive target would be wrapped in a
    new object, which the model does not represent. *)
Definition to_object (v : value) : exec state loc :=
  match v with
  | VUndefined | VNull => throw (TypeError NullishTarget)
  | VRef l => mret l
  | _ => throw (OutOfFragment "wrapper object")
  end.

(** Copy the property [k] of [from], as it is now, to [to]. *)
Definition copy_prop (to from : loc) (k : string) : exec state () :=
  o ← read_obj from;
  match own_prop o k with
  | Some v => set_member true to k v
  | None => mret ()
  end.

(** Copy the own enumerable properties of one source: the keys are taken
    first, each value is read when its turn comes.  [undefined] and [null]
    are skipped; a number or a boolean has no own property; a string has its
    characters. *)
Definition assign_from (to : loc) (src : value) : exec state () :=
  match src with
  | VRef from => o ← read_obj from; for_each (copy_prop to from) (own_keys o)
  | VStr s =>
      for_each (λ kv, set_member true to kv.1 kv.2)
        (zip (index_keys (length (chars s))) (chars s))
  | _ => mret ()
  end.

Definition object_assign (target : value) (sources : list value) : exec state value :=
  to ← to_object target;
  for_each (assign_from to) sources;;
  mret (VRef to).

(** ** [require] *)

Definition require (request : string) : exec state value :=
  m ← gets (λ s, st_modules s !! request) ≫= lift_opt (ModuleNotFound request);
  get_member (VRef m) "exports".

(** ** Runs: reading *)

Lemma run_get_member_nullish v k s :
  v = VUndefined ∨ v = VNull →
  ⟨ get_member v k, s ⟩ ⇑ ⟨ TypeError NullishBase, s ⟩.
Proof. by intros [->| ->]. Qed.

Lemma run_get_member_ref l k s o :
  st_heap s !! l = Some o →
  ⟨ get_member (VRef l) k, s ⟩ ⇓ ⟨ object_get o k, s ⟩.
Proof. intros Hl. cbn. by run_read Hl. Qed.

Lemma run_iterate_array l s o vs :
  st_heap s !! l = Some o → o_elems o = Some vs →
  ⟨ iterate (VRef l), s ⟩ ⇓ ⟨ vs, s ⟩.
Proof.
  intros Hl E. cbn. run_read Hl.
  by rewrite E.
Qed.

Lemma run_iterate_plain l s o :
  st_heap s !! l = Some o → o_elems o = None →
  ⟨ iterate (VRef l), s ⟩ ⇑ ⟨ TypeError NotIterable, s ⟩.
Proof.
  intros Hl E. cbn. run_read Hl.
  by rewrite E.
Qed.

Lemma run_iterate_primitive v s :
  match v with VStr _ | VRef _ => False | _ => True end →
  ⟨ iterate v, s ⟩ ⇑ ⟨ TypeError NotIterable, s ⟩.
Proof. by destruct v. Qed.

(** Reads leave the store as it is, whatever they return. *)
Lemma get_member_final v k s : final (get_member v k) s = s.
Proof.
  destruct v as [| | | | |l]; try done. unfold final. cbn.
  destruct (st_heap s !! l) as [o|] eqn:E.
  - by run_read E.
  - by run_read E.
Qed.

Lemma iterate_final v s : final (iterate v) s = s.
Proof.
  destruct v as [| | | | |l]; try done. unfold final. cbn.
  destruct (st_heap s !! l) as [o|] eqn:E.
  - run_read E.
    by destruct (o_elems o).
  - by run_read E.
Qed.

(** ** Runs: writing *)

Lemma run_set_member_ok strict l k v s o o' :
  st_heap s !! l = Some o → object_set o k v = SetOk o' →
  ⟨ set_member strict l k v, s ⟩ ⇓ ⟨ (), with_heap s (<[l:=o']> (st_heap s)) ⟩.
Proof.
  intros Hl Hset. unfold set_member.
  run_read Hl. by rewrite Hset.
Qed.

Lemma run_set_member_fail_strict l k v s o why :
  st_heap s !! l = Some o → object_set o k v = SetFail why →
  ⟨ set_member true l k v, s ⟩ ⇑ ⟨ TypeError why, s ⟩.
Proof.
  intros Hl Hset. unfold set_member.
  run_read Hl. by rewrite Hset.
Qed.

Lemma run_set_member_fail_sloppy l k v s o why :
  st_heap s !! l = Some o → object_set o k v = SetFail why →
  ⟨ set_member false l k v, s ⟩ ⇓ ⟨ (), s ⟩.
Proof.
  intros Hl Hset. unfold set_member.
  run_read Hl. by rewrite Hset.
Qed.

(** A write that is not strict, under an ordinary name, to an object that
    exists: it returns, whether the object takes the write or not. *)
Lemma result_set_member_sloppy l k v s :
  is_Some (st_heap s !! l) → named_key_ok k →
  result (set_member false l k v) s = Return ().
Proof.
  intros [o Ho] Hk. unfold result, set_member.
  run_read Ho.
  destruct (object_set o k v) as [o'|why|what] eqn:Hset; [done..|].
  by destruct (object_set_named_inside _ _ _ _ Hk Hset).
Qed.

(** A write that completes has stored what [[Set]] answers, or it was
    refused and not strict. *)
Lemma set_member_returns strict l k v s s' :
  set_member strict l k v s = (Return (), s') →
  s' = s ∨ ∃ o o', st_heap s !! l = Some o ∧ object_set o k v = SetOk o'
                 ∧ s' = with_heap s (<[l:=o']> (st_heap s)).
Proof.
  intros E. unfold set_member in E.
  destruct (st_heap s !! l) as [o|] eqn:Hl; run_read Hl in E; [|done].
  destruct (object_set o k v) as [o'|why|what] eqn:Hset.
  - rewrite run_write_obj in E. injection E as <-. right. by exists o, o'.
  - destruct strict; [done|]. rewrite run_ret in E. left. by injection E.
  - done.
Qed.

(** [push_from] fills the array as [push_all] says and never raises. *)
Lemma run_push_from_all a i vs s o :
  st_heap s !! a = Some o → growing o i →
  push_from a i vs s
  = (Return (i + N.of_nat (length vs))%N,
     with_heap s (<[a:=push_all o i vs]> (st_heap s))).
Proof.
  revert s o i. induction vs as [|v vs IH]; intros s o i Ha Hg.
  { cbn. by rewrite N.add_0_r, with_heap_insert_id. }
  destruct (growing_step o i v Hg) as (o' & Hset & Hg').
  cbn [push_from]. unfold create_data_property.
  run_step (run_set_member_ok _ _ _ _ _ _ _ Ha Hset).
  rewrite (IH _ o') by (done || by cbn; rewrite lookup_insert_eq).
  cbn. rewrite insert_insert_eq, Hset. do 2 f_equal. lia.
Qed.

(** ** Runs: [Object.assign] from one literal and [require] *)

(** The source is an ordinary object with the single named property [k]:
    [Object.assign] performs one strict [[Set]] on the target. *)
Lemma run_assign_from_single to from k v s :
  st_heap s !! from = Some (plain_object [(k, v)]) → index_of_key k = None →
  assign_from to (VRef from) s = set_member true to k v s.
Proof.
  intros Hfrom Hk. cbn [assign_from].
  run_read Hfrom.
  unfold own_keys. cbn [o_elems plain_object o_props prop_keys fmap list_fmap fst].
  rewrite ordered_keys_named by (by repeat constructor).
  cbn [for_each]. rewrite run_bind. unfold copy_prop.
  run_read Hfrom.
  rewrite own_prop_plain by done. cbn [o_props plain_object prop_get].
  rewrite decide_True by done.
  by destruct (set_member true to k v s) as [[[]|e] s'].
Qed.

Lemma run_object_assign_single to from k v s :
  st_heap s !! from = Some (plain_object [(k, v)]) → index_of_key k = None →
  object_assign (VRef to) [VRef from] s
  = match set_member true to k v s with
    | (Return _, s') => (Return (VRef to), s')
    | (Throw e, s') => (Throw e, s')
    end.
Proof.
  intros Hfrom Hk. unfold object_assign. cbn [to_object].
  rewrite run_bind, run_ret. cbn [for_each]. rewrite !run_bind.
  rewrite (run_assign_from_single _ _ _ _ _ Hfrom Hk).
  by destruct (set_member true to k v s) as [[[]|e] s'].
Qed.

Lemma run_object_assign_nullish v sources s :
  v = VUndefined ∨ v = VNull →
  ⟨ object_assign v sources, s ⟩ ⇑ ⟨ TypeError NullishTarget, s ⟩.
Proof. by intros [->| ->]. Qed.

Lemma run_require request s m o :
  st_modules s !! request = Some m → st_heap s !! m = Some o →
  ⟨ require request, s ⟩ ⇓ ⟨ object_get o "exports", s ⟩.
Proof.
  intros Hm Ho. unfold require. run_simpl. rewrite Hm. cbn.
  by run_read Ho.
Qed.

Lemma run_require_missing request s :
  st_modules s !! request = None →
  ⟨ require request, s ⟩ ⇑ ⟨ ModuleNotFound request, s ⟩.
Proof. intros Hm. unfold require. run_simpl. by rewrite Hm. Qed.

(** A [require] that returns has found the module in the cache and read its
    [exports]; the store is as it was. *)
Lemma run_require_inv request s v s' :
  require request s = (Return v, s') →
  s' = s ∧ ∃ m o, st_modules s !! request = Some m ∧ st_heap s !! m = Some o
                  ∧ v = object_get o "exports".
Proof.
  unfold require. run_simpl.
  destruct (st_modules s !! request) as [m|] eqn:Hm; [|done]. cbn [lift_opt].
  rewrite run_ret. cbn [get_member]. destruct (st_heap s !! m) as [o|] eqn:Ho.
  - run_read Ho. rewrite run_ret.
    intros [= <- <-]. eauto 10.
  - by run_read Ho.
Qed.

Lemma require_final request s : final (require request) s = s.
Proof.
  unfold require. rewrite final_bind, run_bind, run_gets.
  destruct (st_modules s !! request) as [m|]; [|done].
  cbn [lift_opt]. rewrite run_ret. apply get_member_final.
Qed.

(** ** Preservation of [ok_state]

    [keep] is the list of values the caller holds; each operation keeps the
    store well formed and those values valid, on both exits, and what it
    returns is valid too. *)

Section preservation.
Context (keep : list value).

Lemma ok_state_write s l o :
  ok_state keep s → is_Some (st_heap s !! l) → object_wf (st_heap s) o →
  ok_state keep (with_heap s (<[l:=o]> (st_heap s))).
Proof.
  intros Hok Hl Ho. eapply ok_state_grow; [done| |apply dom_insert_subseteq].
  apply state_wf_with_heap; [apply Hok| |apply dom_insert_subseteq].
  apply heap_wf_insert; [apply Hok|]. eapply object_wf_mono; [|done].
  apply dom_insert_subseteq.
Qed.

Lemma hoare_alloc_closed o :
  (∀ h, object_wf h o) →
  hoare (ok_state keep) (alloc o)
    (λ l s, ok_state (VRef l :: keep) s ∧ st_heap s !! l = Some o) (λ _ _, False).
Proof.
  intros Ho s Hok. rewrite run_alloc. cbn. split; [|by rewrite lookup_insert_eq].
  apply ok_state_cons; [|apply value_ok_ref_insert].
  eapply ok_state_grow; [done| |apply dom_insert_subseteq].
  apply state_wf_with_heap; [apply Hok| |apply dom_insert_subseteq].
  apply heap_wf_alloc; [apply Hok|apply Ho].
Qed.

Lemma hoare_get_member v k :
  v ∈ keep →
  hoare (ok_state keep) (get_member v k)
    (λ r s, ok_state (r :: keep) s) (λ e s, ok_state keep s ∧ e = TypeError NullishBase).
Proof.
  intros Hv s Hok. destruct v as [| | | |str|l]; cbn; try done;
    try by apply ok_state_cons.
  - apply ok_state_cons; [done|apply string_get_ok].
  - destruct (ok_state_lookup _ _ _ Hok Hv) as (o & Hl & Ho).
    run_read Hl. cbn.
    apply ok_state_cons; [done|by apply object_get_ok].
Qed.

Lemma hoare_iterate v :
  v ∈ keep →
  hoare (ok_state keep) (iterate v)
    (λ vs s, ok_state (vs ++ keep) s) (λ e s, ok_state keep s ∧ e = TypeError NotIterable).
Proof.
  intros Hv s Hok. destruct v as [| | | |str|l]; cbn; try done.
  - apply ok_state_app; [done|apply chars_ok].
  - destruct (ok_state_lookup _ _ _ Hok Hv) as (o & Hl & Ho).
    run_read Hl.
    destruct (o_elems o) as [vs|] eqn:E; cbn; [|done].
    apply ok_state_app; [done|by eapply object_wf_elems].
Qed.

(** A write keeps the store well formed.  When it raises, the exception is
    a [TypeError] of strict code unless the key falls outside the model,
    which an ordinary name never does. *)
Lemma hoare_set_member strict l k v :
  VRef l ∈ keep → v ∈ keep →
  hoare (ok_state keep) (set_member strict l k v)
    (λ _ s, ok_state keep s)
    (λ e s, ok_state keep s ∧ (named_key_ok k → strict = true ∧ is_js_exception e = true)).
Proof.
  intros Hl Hv s Hok. unfold set_member.
  destruct (ok_state_lookup _ _ _ Hok Hl) as (o & Ho & Hwf).
  run_read Ho.
  destruct (object_set o k v) as [o'|why|what] eqn:Hset.
  - rewrite run_write_obj. apply ok_state_write; [done..|].
    eapply object_wf_set; [done| |done]. by eapply ok_state_elem.
  - destruct strict; cbn; [|done]. by split.
  - cbn. split; [done|]. intros Hk. by destruct (object_set_named_inside _ _ _ _ Hk Hset).
Qed.

Lemma hoare_to_object v :
  v ∈ keep →
  hoare (ok_state keep) (to_object v)
    (λ l s, ok_state keep s ∧ v = VRef l) (λ e s, ok_state keep s).
Proof. intros Hv s Hok. by destruct v. Qed.

(** *** The operations that raise

    From a well-formed store, what an exception of a read, of a spread or
    of a copy says of the value it was applied to; the store is as it was. *)

Lemma get_member_raises v k s e s' :
  ok_state keep s → v ∈ keep → get_member v k s = (Throw e, s') →
  s' = s ∧ e = TypeError NullishBase ∧ (v = VUndefined ∨ v = VNull).
Proof.
  intros Hok Hv E. pose proof (get_member_final v k s) as Hs. unfold final in Hs.
  pose proof (hoare_get_member v k Hv s Hok) as Hg. rewrite E in Hs, Hg.
  destruct Hg as [_ ->]. split_and!; [done..|].
  destruct v as [| | | | |l]; auto; cbn [get_member] in E; rewrite ?run_ret in E; try done.
  destruct (ok_state_lookup _ _ _ Hok Hv) as (o & Hl & _). run_read Hl in E.
  by rewrite run_ret in E.
Qed.

Lemma iterate_raises v s e s' :
  ok_state keep s → v ∈ keep → iterate v s = (Throw e, s') →
  s' = s ∧ e = TypeError NotIterable ∧ (∀ str, v ≠ VStr str)
  ∧ ∀ l o, v = VRef l → st_heap s !! l = Some o → o_elems o = None.
Proof.
  intros Hok Hv E. pose proof (iterate_final v s) as Hs. unfold final in Hs.
  pose proof (hoare_iterate v Hv s Hok) as Hi. rewrite E in Hs, Hi.
  destruct Hi as [_ ->]. split_and!; [done..| |].
  - by intros str ->.
  - intros l o -> Hl. cbn [iterate] in E. run_read Hl in E.
    destruct (o_elems o); [by rewrite run_ret in E|done].
Qed.

Lemma set_member_raises l k v s e s' :
  named_key_ok k → set_member true l k v s = (Throw e, s') → is_Some (st_heap s !! l) →
  s' = s ∧ (e = TypeError ReadOnly ∨ e = TypeError NotExtensible)
  ∧ ∃ o, st_heap s !! l = Some o ∧ o_integrity o ≠ Extensible.
Proof.
  intros Hk E [o Hl]. unfold set_member in E. run_read Hl in E.
  destruct (object_set o k v) as [o'|why|what] eqn:Hset.
  - by rewrite run_write_obj in E.
  - destruct (object_set_fail _ _ _ _ Hset) as [Hi Hwhy]. rewrite run_throw in E.
    injection E as <- <-. split_and!; [done| |by exists o].
    by destruct Hwhy as [-> | ->]; [left|right].
  - by destruct (object_set_named_inside _ _ _ _ Hk Hset).
Qed.

Lemma copy_prop_raises to from k s e s' :
  ok_state keep s → VRef to ∈ keep → VRef from ∈ keep → named_key_ok k →
  copy_prop to from k s = (Throw e, s') →
  s' = s ∧ (e = TypeError ReadOnly ∨ e = TypeError NotExtensible)
  ∧ ∃ o, st_heap s !! to = Some o ∧ o_integrity o ≠ Extensible.
Proof.
  intros Hok Hto Hfrom Hk E. unfold copy_prop in E.
  destruct (ok_state_lookup _ _ _ Hok Hfrom) as (o & Ho & _). run_read Ho in E.
  destruct (own_prop o k) as [v|]; [|by rewrite run_ret in E].
  apply (set_member_raises _ _ _ _ _ _ Hk E).
  destruct (ok_state_lookup _ _ _ Hok Hto) as (ot & Hot & _). by exists ot.
Qed.

(** When the target has the property already, the write is refused because
    the target is frozen. *)
Lemma set_member_raises_present l k v s e s' o :
  named_key_ok k → st_heap s !! l = Some o → is_Some (own_prop o k) →
  set_member true l k v s = (Throw e, s') →
  e = TypeError ReadOnly ∧ o_integrity o = Frozen.
Proof.
  intros Hk Hl Hp E. unfold set_member in E. run_read Hl in E.
  destruct (object_set o k v) as [o'|why|what] eqn:Hset.
  - by rewrite run_write_obj in E.
  - destruct (object_set_fail_present _ _ _ _ Hk Hp Hset) as [-> Hf].
    rewrite run_throw in E. by injection E as <- _.
  - by destruct (object_set_named_inside _ _ _ _ Hk Hset).
Qed.

Lemma copy_prop_raises_present to from k s e s' o :
  ok_state keep s → VRef from ∈ keep → named_key_ok k →
  st_heap s !! to = Some o → is_Some (own_prop o k) →
  copy_prop to from k s = (Throw e, s') →
  e = TypeError ReadOnly ∧ o_integrity o = Frozen.
Proof.
  intros Hok Hfrom Hk Hto Hp E. unfold copy_prop in E.
  destruct (ok_state_lookup _ _ _ Hok Hfrom) as (src & Ho & _). run_read Ho in E.
  destruct (own_prop src k) as [v|]; [|by rewrite run_ret in E].
  by eapply set_member_raises_present.
Qed.

End preservation.

(** ** Preservation of [ok_state] by [Object.assign] *)

Section assign_preservation.
Context (keep : list value) (to : loc).
Context (Hto : VRef to ∈ keep).

(** A strict write of a valid value. *)
Lemma hoare_set_valid k v :
  hoare (λ s, ok_state keep s ∧ value_ok (st_heap s) v) (set_member true to k v)
    (λ _, ok_state keep) (λ _, ok_state keep).
Proof.
  intros s [Hok Hv].
  pose proof (hoare_set_member (v :: keep) true to k v ltac:(set_solver)
                ltac:(set_solver) s (ok_state_cons _ _ _ Hok Hv)) as Hs.
  destruct (set_member true to k v s) as [[[]|e] s']; [|destruct Hs as [Hs _]];
    (eapply ok_state_weaken; [|done]); by apply list_subseteq_cons.
Qed.

Lemma hoare_copy_prop from k :
  VRef from ∈ keep →
  hoare (ok_state keep) (copy_prop to from k) (λ _, ok_state keep) (λ _, ok_state keep).
Proof.
  intros Hfrom s Hok. unfold copy_prop.
  destruct (ok_state_lookup _ _ _ Hok Hfrom) as (o & Ho & Hwf).
  run_read Ho.
  destruct (own_prop o k) as [v|] eqn:Hv; [|done].
  apply hoare_set_valid. split; [done|by eapply own_prop_ok].
Qed.

Lemma hoare_assign_from src :
  src ∈ keep →
  hoare (ok_state keep) (assign_from to src) (λ _, ok_state keep) (λ _, ok_state keep).
Proof.
  intros Hsrc. destruct src as [| | | |str|from]; try by intros s.
  - apply hoare_for_each. intros [k v] Hkv. eapply hoare_conseq; [apply hoare_set_valid|..];
      try done.
    intros s Hok. split; [done|].
    apply elem_of_zip_r in Hkv. by eapply Forall_elem; [apply chars_ok|].
  - intros s Hok. cbn [assign_from].
    destruct (ok_state_lookup _ _ _ Hok Hsrc) as (o & Ho & Hwf).
    run_read Ho.
    by apply (hoare_for_each (ok_state keep)); [intros k _; apply hoare_copy_prop|].
Qed.

End assign_preservation.

Lemma hoare_object_assign keep target sources :
  target ∈ keep → Forall (.∈ keep) sources →
  hoare (ok_state keep) (object_assign target sources)
    (λ v s, ok_state keep s ∧ v = target) (λ _, ok_state keep).
Proof.
  intros Ht Hs. unfold object_assign.
  eapply hoare_bind; [by apply hoare_to_object|]. intros l s [Hok ->].
  assert (hoare (ok_state keep) (for_each (assign_from l) sources)
            (λ _, ok_state keep) (λ _, ok_state keep)) as Hf.
  { apply hoare_for_each. intros src Hsrc. apply hoare_assign_from; [done|].
    by apply (Forall_elem (.∈ keep) sources). }
  rewrite run_bind. specialize (Hf s Hok).
  by destruct (for_each (assign_from l) sources s) as [[[]|e] s'].
Qed.

(** ** Reads and allocation

    A read that succeeds, or that fails with a JavaScript exception, gives
    the same answer in every store that has kept the cells of the first. *)

Lemma run_read_obj_frame M l s s' o :
  frame M s s' → l ∉ M → st_heap s !! l = Some o → read_obj l s' = (Return o, s').
Proof. intros Hf Hl Ho. apply run_read_obj. by eapply frame_lookup. Qed.

Lemma get_member_frame v k s s' r :
  frame ∅ s s' → is_js_exception_outcome r = true →
  get_member v k s = (r, s) → get_member v k s' = (r, s').
Proof.
  intros Hf Hr. destruct v as [| | | | |l]; cbn; try by intros [= <-].
  destruct (st_heap s !! l) as [o|] eqn:Hl.
  - run_read Hl.
    run_step (run_read_obj_frame ∅ _ _ _ _ Hf (not_elem_of_empty _) Hl).
    cbn. by intros [= <-].
  - run_read Hl.
    intros [= <-]. done.
Qed.

Lemma iterate_frame v s s' r :
  frame ∅ s s' → is_js_exception_outcome r = true →
  iterate v s = (r, s) → iterate v s' = (r, s').
Proof.
  intros Hf Hr. destruct v as [| | | | |l]; cbn; try by intros [= <-].
  destruct (st_heap s !! l) as [o|] eqn:Hl.
  - run_read Hl.
    run_step (run_read_obj_frame ∅ _ _ _ _ Hf (not_elem_of_empty _) Hl).
    destruct (o_elems o); cbn; by intros [= <-].
  - run_read Hl.
    intros [= <-]. done.
Qed.

(** ** Frames of the operations

    What an operation may change, whatever its outcome: reads and [require]
    change nothing, a write changes the cell it writes, and [Object.assign]
    changes its target only. *)

Lemma relates_of_final {A} (R : relation state) `{!Reflexive R} (m : exec state A) :
  (∀ s, final m s = s) → relates R m.
Proof. intros Hm s. by rewrite Hm. Qed.

Lemma relates_read_obj M l : relates (frame M) (read_obj l).
Proof.
  apply relates_bind; [apply _|apply relates_gets; apply _|].
  intros o. apply relates_lift_opt; apply _.
Qed.

Lemma relates_get_member M v k : relates (frame M) (get_member v k).
Proof. apply relates_of_final; [apply _|]. apply get_member_final. Qed.

Lemma relates_iterate M v : relates (frame M) (iterate v).
Proof. apply relates_of_final; [apply _|]. apply iterate_final. Qed.

Lemma relates_require M request : relates (frame M) (require request).
Proof. apply relates_of_final; [apply _|]. apply require_final. Qed.

Lemma relates_alloc M o : relates (frame M) (alloc o).
Proof. intros s. eapply frame_mono; [|apply frame_alloc]. set_solver. Qed.

Lemma relates_set_member M strict l k v :
  l ∈ M → relates (frame M) (set_member strict l k v).
Proof.
  intros Hl. apply relates_bind; [apply _|apply relates_read_obj|]. intros o.
  destruct (object_set o k v) as [o'|why|what].
  - intros s. eapply frame_mono; [|apply frame_write]. set_solver.
  - destruct strict; [apply relates_throw|apply relates_ret]; apply _.
  - apply relates_throw; apply _.
Qed.

Lemma relates_push_from M a i vs : a ∈ M → relates (frame M) (push_from a i vs).
Proof.
  intros Ha. revert i. induction vs as [|v vs IH]; intros i.
  - apply relates_ret; apply _.
  - apply relates_bind; [apply _|by apply relates_set_member|]. intros _. apply IH.
Qed.

Lemma relates_copy_prop M to from k : to ∈ M → relates (frame M) (copy_prop to from k).
Proof.
  intros Hto. apply relates_bind; [apply _|apply relates_read_obj|]. intros o.
  destruct (own_prop o k); [by apply relates_set_member|apply relates_ret; apply _].
Qed.

Lemma relates_assign_from M to src : to ∈ M → relates (frame M) (assign_from to src).
Proof.
  intros Hto. destruct src; try (apply relates_ret; apply _).
  - apply relates_for_each; [apply _|]. intros [k v] _. by apply relates_set_member.
  - apply relates_bind; [apply _|apply relates_read_obj|]. intros o.
    apply relates_for_each; [apply _|]. intros k _. by apply relates_copy_prop.
Qed.

(** The cells that a value designates: one for a reference. *)
Definition cells_of (v : value) : gset loc :=
  match v with VRef l => {[l]} | _ => ∅ end.

(** C34.  [Object.assign] changes its target and nothing else: whatever the
    sources are, and whether it returns or raises, the module cache is
    unchanged, no object is lost and every object other than the target is
    as it was. *)
Theorem object_assign_frame target sources :
  relates (frame (cells_of target)) (object_assign target sources).
Proof.
  destruct target as [| | | | |t]; try by intros ?.
  unfold object_assign. cbn [to_object]. rewrite exec_bind_ret_l.
  apply relates_bind; [apply _| |intros _; apply (relates_ret _ (VRef t))].
  apply relates_for_each; [apply _|]. intros src _.
  apply relates_assign_from. set_solver.
Qed.


(** C36.  The accumulation of an array literal appends.  On an extensible
    array with elements [old], storing [vs] from index [length old] on
    returns the new length and leaves the array with elements [old ++ vs],
    provided the new length is at most 2^32 - 1, the largest length of an
    array; the rest of the store is unchanged. *)
Theorem push_from_appends a vs s o old :
  st_heap s !! a = Some o → o_elems o = Some old → o_integrity o = Extensible →
  (N.of_nat (length old + length vs) ≤ max_array_index + 1)%N →
  push_from a (N.of_nat (length old)) vs s
  = (Return (N.of_nat (length old + length vs)),
     with_heap s (<[a:=with_elems o (old ++ vs)]> (st_heap s))).
Proof.
  intros Ha E Hi Hlen.
  rewrite (run_push_from_all _ _ _ _ o) by (done || by apply growing_length).
  rewrite push_all_within by done. do 2 f_equal. lia.
Qed.

(** ** Instances on a small store *)

(** An object [{a: 1}] at 1 and an array [['x']] at 2. *)
Definition demo_store : state :=
  State {[ 1%positive := plain_object [("a", VNum 1)];
           2%positive := array_object [VStr "x"] ]} ∅.


Lemma push_from_appends_witness :
  push_from 2%positive 1 [VStr "y"; VStr "z"] demo_store
  = (Return 3%N,
     with_heap demo_store
       (<[2%positive:=array_object [VStr "x"; VStr "y"; VStr "z"]]> (st_heap demo_store))).
Proof.
  apply (push_from_appends 2%positive [VStr "y"; VStr "z"] demo_store
           (array_object [VStr "x"]) [VStr "x"]); by vm_compute.
Defined.
