(* ===== verification/Assign.v ===== *)
(** * Assign: [Object.assign] on ordinary objects is a union of maps

    [Builtins.object_assign] copies property after property, reading the
    source and writing the target through the heap each time.  For the
    common case (an extensible ordinary target, ordinary sources other than
    the target, as in [jest.config.js]) this file gives the result in closed
    form and relates it to finite maps:

    - [assign_props tgt src]: the property table of the target after one
      source, as a fold of [prop_set] over the keys of the source in
      enumeration order;
    - the run of [object_assign] writes [assign_all] of the tables into the
      target and changes nothing else;
    - as maps, the result is the union of the sources and the target in
      which a later source prevails over an earlier one and every source
      over the target. *)

From S2P Require Import Prelude Exec Props Heap Objects Builtins.

(** ** The closed form *)

Definition copy_into (src ps : list (string * value)) (k : string) : list (string * value) :=
  match prop_get src k with
  | Some v => prop_set ps k v
  | None => ps
  end.

Definition assign_props (tgt src : list (string * value)) : list (string * value) :=
  foldl (copy_into src) tgt (ordered_keys (prop_keys src)).

Definition assign_all (tgt : list (string * value)) (srcs : list (list (string * value))) :
    list (string * value) :=
  foldl assign_props tgt srcs.

(** The union of maps it implements: each source over what came before. *)
Definition union_all (tgt : gmap string value) (srcs : list (gmap string value)) :
    gmap string value :=
  foldl (λ acc src, src ∪ acc) tgt srcs.

(** ** The closed form as a map *)

Lemma prop_get_copy_into src ps k0 k :
  prop_get (copy_into src ps k0) k
  = if decide (k = k0) then from_option Some (prop_get ps k) (prop_get src k)
    else prop_get ps k.
Proof.
  unfold copy_into. destruct (prop_get src k0) as [v|] eqn:Hk0.
  - rewrite prop_get_set. case_decide as E1; case_decide as E2; subst; try done.
    by rewrite Hk0.
  - case_decide; [subst; by rewrite Hk0|done].
Qed.

Lemma prop_get_foldl_copy src tgt ks k :
  prop_get (foldl (copy_into src) tgt ks) k
  = if decide (k ∈ ks) then from_option Some (prop_get tgt k) (prop_get src k)
    else prop_get tgt k.
Proof.
  revert tgt. induction ks as [|k0 ks IH]; intros tgt; cbn [foldl].
  { by rewrite decide_False by apply not_elem_of_nil. }
  rewrite IH, prop_get_copy_into.
  destruct (decide (k = k0)) as [->|Hne].
  - rewrite (decide_True (P := k0 ∈ k0 :: ks)) by left.
    case_decide; [|done]. by destruct (prop_get src k0).
  - case_decide as Hin.
    + by rewrite decide_True by (by right).
    + rewrite decide_False; [done|]. by intros [?|?]%elem_of_cons.
Qed.

Lemma prop_get_assign_props tgt src k :
  prop_get (assign_props tgt src) k = from_option Some (prop_get tgt k) (prop_get src k).
Proof.
  unfold assign_props. rewrite prop_get_foldl_copy. case_decide as Hin; [done|].
  rewrite elem_of_ordered_keys, <- prop_get_is_Some in Hin.
  by destruct (prop_get src k) as [v|]; [destruct Hin; eexists|].
Qed.

Lemma to_map_assign_props tgt src :
  to_map (assign_props tgt src) = to_map src ∪ to_map tgt.
Proof.
  apply map_eq. intros k. rewrite lookup_union, <- !prop_get_to_map.
  rewrite prop_get_assign_props. by destruct (prop_get src k), (prop_get tgt k).
Qed.

Lemma to_map_assign_all tgt srcs :
  to_map (assign_all tgt srcs) = union_all (to_map tgt) (to_map <$> srcs).
Proof.
  unfold assign_all, union_all. revert tgt.
  induction srcs as [|src srcs IH]; intros tgt; [done|].
  cbn [foldl fmap list_fmap]. by rewrite IH, to_map_assign_props.
Qed.

(** ** The run on ordinary objects *)

Section run.
Context (to from : loc) (osrc : object).
Context (Hne : to ≠ from) (Hsrc : o_elems osrc = None).

(** Copying the keys [ks] of the source, one after the other. *)
Lemma run_copy_props ks s ot :
  st_heap s !! to = Some ot → st_heap s !! from = Some osrc →
  o_elems ot = None → o_integrity ot = Extensible →
  for_each (copy_prop to from) ks s
  = (Return (),
     with_heap s (<[to:=with_props ot (foldl (copy_into (o_props osrc)) (o_props ot) ks)]>
                    (st_heap s))).
Proof.
  revert s ot. induction ks as [|k ks IH]; intros s ot Hto Hfrom Hpl Hext.
  { cbn. by rewrite with_props_id, with_heap_insert_id. }
  cbn [for_each foldl]. rewrite run_bind. unfold copy_prop at 1.
  run_read Hfrom.
  rewrite own_prop_plain by done. unfold copy_into at 2.
  destruct (prop_get (o_props osrc) k) as [v|] eqn:Hk.
  - rewrite (run_set_member_ok true to k v s ot
               (with_props ot (prop_set (o_props ot) k v)) Hto)
      by (rewrite object_set_plain by done; by apply set_named_extensible).
    rewrite (IH _ (with_props ot (prop_set (o_props ot) k v))); cbn.
    + by rewrite insert_insert_eq.
    + by rewrite lookup_insert_eq.
    + by rewrite lookup_insert_ne.
    + done.
    + done.
  - rewrite run_ret. by apply IH.
Qed.

Lemma run_assign_from_plain s ot :
  st_heap s !! to = Some ot → st_heap s !! from = Some osrc →
  o_elems ot = None → o_integrity ot = Extensible →
  assign_from to (VRef from) s
  = (Return (),
     with_heap s (<[to:=with_props ot (assign_props (o_props ot) (o_props osrc))]>
                    (st_heap s))).
Proof.
  intros Hto Hfrom Hpl Hext. cbn [assign_from].
  run_read Hfrom.
  rewrite own_keys_plain by done. by apply run_copy_props.
Qed.

End run.

(** [plain_sources to s srcs]: the sources, given with the objects they
    hold in [s], are ordinary objects other than the target. *)
Definition plain_sources (to : loc) (s : state) (srcs : list (loc * object)) : Prop :=
  Forall (λ lo, lo.1 ≠ to ∧ st_heap s !! lo.1 = Some lo.2 ∧ o_elems lo.2 = None) srcs.

#[export] Instance plain_sources_dec to s srcs : Decision (plain_sources to s srcs).
Proof. unfold plain_sources. apply _. Defined.

Lemma plain_sources_write to s srcs o :
  plain_sources to s srcs → plain_sources to (with_heap s (<[to:=o]> (st_heap s))) srcs.
Proof.
  intros Hsrcs. eapply Forall_impl; [done|].
  intros [l osrc] (Hne & Hl & Hpl). split_and!; [done| |done].
  cbn. by rewrite lookup_insert_ne.
Qed.

Lemma run_assign_all to srcs s ot :
  st_heap s !! to = Some ot → o_elems ot = None → o_integrity ot = Extensible →
  plain_sources to s srcs →
  for_each (assign_from to) ((λ lo, VRef lo.1) <$> srcs) s
  = (Return (),
     with_heap s (<[to:=with_props ot (assign_all (o_props ot) ((λ lo, o_props lo.2) <$> srcs))]>
                    (st_heap s))).
Proof.
  revert s ot. induction srcs as [|[l osrc] srcs IH]; intros s ot Hto Hpl Hext Hsrcs.
  { cbn. by rewrite with_props_id, with_heap_insert_id. }
  apply Forall_cons in Hsrcs as [(Hne & Hl & Hsrc) Hsrcs]. cbn in Hne, Hl, Hsrc.
  cbn [fmap list_fmap for_each fst snd]. rewrite run_bind.
  rewrite (run_assign_from_plain to l osrc (not_eq_sym Hne) Hsrc s ot Hto Hl Hpl Hext).
  rewrite (IH _ (with_props ot (assign_props (o_props ot) (o_props osrc)))); cbn.
  - by rewrite insert_insert_eq.
  - by rewrite lookup_insert_eq.
  - done.
  - done.
  - by apply plain_sources_write.
Qed.

(** C33.  [Object.assign] is a union of maps.  On an extensible ordinary
    target and ordinary sources other than the target, [Object.assign]
    returns the target and changes only the target; the properties of the
    target are then, as a finite map, the union of the sources and of the
    old target in which each source prevails over those before it and over
    the target.  The target stays ordinary and extensible. *)
Theorem object_assign_union to srcs s ot :
  st_heap s !! to = Some ot → o_elems ot = None → o_integrity ot = Extensible →
  plain_sources to s srcs →
  ∃ ot', object_assign (VRef to) ((λ lo, VRef lo.1) <$> srcs) s
         = (Return (VRef to), with_heap s (<[to:=ot']> (st_heap s)))
    ∧ to_map (o_props ot')
      = union_all (to_map (o_props ot)) ((λ lo, to_map (o_props lo.2)) <$> srcs)
    ∧ o_elems ot' = None ∧ o_integrity ot' = Extensible.
Proof.
  intros Hto Hpl Hext Hsrcs. eexists. split_and!.
  - unfold object_assign. cbn [to_object]. run_simpl.
    by rewrite (run_assign_all to srcs s ot).
  - cbn [o_props with_props]. rewrite to_map_assign_all. by rewrite <- list_fmap_compose.
  - done.
  - done.
Qed.

(** ** An instance *)

(** [{a: 1, b: 2}] at 1, [{b: 3, c: 4}] at 2, [{a: 5}] at 3. *)
Definition assign_store : state :=
  State {[ 1%positive := plain_object [("a", VNum 1); ("b", VNum 2)];
           2%positive := plain_object [("b", VNum 3); ("c", VNum 4)];
           3%positive := plain_object [("a", VNum 5)] ]} ∅.

Lemma object_assign_union_witness :
  ∃ ot', object_assign (VRef 1%positive) [VRef 2%positive; VRef 3%positive] assign_store
         = (Return (VRef 1%positive),
            with_heap assign_store (<[1%positive:=ot']> (st_heap assign_store)))
    ∧ to_map (o_props ot')
      = union_all {[ "a" := VNum 1; "b" := VNum 2 ]}
          [ {[ "b" := VNum 3; "c" := VNum 4 ]}; {[ "a" := VNum 5 ]} ]
    ∧ o_elems ot' = None ∧ o_integrity ot' = Extensible.
Proof.
  apply (object_assign_union 1%positive
           [(2%positive, plain_object [("b", VNum 3); ("c", VNum 4)]);
            (3%positive, plain_object [("a", VNum 5)])]
           assign_store (plain_object [("a", VNum 1); ("b", VNum 2)])); try done.
  by_compute.
Defined.
