(* ===== verification/Host.v ===== *)
(** * Host: what the module needs of the module system

    [jest.config.js] calls [require] once.  What [require] does is the
    host's business (Node resolves the request, may load and run other
    modules, and caches the result); the module under verification relies
    on little of it.  [ModuleHost] states that little as an interface:
    [host_require] is a computation that keeps the store well formed, keeps
    valid the values its caller holds, returns a valid value, and raises
    only JavaScript exceptions.

    The theorems of [JestConfig] that concern the invariant are proved for
    every [ModuleHost].  [cache_host] is the host in which every module the
    program asks for is already loaded: its [host_require] is the cache
    read [Builtins.require]. *)

From S2P Require Import Prelude Exec Props Heap Objects Builtins.

Class ModuleHost := {
  host_require : string → exec state value;
  host_require_ok keep request :
    hoare (ok_state keep) (host_require request)
      (λ v s, ok_state (v :: keep) s)
      (λ e s, ok_state keep s ∧ is_js_exception e = true)
}.

(** The cache read satisfies the interface. *)
Lemma hoare_require keep request :
  hoare (ok_state keep) (require request)
    (λ v s, ok_state (v :: keep) s)
    (λ e s, ok_state keep s ∧ is_js_exception e = true).
Proof.
  intros s Hok. destruct (st_modules s !! request) as [m|] eqn:Hm.
  - destruct Hok as [Hwf Hk]. destruct (proj2 Hwf _ _ Hm) as [o Ho].
    rewrite (run_require _ _ _ _ Hm Ho).
    apply ok_state_cons; [done|]. apply object_get_ok.
    eapply heap_wf_lookup; [apply Hwf|done].
  - by rewrite run_require_missing.
Qed.

#[export] Instance cache_host : ModuleHost := {|
  host_require := require;
  host_require_ok := hoare_require
|}.

(** A host on which a given module cannot be found: every request fails.
    It satisfies the interface too, and shows that the interface promises
    no success. *)
Definition failing_require (request : string) : exec state value :=
  throw (ModuleNotFound request).

Lemma hoare_failing_require keep request :
  hoare (ok_state keep) (failing_require request)
    (λ v s, ok_state (v :: keep) s)
    (λ e s, ok_state keep s ∧ is_js_exception e = true).
Proof. by intros s Hok. Qed.

Definition empty_host : ModuleHost := {|
  host_require := failing_require;
  host_require_ok := hoare_failing_require
|}.
