(* ===== verification/JestConfig.v ===== *)
(** * JestConfig: the module [src/jest.config.js]

    [jest_config_body module] is the body of the file, run by the CommonJS
    wrapper with [module] bound to the location of the module object.  It is
    composed from the operations of [Builtins] in the order in which
    ECMAScript evaluates lines 1 to 9:

    - line 1: [require('kcd-scripts/jest')] gives [jestConfig];
    - line 3, arguments of the call, left to right: the value of
      [jestConfig], then the object literal ([overrides_literal]), which
      allocates its object, evaluates the array literal
      ([patterns_literal]: allocate, read [jestConfig.coveragePathIgnorePatterns],
      iterate it into the array, then store the two strings of lines 6 and
      7) and defines the property;
    - line 3, the call: [Object.assign(jestConfig, overrides)];
    - line 3, the assignment to [module.exports], in sloppy mode (the file
      has no ["use strict"] directive).

    The file then describes the runs.  [base_items] is what the spread
    yields in a store; [ready] collects what a successful run needs;
    [exported_state] is the store such a run leaves.  The theorems give the
    run from a [ready] store, what the exported configuration holds, what is
    left unchanged, and the runs that end in an exception.  The last section
    applies each theorem to a concrete store, [sample_state]. *)

From S2P Require Import Prelude Exec Props Heap Objects Builtins Host.

(** ** The constants of the source *)

Definition base_request : string := "kcd-scripts/jest".

Definition patterns_key : string := "coveragePathIgnorePatterns".

Definition extra_patterns : list value :=
  [VStr ".macro.js$"; VStr "<rootDir>/src/stateChangeTypes.js"].

(** ** The module *)

(** Lines 4 to 8: the array literal. *)
Definition patterns_literal (jestConfig : value) : exec state value :=
  a ← alloc (array_object []);
  base ← get_member jestConfig patterns_key;
  items ← iterate base;
  i ← push_from a 0 items;
  push_from a i extra_patterns;;
  mret (VRef a).

(** Lines 3 to 9: the object literal. *)
Definition overrides_literal (jestConfig : value) : exec state value :=
  o ← alloc (plain_object []);
  patterns ← patterns_literal jestConfig;
  create_data_property o patterns_key patterns;;
  mret (VRef o).

(** Lines 1 to 9. *)
Definition jest_config_body `{ModuleHost} (module : loc) : exec state () :=
  jestConfig ← host_require base_request;
  overrides ← overrides_literal jestConfig;
  merged ← object_assign jestConfig [overrides];
  set_member false module "exports" merged.

(** [module_exports module s]: the value of [module.exports] in [s]. *)
Definition module_exports (module : loc) (s : state) : option value :=
  o ← st_heap s !! module; Some (object_get o "exports").

(** [patterns_of s v]: the list of values that [v.coveragePathIgnorePatterns]
    holds in [s], when it is an array. *)
Definition patterns_of (s : state) (v : value) : option (list value) :=
  match v with
  | VRef l =>
      o ← st_heap s !! l;
      match object_get o "coveragePathIgnorePatterns" with
      | VRef p => op ← st_heap s !! p; o_elems op
      | _ => None
      end
  | _ => None
  end.

(** ** The keys of the source are ordinary names *)

Lemma patterns_key_named : named_key_ok patterns_key.
Proof. by vm_compute. Qed.

Lemma exports_named : named_key_ok "exports".
Proof. by vm_compute. Qed.

#[export] Hint Resolve patterns_key_named exports_named : js.

(** ** The base patterns

    [base_items s jestConfig] is what the spread of line 5 yields in [s]:
    the outcome of reading [jestConfig.coveragePathIgnorePatterns] and
    iterating it.  Both steps are reads, so the store is not changed. *)
Definition base_items (s : state) (jestConfig : value) : outcome (list value) :=
  result (get_member jestConfig patterns_key ≫= iterate) s.

Lemma base_items_inv s jc r :
  base_items s jc = r →
  (∃ e, get_member jc patterns_key s = (Throw e, s) ∧ r = Throw e)
  ∨ ∃ b, get_member jc patterns_key s = (Return b, s) ∧ iterate b s = (r, s).
Proof.
  unfold base_items, result. rewrite run_bind.
  pose proof (get_member_final jc patterns_key s) as Hg. unfold final in Hg.
  destruct (get_member jc patterns_key s) as [[b|e] s1]; cbn in Hg; subst s1.
  - intros <-. right. exists b. split; [done|].
    pose proof (iterate_final b s) as Hi. unfold final in Hi.
    destruct (iterate b s) as [r' s1]; cbn in *. by subst.
  - intros <-. left. by exists e.
Qed.

(** The spread yields the same in a store that has only grown. *)
Lemma run_base_items s s' jc r :
  base_items s jc = r → is_js_exception_outcome r = true → frame ∅ s s' →
  (get_member jc patterns_key ≫= iterate) s' = (r, s').
Proof.
  intros [(e & Hg & ->)|(b & Hg & Hi)]%base_items_inv Hr Hf.
  - change (is_js_exception_outcome (@Throw value e) = true) in Hr.
    by run_step (get_member_frame _ _ _ _ _ Hf Hr Hg).
  - run_step (get_member_frame _ _ _ _ (Return b) Hf eq_refl Hg).
    by apply (iterate_frame _ s).
Qed.

(** When the spread yields values, [jestConfig] is an object. *)
Lemma base_items_Return s jc items :
  base_items s jc = Return items →
  ∃ cfg oc, jc = VRef cfg ∧ st_heap s !! cfg = Some oc
    ∧ iterate (object_get oc patterns_key) s = (Return items, s).
Proof.
  intros [(e & _ & ?)|(b & Hg & Hi)]%base_items_inv; [done|].
  destruct jc as [| | | |str|cfg]; cbn [get_member] in Hg;
    rewrite ?run_ret, ?run_throw in Hg; simplify_eq; try done.
  destruct (st_heap s !! cfg) as [oc|] eqn:Hc.
  - run_read Hc in Hg.
    rewrite run_ret in Hg. simplify_eq. eauto.
  - by run_read Hc in Hg.
Qed.

(** ** Runs of the array literal *)

(** The array that the literal builds from the base patterns [items].  It
    holds [items ++ extra_patterns] as long as that many elements fit an
    array. *)
Definition new_patterns (items : list value) : object :=
  push_all (array_object []) 0 (items ++ extra_patterns).

Lemma new_patterns_within items :
  (N.of_nat (length items + 2) ≤ max_array_index + 1)%N →
  new_patterns items = array_object (items ++ extra_patterns).
Proof.
  intros Hlen. unfold new_patterns.
  by rewrite (push_all_within _ []) by (done || by rewrite length_app).
Qed.

(** Without the bound: as many values as there are array indices are
    elements of the new array, and each value is read back under the key of
    its position. *)
Lemma new_patterns_elems items :
  o_elems (new_patterns items)
  = Some (take (N.to_nat (max_array_index + 1)) (items ++ extra_patterns)).
Proof.
  unfold new_patterns. rewrite (push_all_elems _ _ []) by (apply growing_array_nil || done).
  by rewrite N.sub_0_r.
Qed.

Lemma new_patterns_own_prop items j v :
  (items ++ extra_patterns) !! j = Some v →
  own_prop (new_patterns items) (key_of_index (N.of_nat j)) = Some v.
Proof. apply (push_all_own_prop _ 0), growing_array_nil. Qed.

Lemma new_patterns_growing items :
  growing (new_patterns items) (N.of_nat (length items + 2)).
Proof.
  unfold new_patterns.
  replace (N.of_nat (length items + 2)) with (0 + N.of_nat (length (items ++ extra_patterns)))%N
    by (rewrite length_app; cbn; lia).
  apply push_all_growing, growing_array_nil.
Qed.

Lemma run_patterns_literal_at s jc items :
  base_items s jc = Return items →
  patterns_literal jc s
  = (Return (VRef (fresh_loc (st_heap s))),
     with_heap s (<[fresh_loc (st_heap s):=new_patterns items]> (st_heap s))).
Proof.
  intros Hb. unfold patterns_literal.
  rewrite run_bind, run_alloc. set (a := fresh_loc (st_heap s)).
  set (s1 := with_heap s _).
  rewrite <- (exec_bind_assoc (get_member jc patterns_key) iterate _ s1).
  run_step (run_base_items _ s1 _ _ Hb eq_refl (frame_alloc _ _)).
  assert (st_heap s1 !! a = Some (array_object [])) as Ha
    by (cbn; by rewrite lookup_insert_eq).
  run_step (run_push_from_all a 0 items s1 _ Ha growing_array_nil).
  set (s2 := with_heap s1 _).
  assert (st_heap s2 !! a = Some (push_all (array_object []) 0 items)) as Ha2
    by (cbn; by rewrite lookup_insert_eq).
  rewrite run_bind.
  rewrite (run_push_from_all a _ extra_patterns s2 _ Ha2
             (push_all_growing _ _ _ growing_array_nil)).
  rewrite run_ret. unfold s2, s1, new_patterns.
  rewrite push_all_app by apply growing_array_nil.
  cbn [with_heap st_heap st_modules]. by rewrite !insert_insert_eq.
Qed.

Lemma run_patterns_literal_throw_at s jc e :
  base_items s jc = Throw e → is_js_exception e = true →
  patterns_literal jc s
  = (Throw e, with_heap s (<[fresh_loc (st_heap s):=array_object []]> (st_heap s))).
Proof.
  intros Hb He. unfold patterns_literal. rewrite run_bind, run_alloc.
  set (s1 := with_heap s _).
  rewrite <- (exec_bind_assoc (get_member jc patterns_key) iterate _ s1).
  by run_step (run_base_items _ s1 _ _ Hb He (frame_alloc _ _)).
Qed.

(** ** Runs of the literals *)

Section literals.
Context (jc : value) (s : state).

(** The location of the object literal and, allocated after it, of the
    array literal. *)
Definition overrides_loc : loc := fresh_loc (st_heap s).

Definition patterns_loc : loc :=
  fresh_loc (<[overrides_loc:=plain_object []]> (st_heap s)).

Lemma overrides_loc_fresh : st_heap s !! overrides_loc = None.
Proof. apply fresh_loc_fresh. Qed.

Lemma patterns_loc_fresh : st_heap s !! patterns_loc = None.
Proof.
  pose proof (fresh_loc_fresh (<[overrides_loc:=plain_object []]> (st_heap s))) as H.
  by apply lookup_insert_None in H as [? _].
Qed.

Lemma patterns_loc_ne : overrides_loc ≠ patterns_loc.
Proof.
  pose proof (fresh_loc_fresh (<[overrides_loc:=plain_object []]> (st_heap s))) as H.
  by apply lookup_insert_None in H as [_ ?].
Qed.

(** The heap after the object literal: the two new cells. *)
Definition literal_heap (items : list value) : gmap loc object :=
  <[overrides_loc:=plain_object [(patterns_key, VRef patterns_loc)]]>
    (<[patterns_loc:=new_patterns items]> (st_heap s)).

Lemma base_items_alloc o r :
  base_items s jc = r → is_js_exception_outcome r = true →
  base_items (with_heap s (<[fresh_loc (st_heap s):=o]> (st_heap s))) jc = r.
Proof.
  intros Hb Hr. unfold base_items at 1, result.
  by rewrite (run_base_items _ _ _ _ Hb Hr (frame_alloc _ _)).
Qed.

Lemma run_overrides_literal items :
  base_items s jc = Return items →
  overrides_literal jc s
  = (Return (VRef overrides_loc), with_heap s (literal_heap items)).
Proof.
  intros Hb. unfold overrides_literal. rewrite run_bind, run_alloc.
  fold overrides_loc. set (s1 := with_heap s _).
  run_step (run_patterns_literal_at s1 _ _ (base_items_alloc _ _ Hb eq_refl)).
  change (fresh_loc (st_heap s1)) with patterns_loc. set (s2 := with_heap s1 _).
  assert (st_heap s2 !! overrides_loc = Some (plain_object [])) as Ho.
  { cbn. rewrite lookup_insert_ne by (symmetry; apply patterns_loc_ne).
    by rewrite lookup_insert_eq. }
  unfold create_data_property.
  run_step (run_set_member_ok true _ patterns_key (VRef patterns_loc) s2 _ _ Ho eq_refl).
  rewrite run_ret. unfold literal_heap, s2, s1. cbn. f_equal. f_equal.
  rewrite (insert_insert_ne _ patterns_loc overrides_loc)
    by (symmetry; apply patterns_loc_ne).
  by rewrite insert_insert_eq.
Qed.

Lemma run_overrides_literal_throw e :
  base_items s jc = Throw e → is_js_exception e = true →
  overrides_literal jc s
  = (Throw e, with_heap s (<[patterns_loc:=array_object []]>
                             (<[overrides_loc:=plain_object []]> (st_heap s)))).
Proof.
  intros Hb He. unfold overrides_literal. rewrite run_bind, run_alloc.
  fold overrides_loc. set (s1 := with_heap s _).
  by run_step (run_patterns_literal_throw_at s1 _ _ (base_items_alloc _ _ Hb He) He).
Qed.

End literals.

(** ** What the module expects

    [ready module cfg s0 s oc om items]: [require] returns the object [cfg]
    and leaves the store [s]; in [s] the object at [cfg] is [oc], not frozen,
    and its patterns iterate to [items]; the module object [om], which the
    CommonJS wrapper passes, is another object and is extensible. *)
Record ready `{ModuleHost} (module cfg : loc) (s0 s : state)
    (oc om : object) (items : list value) : Prop := Ready {
  ready_require : host_require base_request s0 = (Return (VRef cfg), s);
  ready_config : st_heap s !! cfg = Some oc;
  ready_items : base_items s (VRef cfg) = Return items;
  ready_writable : o_integrity oc ≠ Frozen;
  ready_module : st_heap s !! module = Some om;
  ready_module_ne : module ≠ cfg;
  ready_module_open : o_integrity om = Extensible
}.

(** The object at [cfg] once [Object.assign] has run, and the module
    object once [module.exports] is assigned. *)
Definition merged_config (s : state) (oc : object) : object :=
  with_props oc (prop_set (o_props oc) patterns_key (VRef (patterns_loc s))).

Definition exporting_module (om : object) (cfg : loc) : object :=
  with_props om (prop_set (o_props om) "exports" (VRef cfg)).

(** The store the module leaves. *)
Definition exported_state (s : state) (module cfg : loc)
    (oc om : object) (items : list value) : state :=
  with_heap s
    (<[module:=exporting_module om cfg]>
       (<[cfg:=merged_config s oc]> (literal_heap s items))).

(** ** Facts about the store before and after *)

(** A location in use is neither of the two fresh ones. *)
Lemma used_not_fresh s l o :
  st_heap s !! l = Some o → l ≠ overrides_loc s ∧ l ≠ patterns_loc s.
Proof.
  intros Hl. split; intros ->.
  - by rewrite overrides_loc_fresh in Hl.
  - by rewrite patterns_loc_fresh in Hl.
Qed.

Lemma literal_heap_used s items l o :
  st_heap s !! l = Some o → literal_heap s items !! l = Some o.
Proof.
  intros Hl. destruct (used_not_fresh _ _ _ Hl) as [Ho Hp].
  unfold literal_heap. by rewrite !lookup_insert_ne.
Qed.

Lemma literal_heap_overrides s items :
  literal_heap s items !! overrides_loc s
  = Some (plain_object [(patterns_key, VRef (patterns_loc s))]).
Proof. unfold literal_heap. by rewrite lookup_insert_eq. Qed.

Lemma literal_heap_patterns s items :
  literal_heap s items !! patterns_loc s = Some (new_patterns items).
Proof.
  unfold literal_heap. rewrite lookup_insert_ne by apply patterns_loc_ne.
  by rewrite lookup_insert_eq.
Qed.

(** When the patterns can be iterated the key is an own property, so the
    write of [Object.assign] replaces a value and adds no key. *)
Lemma base_items_has_key s cfg oc items :
  st_heap s !! cfg = Some oc → base_items s (VRef cfg) = Return items →
  has_prop (o_props oc) patterns_key = true.
Proof.
  intros Hc (cfg' & oc' & [= <-] & Hc' & Hi)%base_items_Return.
  simplify_eq. unfold has_prop. apply bool_decide_eq_true.
  destruct (prop_get (o_props oc) patterns_key) as [v|] eqn:Hk; [by eexists|].
  unfold object_get in Hi. rewrite own_prop_named, Hk in Hi by apply patterns_key_named.
  destruct (o_elems oc); [rewrite decide_False in Hi by done|]; done.
Qed.

Lemma object_set_patterns s cfg oc items v :
  st_heap s !! cfg = Some oc → base_items s (VRef cfg) = Return items →
  object_set oc patterns_key v
  = if decide (o_integrity oc = Frozen) then SetFail ReadOnly
    else SetOk (with_props oc (prop_set (o_props oc) patterns_key v)).
Proof.
  intros Hc Hb. pose proof (base_items_has_key _ _ _ _ Hc Hb) as Hk.
  unfold object_set. rewrite (proj1 patterns_key_named).
  assert (set_named oc patterns_key v
          = if decide (o_integrity oc = Frozen) then SetFail ReadOnly
            else SetOk (with_props oc (prop_set (o_props oc) patterns_key v))) as ->.
  { case_decide; [by apply set_named_frozen|by apply set_named_present]. }
  destruct (o_elems oc); [by rewrite decide_False|done].
Qed.

Lemma object_set_exports om v :
  o_integrity om = Extensible →
  object_set om "exports" v = SetOk (with_props om (prop_set (o_props om) "exports" v)).
Proof.
  intros Hi. unfold object_set. rewrite (proj1 exports_named).
  rewrite set_named_extensible by done.
  destruct (o_elems om); [by rewrite decide_False|done].
Qed.

(** ** The run of the module *)

(** The statements that follow [require], for [jestConfig = jc]. *)
Local Abbreviation after_require module jc :=
  (overrides_literal jc ≫= λ overrides,
   object_assign jc [overrides] ≫= λ merged,
   set_member false module "exports" merged).

(** The garbage an abrupt completion of the spread leaves: the two objects
    the literals had allocated, still empty. *)
Definition abandoned_heap (s : state) : gmap loc object :=
  <[patterns_loc s:=array_object []]> (<[overrides_loc s:=plain_object []]> (st_heap s)).

Section run.
Context (module : loc) (s : state).

(** The spread fails: nothing is assigned. *)
Lemma run_after_require_throw jc e :
  base_items s jc = Throw e → is_js_exception e = true →
  after_require module jc s = (Throw e, with_heap s (abandoned_heap s)).
Proof.
  intros Hb He. by run_step (run_overrides_literal_throw _ _ _ Hb He).
Qed.

Context (cfg : loc) (oc : object) (items : list value).
Context (Hcfg : st_heap s !! cfg = Some oc).
Context (Hitems : base_items s (VRef cfg) = Return items).

(** Up to the write of [Object.assign]. *)
Lemma run_after_require_assign :
  after_require module (VRef cfg) s
  = match set_member true cfg patterns_key (VRef (patterns_loc s))
            (with_heap s (literal_heap s items)) with
    | (Return _, s') => set_member false module "exports" (VRef cfg) s'
    | (Throw e, s') => (Throw e, s')
    end.
Proof.
  run_step (run_overrides_literal _ _ _ Hitems).
  rewrite run_bind, (run_object_assign_single cfg (overrides_loc s) patterns_key
             (VRef (patterns_loc s)))
    by (apply literal_heap_overrides || apply patterns_key_named).
  by destruct (set_member true cfg patterns_key _ _) as [[[]|e] s'].
Qed.

(** The base object is frozen: [Object.assign] raises and the base object
    keeps its patterns. *)
Lemma run_after_require_frozen :
  o_integrity oc = Frozen →
  after_require module (VRef cfg) s
  = (Throw (TypeError ReadOnly), with_heap s (literal_heap s items)).
Proof.
  intros Hf. rewrite run_after_require_assign.
  erewrite run_set_member_fail_strict; [done|by apply literal_heap_used|].
  erewrite object_set_patterns by done. by rewrite decide_True.
Qed.

(** The base object is not frozen: it is updated, and [module.exports] is
    assigned in the store that results. *)
Lemma run_after_require_merged :
  o_integrity oc ≠ Frozen →
  after_require module (VRef cfg) s
  = set_member false module "exports" (VRef cfg)
      (with_heap s (<[cfg:=merged_config s oc]> (literal_heap s items))).
Proof.
  intros Hf. rewrite run_after_require_assign.
  erewrite run_set_member_ok; [done|by apply literal_heap_used|].
  erewrite object_set_patterns by done. by rewrite decide_False.
Qed.

End run.

(** The steps after [require], from the store [s] it leaves. *)
Lemma run_after_require `{ModuleHost} module cfg s0 s oc om items :
  ready module cfg s0 s oc om items →
  after_require module (VRef cfg) s
  = (Return (), exported_state s module cfg oc om items).
Proof.
  intros [_ Hc Hb Hw Hm Hne Hopen].
  rewrite (run_after_require_merged _ _ _ _ _ Hc Hb Hw).
  erewrite run_set_member_ok; [done| |by apply object_set_exports].
  cbn. rewrite lookup_insert_ne by done. by apply literal_heap_used.
Qed.

(** ** What the module leaves behind *)

Section after.
Context `{ModuleHost}.
Context (module cfg : loc) (s0 s : state) (oc om : object) (items : list value).
Context (Hready : ready module cfg s0 s oc om items).

Lemma ready_run :
  ⟨ jest_config_body module, s0 ⟩ ⇓ ⟨ (), exported_state s module cfg oc om items ⟩.
Proof.
  unfold jest_config_body.
  run_step (ready_require _ _ _ _ _ _ _ Hready).
  exact (run_after_require _ _ _ _ _ _ _ Hready).
Qed.

Lemma ready_final :
  final (jest_config_body module) s0 = exported_state s module cfg oc om items.
Proof. unfold final. by rewrite ready_run. Qed.

(** C1.  Functional behaviour of the whole module.  When [require] returns
    a base configuration object that is not frozen and whose
    [coveragePathIgnorePatterns] can be iterated, the module completes
    normally and leaves exactly the store [exported_state]: a new array
    [new_patterns items] holding the base patterns followed by ['.macro.js$']
    and ['<rootDir>/src/stateChangeTypes.js'], a new one-property object that
    served as the source of [Object.assign], the base object with its
    pattern property replaced by the new array, and the module object with
    [exports] set to the base object. *)
Theorem jest_config_body_run :
  ⟨ jest_config_body module, s0 ⟩ ⇓ ⟨ (), exported_state s module cfg oc om items ⟩.
Proof. exact ready_run. Qed.

Lemma exported_state_module :
  st_heap (exported_state s module cfg oc om items) !! module
  = Some (exporting_module om cfg).
Proof. cbn. by rewrite lookup_insert_eq. Qed.

Lemma exported_state_config :
  st_heap (exported_state s module cfg oc om items) !! cfg = Some (merged_config s oc).
Proof.
  cbn. rewrite lookup_insert_ne by apply Hready. by rewrite lookup_insert_eq.
Qed.

Lemma exported_state_patterns :
  st_heap (exported_state s module cfg oc om items) !! patterns_loc s
  = Some (new_patterns items).
Proof.
  destruct (used_not_fresh _ _ _ (ready_config _ _ _ _ _ _ _ Hready)) as [_ Hc].
  destruct (used_not_fresh _ _ _ (ready_module _ _ _ _ _ _ _ Hready)) as [_ Hm].
  cbn. rewrite !lookup_insert_ne by done. apply literal_heap_patterns.
Qed.

Lemma exported_state_other l o :
  l ≠ cfg → l ≠ module → st_heap s !! l = Some o →
  st_heap (exported_state s module cfg oc om items) !! l = Some o.
Proof.
  intros Hc Hm Hl. cbn. rewrite !lookup_insert_ne by done.
  by apply literal_heap_used.
Qed.

Lemma module_exports_exported_state :
  module_exports module (exported_state s module cfg oc om items) = Some (VRef cfg).
Proof.
  unfold module_exports. rewrite exported_state_module.
  cbn [mbind option_bind]. f_equal.
  apply (object_get_with_props_set om), exports_named.
Qed.

(** C2.  The exported value is the base configuration object itself: after
    the module has run, [module.exports] is the reference that [require]
    returned, not a copy. *)
Theorem exports_is_base :
  module_exports module (final (jest_config_body module) s0) = Some (VRef cfg).
Proof. rewrite ready_final. apply module_exports_exported_state. Qed.

(** The patterns of the exported configuration are the elements of the
    new array. *)
Lemma patterns_of_exported_elems :
  patterns_of (exported_state s module cfg oc om items) (VRef cfg)
  = o_elems (new_patterns items).
Proof.
  unfold patterns_of. rewrite exported_state_config.
  cbn [mbind option_bind]. unfold merged_config at 1.
  rewrite object_get_with_props_set by apply patterns_key_named.
  by rewrite exported_state_patterns.
Qed.

Lemma patterns_of_exported_state :
  (N.of_nat (length items + 2) ≤ max_array_index + 1)%N →
  patterns_of (exported_state s module cfg oc om items) (VRef cfg)
  = Some (items ++ extra_patterns).
Proof. intros Hlen. by rewrite patterns_of_exported_elems, new_patterns_within. Qed.

(** C3.  The patterns of the exported configuration are the base patterns,
    in their order, followed by the two patterns of lines 6 and 7. *)
Theorem exported_patterns :
  (N.of_nat (length items + 2) ≤ max_array_index + 1)%N →
  patterns_of (final (jest_config_body module) s0) (VRef cfg)
  = Some (items ++ [VStr ".macro.js$"; VStr "<rootDir>/src/stateChangeTypes.js"]).
Proof.
  intros Hlen. rewrite ready_final. by apply patterns_of_exported_state.
Qed.

(** C31.  The module at the bound on array indices.  Whatever the number of
    base patterns, those of the patterns of line 5 to 7 whose position is an
    array index, the first [2^32 - 1], are the elements of the exported
    pattern array; and every pattern is stored in that array under the key
    of its position.  Past the largest index the key is an ordinary name:
    with a base that fills an array the two patterns of lines 6 and 7 are
    properties ["4294967295"] and ["4294967296"] of the array, not
    elements, and its length does not count them. *)
Theorem patterns_past_last_index :
  patterns_of (final (jest_config_body module) s0) (VRef cfg)
  = Some (take (N.to_nat (max_array_index + 1)) (items ++ extra_patterns))
  ∧ ∃ oa, st_heap (final (jest_config_body module) s0) !! patterns_loc s = Some oa
      ∧ ∀ j v, (items ++ extra_patterns) !! j = Some v →
          own_prop oa (key_of_index (N.of_nat j)) = Some v.
Proof.
  rewrite ready_final. split.
  - by rewrite patterns_of_exported_elems, new_patterns_elems.
  - exists (new_patterns items). split; [apply exported_state_patterns|].
    apply new_patterns_own_prop.
Qed.

(** C4.  Every other property of the base configuration is untouched and
    no key is added or moved: the own keys of the object at [cfg] are
    enumerated in the same order as before, and each key other than
    [coveragePathIgnorePatterns] holds the value it held. *)
Theorem other_keys_unchanged :
  ∃ oc', st_heap (final (jest_config_body module) s0) !! cfg = Some oc'
    ∧ own_keys oc' = own_keys oc
    ∧ o_integrity oc' = o_integrity oc
    ∧ ∀ k, k ≠ patterns_key → own_prop oc' k = own_prop oc k.
Proof.
  rewrite ready_final. exists (merged_config s oc). split_and!.
  - apply exported_state_config.
  - apply own_keys_with_props_present.
    eapply base_items_has_key; apply Hready.
  - done.
  - intros k Hk. by apply own_prop_with_props_set.
Qed.

(** Frame.  The module changes two existing cells at most, the base
    configuration object and the module object: the module cache is as
    [require] left it, no cell is lost, and every other object of the store
    is as it was.  In particular the array that held the base patterns is
    not modified: the extended list lives in a new array. *)
Theorem jest_config_frame :
  frame {[cfg; module]} s (final (jest_config_body module) s0).
Proof.
  rewrite ready_final. split_and!; [done| |].
  - intros l [o Hl]%elem_of_dom. apply elem_of_dom.
    destruct (decide (l = module)) as [->|Hm]; [by rewrite exported_state_module|].
    destruct (decide (l = cfg)) as [->|Hc]; [by rewrite exported_state_config|].
    rewrite (exported_state_other l o); eauto.
  - intros l o Hl Ho. apply exported_state_other; [set_solver..|done].
Qed.

End after.

(** ** What the spread yields, case by case *)

Lemma base_items_nullish s jc :
  jc = VUndefined ∨ jc = VNull → base_items s jc = Throw (TypeError NullishBase).
Proof. by intros [->| ->]. Qed.

Lemma base_items_primitive s jc :
  match jc with VBool _ | VNum _ | VStr _ => True | _ => False end →
  base_items s jc = Throw (TypeError NotIterable).
Proof.
  by destruct jc.
Qed.

Lemma base_items_object s cfg oc :
  st_heap s !! cfg = Some oc →
  base_items s (VRef cfg) = result (iterate (object_get oc patterns_key)) s.
Proof.
  intros Hc. unfold base_items, result.
  by run_step (run_get_member_ref _ _ _ _ Hc).
Qed.

Lemma base_items_missing s cfg oc :
  st_heap s !! cfg = Some oc → own_prop oc patterns_key = None →
  base_items s (VRef cfg) = Throw (TypeError NotIterable).
Proof.
  intros Hc Hk. rewrite (base_items_object _ _ _ Hc).
  by rewrite object_get_absent.
Qed.

Lemma base_items_array s cfg oc p op items :
  st_heap s !! cfg = Some oc → own_prop oc patterns_key = Some (VRef p) →
  st_heap s !! p = Some op → o_elems op = Some items →
  base_items s (VRef cfg) = Return items.
Proof.
  intros Hc Hk Hp Hi. rewrite (base_items_object _ _ _ Hc).
  rewrite (object_get_present _ _ (VRef p)) by done.
  unfold result. by rewrite (run_iterate_array _ _ _ _ Hp Hi).
Qed.

Lemma base_items_string s cfg oc str :
  st_heap s !! cfg = Some oc → own_prop oc patterns_key = Some (VStr str) →
  base_items s (VRef cfg) = Return (chars str).
Proof.
  intros Hc Hk. rewrite (base_items_object _ _ _ Hc).
  by rewrite (object_get_present _ _ (VStr str)).
Qed.

(** C32.  A string is spread into its characters.  When the base
    configuration holds a string under [coveragePathIgnorePatterns], the
    spread does not fail and does not keep the string as one pattern: the
    exported list is the characters of the string, one pattern each,
    followed by the two new patterns. *)
Theorem string_patterns_are_spread `{ModuleHost} module cfg s0 s oc om items str :
  ready module cfg s0 s oc om items →
  own_prop oc patterns_key = Some (VStr str) →
  (N.of_nat (String.length str + 2) ≤ max_array_index + 1)%N →
  patterns_of (final (jest_config_body module) s0) (VRef cfg)
  = Some (chars str ++ [VStr ".macro.js$"; VStr "<rootDir>/src/stateChangeTypes.js"]).
Proof.
  intros Hready Hk Hlen.
  pose proof (base_items_string s cfg oc str (ready_config _ _ _ _ _ _ _ Hready) Hk) as Hb.
  rewrite (ready_items _ _ _ _ _ _ _ Hready) in Hb. injection Hb as ->.
  rewrite (ready_final _ _ _ _ _ _ _ Hready).
  apply (patterns_of_exported_state _ _ _ _ _ _ _ Hready). by rewrite length_chars.
Qed.

(** ** Abrupt completions *)

Lemma abandoned_frame s : frame ∅ s (with_heap s (abandoned_heap s)).
Proof.
  split_and!; [done|..]; cbn; unfold abandoned_heap.
  - etrans; [|apply dom_insert_subseteq]. apply dom_insert_subseteq.
  - intros l o _ Hl. destruct (used_not_fresh _ _ _ Hl). by rewrite !lookup_insert_ne.
Qed.

Lemma literal_frame s items : frame ∅ s (with_heap s (literal_heap s items)).
Proof.
  split_and!; [done|..]; cbn.
  - intros l [o Hl]%elem_of_dom. apply elem_of_dom.
    by rewrite (literal_heap_used _ _ _ _ Hl).
  - intros l o _ Hl. by apply literal_heap_used.
Qed.

Section errors.
Context `{ModuleHost}.
Context (module : loc) (s0 s : state).

(** An exception of [require] (the package is not installed, or its
    own module fails to load) is the outcome of the module, and the store
    is the one [require] left: the module itself has done nothing yet. *)
Theorem require_failure_propagates e :
  ⟨ host_require base_request, s0 ⟩ ⇑ ⟨ e, s ⟩ →
  ⟨ jest_config_body module, s0 ⟩ ⇑ ⟨ e, s ⟩.
Proof. intros Hr. unfold jest_config_body. by run_step Hr. Qed.

(** C29.  If reading or iterating [jestConfig.coveragePathIgnorePatterns]
    raises, the module raises the same exception before [Object.assign] is
    called: every object of the store and the module cache are unchanged
    (only the two empty literals were allocated), so [module.exports] keeps
    its initial value. *)
Theorem spread_failure_changes_nothing jc e :
  host_require base_request s0 = (Return jc, s) →
  base_items s jc = Throw e → is_js_exception e = true →
  jest_config_body module s0 = (Throw e, with_heap s (abandoned_heap s))
  ∧ frame ∅ s (with_heap s (abandoned_heap s)).
Proof.
  intros Hr Hb He. split; [|apply abandoned_frame]. unfold jest_config_body.
  run_step Hr. by apply run_after_require_throw.
Qed.

(** A base configuration that is [undefined] or [null] makes the
    module raise [TypeError] at the member read of line 5. *)
Theorem nullish_base_type_error jc :
  host_require base_request s0 = (Return jc, s) →
  jc = VUndefined ∨ jc = VNull →
  result (jest_config_body module) s0 = Throw (TypeError NullishBase).
Proof.
  intros Hr Hjc. unfold result, jest_config_body.
  run_step Hr.
  by rewrite (run_after_require_throw _ _ _ _ (base_items_nullish s jc Hjc) eq_refl).
Qed.

(** C25.  A base configuration object without a [coveragePathIgnorePatterns]
    property makes the module raise [TypeError]: the member read gives
    [undefined], which the spread cannot iterate.  The missing key is not
    treated as an empty list. *)
Theorem missing_patterns_type_error cfg oc :
  host_require base_request s0 = (Return (VRef cfg), s) →
  st_heap s !! cfg = Some oc → own_prop oc patterns_key = None →
  result (jest_config_body module) s0 = Throw (TypeError NotIterable)
  ∧ st_heap (final (jest_config_body module) s0) !! cfg = Some oc.
Proof.
  intros Hr Hc Hk. unfold result, final, jest_config_body.
  run_step Hr.
  rewrite (run_after_require_throw _ _ _ _ (base_items_missing _ _ _ Hc Hk) eq_refl).
  split; [done|]. cbn [snd].
  by apply (frame_lookup ∅ s _ _ _ (abandoned_frame s)).
Qed.

(** C28.  A frozen base configuration makes [Object.assign] raise
    [TypeError]; the base object keeps the patterns it had and
    [module.exports] is not assigned. *)
Theorem frozen_base_type_error cfg oc items :
  host_require base_request s0 = (Return (VRef cfg), s) →
  st_heap s !! cfg = Some oc → base_items s (VRef cfg) = Return items →
  o_integrity oc = Frozen →
  jest_config_body module s0
  = (Throw (TypeError ReadOnly), with_heap s (literal_heap s items))
  ∧ frame ∅ s (with_heap s (literal_heap s items)).
Proof.
  intros Hr Hc Hb Hf. split; [|apply literal_frame]. unfold jest_config_body.
  run_step Hr.
  exact (run_after_require_frozen _ _ _ _ _ Hc Hb Hf).
Qed.

(** C30.  The assignment of line 3 is sloppy-mode code: when the module
    object refuses the write (it is frozen, or sealed without an [exports]
    property), no exception is raised.  The module completes normally, the
    base configuration has been extended, and [module.exports] is what it
    was before. *)
Theorem refused_export_is_silent cfg oc om items why :
  host_require base_request s0 = (Return (VRef cfg), s) →
  st_heap s !! cfg = Some oc → base_items s (VRef cfg) = Return items →
  o_integrity oc ≠ Frozen →
  st_heap s !! module = Some om → module ≠ cfg →
  object_set om "exports" (VRef cfg) = SetFail why →
  jest_config_body module s0
  = (Return (), with_heap s (<[cfg:=merged_config s oc]> (literal_heap s items)))
  ∧ module_exports module (final (jest_config_body module) s0)
    = module_exports module s.
Proof.
  intros Hr Hc Hb Hw Hm Hne Hset.
  assert (jest_config_body module s0
          = (Return (), with_heap s (<[cfg:=merged_config s oc]> (literal_heap s items))))
    as Hrun.
  { unfold jest_config_body. run_step Hr.
    rewrite (run_after_require_merged _ _ _ _ _ Hc Hb Hw).
    eapply run_set_member_fail_sloppy; [|done].
    cbn. rewrite lookup_insert_ne by done. by apply literal_heap_used. }
  split; [done|]. unfold final, module_exports. rewrite Hrun. cbn.
  rewrite lookup_insert_ne by done. by rewrite (literal_heap_used _ _ _ _ Hm), Hm.
Qed.

End errors.

(** ** A concrete store

    The store in which Node runs the module in a project that depends on
    [kcd-scripts]: the cached module object of [kcd-scripts/jest] at 1, the
    configuration it exports at 2, the pattern array of that configuration
    at 3, the module object of [jest.config.js] at 4 with its initial empty
    [exports] at 5. *)
Definition sample_config : object :=
  plain_object [("testEnvironment", VStr "jsdom");
                ("coveragePathIgnorePatterns", VRef 3%positive);
                ("testTimeout", VNum 5000)].

Definition sample_module : object :=
  plain_object [("id", VStr "."); ("exports", VRef 5%positive); ("loaded", VBool false)].

Definition sample_patterns : list value :=
  [VStr "/node_modules/"; VStr "/__fixtures__/"; VStr "/__tests__/"].

(** [store_with exports config module cache]: the store above with the
    [exports] of [kcd-scripts/jest], the configuration object, the module
    object and the module cache of one's choice. *)
Definition store_with (exports : value) (config module : object)
    (cache : gmap string loc) : state :=
  State
    (list_to_map
       [(1%positive, plain_object [("id", VStr "kcd-scripts/jest");
                                   ("exports", exports);
                                   ("loaded", VBool true)]);
        (2%positive, config);
        (3%positive, array_object sample_patterns);
        (4%positive, module);
        (5%positive, plain_object [])])
    cache.

Definition sample_cache : gmap string loc := {[ "kcd-scripts/jest" := 1%positive ]}.

Definition sample_state : state :=
  store_with (VRef 2%positive) sample_config sample_module sample_cache.

(** Variations: a configuration without patterns, a frozen one, a frozen
    module object. *)
Definition bare_config : object :=
  plain_object [("testEnvironment", VStr "jsdom")].

Definition string_config : object :=
  plain_object [("coveragePathIgnorePatterns", VStr "lib")].

Definition frozen_config : object :=
  Obj None (o_props sample_config) Frozen.

Definition frozen_module : object :=
  Obj None (o_props sample_module) Frozen.

Lemma sample_ready :
  ready (H := cache_host) 4%positive 2%positive sample_state sample_state
    sample_config sample_module sample_patterns.
Proof. by split; vm_compute. Defined.

Lemma jest_config_body_run_witness :
  jest_config_body (H := cache_host) 4%positive sample_state
  = (Return (), exported_state sample_state 4%positive 2%positive
                  sample_config sample_module sample_patterns).
Proof. apply (jest_config_body_run (H := cache_host) _ _ _ _ _ _ _ sample_ready). Defined.

Lemma exports_is_base_witness :
  module_exports 4%positive
    (final (jest_config_body (H := cache_host) 4%positive) sample_state)
  = Some (VRef 2%positive).
Proof. apply (exports_is_base (H := cache_host) _ _ _ _ _ _ _ sample_ready). Defined.

Lemma exported_patterns_witness :
  patterns_of (final (jest_config_body (H := cache_host) 4%positive) sample_state)
    (VRef 2%positive)
  = Some [VStr "/node_modules/"; VStr "/__fixtures__/"; VStr "/__tests__/";
          VStr ".macro.js$"; VStr "<rootDir>/src/stateChangeTypes.js"].
Proof. apply (exported_patterns (H := cache_host) _ _ _ _ _ _ _ sample_ready). by vm_compute. Defined.

Lemma patterns_past_last_index_witness :
  let s' := final (jest_config_body (H := cache_host) 4%positive) sample_state in
  patterns_of s' (VRef 2%positive)
  = Some (take (N.to_nat (max_array_index + 1)) (sample_patterns ++ extra_patterns))
  ∧ ∃ oa, st_heap s' !! patterns_loc sample_state = Some oa
      ∧ ∀ j v, (sample_patterns ++ extra_patterns) !! j = Some v →
          own_prop oa (key_of_index (N.of_nat j)) = Some v.
Proof. apply (patterns_past_last_index (H := cache_host) _ _ _ _ _ _ _ sample_ready). Defined.

(** A store at the first number that is not an array index: the element and
    the length are as they were, the value is a property. *)
Example store_past_last_index :
  object_set (array_object [VStr "/node_modules/"]) (key_of_index 4294967295)
    (VStr ".macro.js$")
  = SetOk (Obj (Some [VStr "/node_modules/"]) [("4294967295", VStr ".macro.js$")] Extensible).
Proof. by vm_compute. Qed.

Lemma other_keys_unchanged_witness :
  ∃ oc', st_heap (final (jest_config_body (H := cache_host) 4%positive) sample_state)
           !! 2%positive = Some oc'
    ∧ own_keys oc' = own_keys sample_config
    ∧ o_integrity oc' = o_integrity sample_config
    ∧ ∀ k, k ≠ patterns_key → own_prop oc' k = own_prop sample_config k.
Proof. apply (other_keys_unchanged (H := cache_host) _ _ _ _ _ _ _ sample_ready). Defined.

Lemma jest_config_frame_witness :
  frame {[2%positive; 4%positive]} sample_state
    (final (jest_config_body (H := cache_host) 4%positive) sample_state).
Proof. apply (jest_config_frame (H := cache_host) _ _ _ _ _ _ _ sample_ready). Defined.

Lemma require_failure_propagates_witness :
  jest_config_body (H := cache_host) 4%positive
    (store_with (VRef 2%positive) sample_config sample_module ∅)
  = (Throw (ModuleNotFound base_request),
     store_with (VRef 2%positive) sample_config sample_module ∅).
Proof. by apply (require_failure_propagates (H := cache_host)). Defined.

Lemma spread_failure_changes_nothing_witness :
  let s := store_with (VNum 42) sample_config sample_module sample_cache in
  jest_config_body (H := cache_host) 4%positive s
  = (Throw (TypeError NotIterable), with_heap s (abandoned_heap s))
  ∧ frame ∅ s (with_heap s (abandoned_heap s)).
Proof.
  intros s. by apply (spread_failure_changes_nothing (H := cache_host) _ s s (VNum 42)).
Defined.

Lemma nullish_base_type_error_witness :
  result (jest_config_body (H := cache_host) 4%positive)
    (store_with VNull sample_config sample_module sample_cache)
  = Throw (TypeError NullishBase).
Proof.
  apply (nullish_base_type_error (H := cache_host) _ _
           (store_with VNull sample_config sample_module sample_cache) VNull);
    [done|by right].
Defined.

Lemma missing_patterns_type_error_witness :
  let s := store_with (VRef 2%positive) bare_config sample_module sample_cache in
  result (jest_config_body (H := cache_host) 4%positive) s
  = Throw (TypeError NotIterable)
  ∧ st_heap (final (jest_config_body (H := cache_host) 4%positive) s) !! 2%positive
    = Some bare_config.
Proof.
  intros s.
  by apply (missing_patterns_type_error (H := cache_host) _ s s 2%positive bare_config).
Defined.

Lemma frozen_base_type_error_witness :
  let s := store_with (VRef 2%positive) frozen_config sample_module sample_cache in
  jest_config_body (H := cache_host) 4%positive s
  = (Throw (TypeError ReadOnly), with_heap s (literal_heap s sample_patterns))
  ∧ frame ∅ s (with_heap s (literal_heap s sample_patterns)).
Proof.
  intros s.
  by apply (frozen_base_type_error (H := cache_host) _ s s 2%positive frozen_config).
Defined.

Lemma refused_export_is_silent_witness :
  let s := store_with (VRef 2%positive) sample_config frozen_module sample_cache in
  jest_config_body (H := cache_host) 4%positive s
  = (Return (), with_heap s (<[2%positive:=merged_config s sample_config]>
                               (literal_heap s sample_patterns)))
  ∧ module_exports 4%positive (final (jest_config_body (H := cache_host) 4%positive) s)
    = module_exports 4%positive s.
Proof.
  intros s.
  by apply (refused_export_is_silent (H := cache_host) _ s s 2%positive
              sample_config frozen_module sample_patterns ReadOnly).
Defined.

Lemma string_patterns_are_spread_witness :
  let s := store_with (VRef 2%positive) string_config sample_module sample_cache in
  patterns_of (final (jest_config_body (H := cache_host) 4%positive) s) (VRef 2%positive)
  = Some [VStr "l"; VStr "i"; VStr "b";
          VStr ".macro.js$"; VStr "<rootDir>/src/stateChangeTypes.js"].
Proof.
  intros s.
  apply (string_patterns_are_spread (H := cache_host) 4%positive 2%positive s s
           string_config sample_module (chars "lib") "lib"); by try split; vm_compute.
Defined.
