(* ===== verification/Invariant.v ===== *)
(** * Invariant: the module keeps the store well formed, on every host

    The theorems of [JestConfig] describe the runs of the module from a
    store in which [require] has a known answer.  Those of this file assume
    nothing of the answer: they hold for every [ModuleHost], every value
    that [require] may return and every well-formed store.

    - the module preserves [state_wf], whether it completes normally or
      raises, and the values its caller holds stay valid;
    - the module stays inside the modelled fragment of the language: an
      exception it raises is a JavaScript exception ([TypeError], or what
      [require] raised), never [OutOfFragment].  The cases the model does
      not represent (dangling references, sparse arrays, a write to the
      [length] of an array, a wrapper object as the target of
      [Object.assign]) are not reachable from [jest.config.js]. *)

From S2P Require Import Prelude Exec Props Heap Objects Builtins Host JestConfig.

(** The statements that follow [require], for [jestConfig = jc]. *)
Local Abbreviation after_require module jc :=
  (overrides_literal jc ≫= λ overrides,
   object_assign jc [overrides] ≫= λ merged,
   set_member false module "exports" merged).

(** ** The spread in a well-formed store *)

Section spread.
Context (keep : list value) (s : state) (jc : value).
Context (Hok : ok_state keep s) (Hjc : jc ∈ keep).

(** The values the spread yields are valid. *)
Lemma base_items_ok items :
  base_items s jc = Return items → Forall (value_ok (st_heap s)) items.
Proof.
  intros [(e & _ & ?)|(b & Hg & Hi)]%base_items_inv; [done|].
  pose proof (hoare_run_return _ _ _ _ _ _ _ (hoare_get_member keep jc _ Hjc) Hok Hg) as Hb.
  pose proof (hoare_run_return _ _ _ _ _ _ _
                (hoare_iterate (b :: keep) b ltac:(by left)) Hb Hi) as [_ Hk].
  by apply Forall_app in Hk as [? _].
Qed.

(** When it raises, it raises a [TypeError]. *)
Lemma base_items_throw e : base_items s jc = Throw e → is_js_exception e = true.
Proof.
  intros [(e' & Hg & [= <-])|(b & Hg & Hi)]%base_items_inv.
  - by destruct (hoare_run_throw _ _ _ _ _ _ _ (hoare_get_member keep jc _ Hjc) Hok Hg)
      as [_ ->].
  - pose proof (hoare_run_return _ _ _ _ _ _ _ (hoare_get_member keep jc _ Hjc) Hok Hg) as Hb.
    by destruct (hoare_run_throw _ _ _ _ _ _ _
                   (hoare_iterate (b :: keep) b ltac:(by left)) Hb Hi) as [_ ->].
Qed.

End spread.

(** ** The stores the literals leave *)

Section literals.
Context (keep : list value) (s : state).
Context (Hok : ok_state keep s).

Lemma new_patterns_wf h items :
  Forall (value_ok h) items → object_wf h (new_patterns items).
Proof.
  intros Hitems. apply object_wf_push_all; auto with js.
  apply Forall_app. split; [done|]. by repeat constructor.
Qed.

Lemma overrides_wf h p :
  value_ok h (VRef p) → object_wf h (plain_object [(patterns_key, VRef p)]).
Proof.
  intros Hp. split_and!; cbn; [auto with js|by repeat constructor|done..].
Qed.

(** After the two literals: the store is well formed and the two new
    references are valid. *)
Lemma literal_heap_ok items :
  Forall (value_ok (st_heap s)) items →
  ok_state (VRef (overrides_loc s) :: VRef (patterns_loc s) :: keep)
    (with_heap s (literal_heap s items)).
Proof.
  intros Hitems. unfold literal_heap.
  rewrite <- (with_heap_with_heap s (<[patterns_loc s:=new_patterns items]> (st_heap s))).
  apply (ok_state_insert _ (with_heap s _)).
  - apply ok_state_insert; [done|]. apply new_patterns_wf.
    eapply Forall_impl; [done|]. intros v. apply value_ok_insert.
  - apply overrides_wf, value_ok_insert, value_ok_ref_insert.
Qed.

(** After an abrupt completion of the spread: the two empty objects. *)
Lemma abandoned_heap_ok : ok_state keep (with_heap s (abandoned_heap s)).
Proof.
  unfold abandoned_heap.
  rewrite <- (with_heap_with_heap s (<[overrides_loc s:=plain_object []]> (st_heap s))).
  apply (ok_state_weaken (VRef (patterns_loc s) :: VRef (overrides_loc s) :: keep));
    [by do 2 apply list_subseteq_cons|].
  apply (ok_state_insert _ (with_heap s _)); auto with js.
Qed.

End literals.

(** ** The module *)

(** An abrupt completion that leaves the store well formed and carries a
    JavaScript exception. *)
Definition safe_exit (keep : list value) (e : js_error) (s : state) : Prop :=
  ok_state keep s ∧ is_js_exception e = true.

(** The statements after [require].  Either the spread raises and nothing
    is assigned, or the two writes run on the store the literals left; both
    keys are ordinary names, so neither write leaves the model, and the
    write to [module.exports] is not strict, so it does not raise. *)
Lemma hoare_after_require keep module jc :
  VRef module ∈ keep → jc ∈ keep →
  hoare (ok_state keep) (after_require module jc) (λ _, ok_state keep) (safe_exit keep).
Proof.
  intros Hm Hjc s Hok. destruct (base_items s jc) as [items|e] eqn:Hb.
  - destruct (base_items_Return _ _ _ Hb) as (cfg & oc & -> & Hc & _).
    rewrite (run_after_require_assign module s cfg items Hb).
    pose proof (literal_heap_ok keep s Hok items (base_items_ok _ _ _ Hok Hjc _ Hb)) as Hok1.
    set (keep1 := _ :: _ :: keep) in Hok1.
    assert (keep ⊆ keep1) as Hsub by (by do 2 apply list_subseteq_cons).
    pose proof (hoare_set_member keep1 true cfg patterns_key (VRef (patterns_loc s))
                  ltac:(set_solver) ltac:(set_solver) _ Hok1) as H1.
    destruct (set_member true cfg _ _ _) as [[[]|e] s2].
    + pose proof (hoare_set_member keep1 false module "exports" (VRef cfg)
                    ltac:(set_solver) ltac:(set_solver) _ H1) as H2.
      destruct (set_member false module _ _ s2) as [[[]|e] s3].
      * by eapply ok_state_weaken.
      * destruct H2 as [_ H2]. by destruct H2; auto with js.
    + destruct H1 as [H1 He]. split; [by eapply ok_state_weaken|].
      apply He; auto with js.
  - pose proof (base_items_throw _ _ _ Hok Hjc _ Hb) as He.
    rewrite (run_after_require_throw module s jc e Hb He).
    split; [by apply abandoned_heap_ok|done].
Qed.

(** What the statements after [require] may change: the base
    configuration and the module object. *)
Lemma after_require_frame keep module jc s :
  ok_state keep s → jc ∈ keep →
  frame (cells_of jc ∪ {[module]}) s (final (after_require module jc) s).
Proof.
  intros Hok Hjc. unfold final. destruct (base_items s jc) as [items|e] eqn:Hb.
  - destruct (base_items_Return _ _ _ Hb) as (cfg & oc & -> & Hc & _).
    rewrite (run_after_require_assign module s cfg items Hb).
    set (M := cells_of (VRef cfg) ∪ {[module]}). set (s1 := with_heap s _).
    assert (frame M s s1) as H0 by (eapply frame_mono; [|apply literal_frame]; set_solver).
    pose proof (relates_set_member M true cfg patterns_key (VRef (patterns_loc s))
                  ltac:(set_solver) s1) as H1. unfold final in H1.
    destruct (set_member true cfg _ _ s1) as [[[]|e] s2]; cbn [snd] in *;
      [|by transitivity s1].
    pose proof (relates_set_member M false module "exports" (VRef cfg)
                  ltac:(set_solver) s2) as H2.
    transitivity s1; [done|]. by transitivity s2.
  - rewrite (run_after_require_throw module s jc e Hb (base_items_throw _ _ _ Hok Hjc _ Hb)).
    eapply frame_mono; [|apply abandoned_frame]. set_solver.
Qed.

(** ** The outcome, case by case *)

(** Is [v] a frozen object of [s]? *)
Definition frozen_at (s : state) (v : value) : bool :=
  match v with
  | VRef l => bool_decide (o_integrity <$> st_heap s !! l = Some Frozen)
  | _ => false
  end.

(** The outcome of the statements after [require], read off the store
    [require] left: the exception of the spread if it raises, the
    [TypeError] of [Object.assign] if the base configuration is frozen, and
    a normal completion otherwise. *)
Definition expected_outcome (s : state) (jc : value) : outcome () :=
  match base_items s jc with
  | Throw e => Throw e
  | Return _ => if frozen_at s jc then Throw (TypeError ReadOnly) else Return ()
  end.

Lemma after_require_outcome keep module jc s :
  ok_state keep s → VRef module ∈ keep → jc ∈ keep →
  result (after_require module jc) s = expected_outcome s jc.
Proof.
  intros Hok Hm Hjc. unfold expected_outcome, result.
  destruct (base_items s jc) as [items|e] eqn:Hb.
  - destruct (base_items_Return _ _ _ Hb) as (cfg & oc & -> & Hc & _).
    unfold frozen_at. rewrite Hc. cbn [fmap option_fmap option_map].
    case_bool_decide as Hf.
    + by rewrite (run_after_require_frozen module s cfg oc items Hc Hb) by congruence.
    + rewrite (run_after_require_merged module s cfg oc items Hc Hb) by congruence.
      apply result_set_member_sloppy; [|auto with js]. cbn.
      destruct (ok_state_lookup _ _ _ Hok Hm) as (om & Hom & _).
      apply lookup_insert_is_Some'. right. by rewrite (literal_heap_used _ _ _ _ Hom).
  - by rewrite (run_after_require_throw module s jc e Hb (base_items_throw _ _ _ Hok Hjc _ Hb)).
Qed.

(** [module_state keep module s]: the store when the module starts.  It is
    well formed, the module object exists, and the values [keep] that the
    caller holds are valid. *)
Definition module_state (keep : list value) (module : loc) (s : state) : Prop :=
  ok_state (VRef module :: keep) s.

#[export] Instance module_state_dec keep module s : Decision (module_state keep module s).
Proof. unfold module_state. apply _. Defined.

Section module.
Context `{ModuleHost}.
Context (keep : list value) (module : loc).

Lemma hoare_jest_config_body :
  hoare (module_state keep module) (jest_config_body module)
    (λ _, module_state keep module) (safe_exit (VRef module :: keep)).
Proof.
  unfold jest_config_body. eapply hoare_bind; [apply (host_require_ok (VRef module :: keep))|].
  intros jc. eapply hoare_conseq.
  - apply (hoare_after_require (jc :: VRef module :: keep) module jc); set_solver.
  - done.
  - intros [] s. apply ok_state_weaken, list_subseteq_cons. done.
  - intros e s [Hok He]. split; [|done].
    eapply ok_state_weaken; [|done]. by apply list_subseteq_cons.
Qed.


(** C19.  Safety.  On every host, from every well-formed store, the module
    stays inside the modelled fragment: it completes normally or raises a
    JavaScript exception, never [OutOfFragment].  No dangling reference is
    read, no sparse array is created, no [length] is written and
    [Object.assign] is never called on a primitive target. *)
Theorem jest_config_in_fragment s :
  module_state keep module s →
  is_js_exception_outcome (result (jest_config_body module) s) = true.
Proof.
  intros Hok. pose proof (hoare_jest_config_body s Hok) as Hs. unfold result.
  by destruct (jest_config_body module s) as [[[]|e] s']; [|destruct Hs].
Qed.

(** C20.  Footprint.  On every host and from every well-formed store,
    whatever the outcome: once [require] has returned [jestConfig], the
    module changes no object other than [jestConfig] and the module object,
    loses none and leaves the module cache as it is; and when [require]
    raises, the module stops there. *)
Theorem jest_config_footprint s0 :
  module_state keep module s0 →
  match host_require base_request s0 with
  | (Return jestConfig, s) =>
      frame (cells_of jestConfig ∪ {[module]}) s (final (jest_config_body module) s0)
  | (Throw _, s) => final (jest_config_body module) s0 = s
  end.
Proof.
  intros Hok. pose proof (host_require_ok _ base_request s0 Hok) as Hs.
  unfold final at 1 2, jest_config_body. rewrite run_bind.
  destruct (host_require base_request s0) as [[jc|e] s]; [|done].
  apply (after_require_frame (jc :: VRef module :: keep)); [done|by left].
Qed.

(** C5.  The outcome on every branch.  On every host and from every
    well-formed store the outcome of the module is determined by what
    [require] does: its exception if it raises; otherwise the exception of
    the member read or of the spread if [jestConfig.coveragePathIgnorePatterns]
    cannot be read or iterated, [TypeError] if the base configuration is
    frozen, and a normal completion in every other case.  There is no other
    way for the module to fail. *)
Theorem jest_config_outcome s0 :
  module_state keep module s0 →
  result (jest_config_body module) s0
  = match host_require base_request s0 with
    | (Return jestConfig, s) => expected_outcome s jestConfig
    | (Throw e, _) => Throw e
    end.
Proof.
  intros Hok. pose proof (host_require_ok _ base_request s0 Hok) as Hs.
  unfold result at 1, jest_config_body. rewrite run_bind.
  destruct (host_require base_request s0) as [[jc|e] s]; [|done].
  apply (after_require_outcome (jc :: VRef module :: keep)); [done|set_solver..].
Qed.

End module.

(** ** Instances on the store of [JestConfig] *)

Lemma sample_state_ok : module_state [] 4%positive sample_state.
Proof. by_compute. Defined.


Lemma jest_config_in_fragment_witness :
  is_js_exception_outcome
    (result (jest_config_body (H := cache_host) 4%positive) sample_state) = true.
Proof. exact (jest_config_in_fragment (H := cache_host) _ _ _ sample_state_ok). Defined.

Lemma jest_config_footprint_witness :
  frame {[2%positive; 4%positive]} sample_state
    (final (jest_config_body (H := cache_host) 4%positive) sample_state).
Proof. exact (jest_config_footprint (H := cache_host) _ _ _ sample_state_ok). Defined.

Lemma jest_config_outcome_witness :
  result (jest_config_body (H := cache_host) 4%positive) sample_state = Return ().
Proof. exact (jest_config_outcome (H := cache_host) _ _ _ sample_state_ok). Defined.
