(* ===== verification/Compose.v ===== *)
(** * Compose: the composer of the specification, and the module against it

    The specification describes the module as an instance of a pure
    function [compose base overrides] on configurations: sequence-valued
    settings are appended, the others replaced, every other setting of the
    base passes through.  There is no such function in the source; this
    file models it from the specification and relates the module to it.

    - [setting], [configuration], [compose]: the specification's data model
      and contract; [compose_times], [compose] applied again to its result;
    - [config_of s v]: the configuration that the object [v] denotes in the
      store [s] (its named properties, an array read as a sequence);
    - refinement: from a store in which the base configuration holds an
      array of patterns and is not frozen, the configuration the module
      exports is [compose] of the base configuration and [module_overrides];
    - the places where the module is not [compose]: it changes its input,
      it raises on a base without patterns where [compose] appends to the
      empty sequence, and it raises [TypeError] where [compose] raises
      [InvalidConfigurationError]. *)

From S2P Require Import Prelude Exec Props Heap Objects Builtins Host JestConfig.

(** ** The specification's model *)

(** A setting is an ordered sequence or anything else (a scalar, a nested
    configuration), kept as the value it is. *)
Inductive setting :=
| Seq (items : list value)
| Scalar (v : value).

#[export] Instance setting_eq_dec : EqDecision setting.
Proof. solve_decision. Defined.

Abbreviation configuration := (gmap string setting).

Inductive compose_error := InvalidConfigurationError.

(** One key: append to a sequence (a missing base setting counts as the
    empty sequence), replace otherwise. *)
Definition combine (base : option setting) (override : setting) : setting :=
  match base, override with
  | Some (Seq xs), Seq ys => Seq (xs ++ ys)
  | None, Seq ys => Seq ([] ++ ys)
  | _, _ => override
  end.

Definition compose_key (base override : option setting) : option setting :=
  match override with
  | Some o => Some (combine base o)
  | None => base
  end.

(** [compose base overrides]; [None] stands for a base that is not a
    mapping. *)
Definition compose (base : option configuration) (overrides : configuration) :
    compose_error + configuration :=
  match base with
  | None => inl InvalidConfigurationError
  | Some b => inr (merge compose_key b overrides)
  end.

(** The override directive of [jest.config.js]. *)
Definition module_overrides : configuration :=
  {[ "coveragePathIgnorePatterns" :=
       Seq [VStr ".macro.js$"; VStr "<rootDir>/src/stateChangeTypes.js"] ]}.

(** ** From stores to configurations *)

(** The elements of the array at [l], if [l] holds an array. *)
Definition elems_at (s : state) (l : loc) : option (list value) :=
  st_heap s !! l ≫= o_elems.

Definition setting_of (s : state) (v : value) : setting :=
  match v with
  | VRef l => from_option Seq (Scalar v) (elems_at s l)
  | _ => Scalar v
  end.

Definition config_of (s : state) (v : value) : option configuration :=
  match v with
  | VRef l => o ← st_heap s !! l; Some (setting_of s <$> to_map (o_props o))
  | _ => None
  end.

(** ** The contract of [compose] *)

Implicit Types (b o : configuration) (k : string).

Lemma lookup_compose b o k :
  merge compose_key b o !! k = compose_key (b !! k) (o !! k).
Proof. rewrite lookup_merge. by destruct (b !! k), (o !! k). Qed.

(** Every key of the base is a key of the result. *)
Lemma compose_keys b o : dom b ⊆ dom (merge compose_key b o).
Proof.
  intros k [x Hk]%elem_of_dom. apply elem_of_dom. rewrite lookup_compose, Hk.
  by destruct (o !! k).
Qed.

(** A key absent from the overrides passes through. *)
Lemma compose_absent b o k : o !! k = None → merge compose_key b o !! k = b !! k.
Proof. intros Hk. by rewrite lookup_compose, Hk. Qed.

(** Sequences are appended. *)
Lemma compose_append b o k xs ys :
  b !! k = Some (Seq xs) → o !! k = Some (Seq ys) →
  merge compose_key b o !! k = Some (Seq (xs ++ ys)).
Proof. intros Hb Ho. by rewrite lookup_compose, Hb, Ho. Qed.

(** Composing with no override is a no-op. *)
Lemma compose_empty b : merge compose_key b ∅ = b.
Proof. apply map_eq. intros k. by rewrite lookup_compose, lookup_empty. Qed.

(** One override: the setting of its key is combined, the others are kept. *)
Lemma compose_override b k st :
  merge compose_key b {[ k := st ]} = <[k:=combine (b !! k) st]> b.
Proof.
  apply map_eq. intros k'. rewrite lookup_compose.
  destruct (decide (k' = k)) as [->|Hne].
  - by rewrite lookup_singleton_eq, lookup_insert_eq.
  - by rewrite lookup_singleton_ne, lookup_insert_ne.
Qed.

(** One override of a sequence that the base has: an insertion. *)
Lemma compose_singleton b k xs ys :
  b !! k = Some (Seq xs) →
  merge compose_key b {[ k := Seq ys ]} = <[k:=Seq (xs ++ ys)]> b.
Proof. intros Hb. by rewrite compose_override, Hb. Qed.

(** ** Composing again

    [compose] applied [n] times with the same overrides, each result being
    the base of the next. *)
Fixpoint compose_times (n : nat) (base : option configuration)
    (overrides : configuration) : compose_error + configuration :=
  match n, base with
  | 0, Some b => inr b
  | 0, None => inl InvalidConfigurationError
  | S n, _ =>
      match compose base overrides with
      | inr c => compose_times n (Some c) overrides
      | inl e => inl e
      end
  end.

(** What [n] evaluations of the module append. *)
Definition appended (n : nat) : list value := mjoin (replicate n extra_patterns).

Lemma length_appended n : length (appended n) = 2 * n.
Proof.
  induction n as [|n IH]; [done|].
  change (appended (S n)) with (extra_patterns ++ appended n).
  rewrite length_app, IH. cbn [length extra_patterns]. lia.
Qed.

Lemma compose_times_one base o : compose_times 1 base o = compose base o.
Proof. cbn. by destruct (compose base o). Qed.

(** On a base with a sequence of patterns, [n] compositions with the
    directive of the module append its patterns [n] times. *)
Lemma compose_times_seq n b xs :
  b !! patterns_key = Some (Seq xs) →
  compose_times n (Some b) module_overrides
  = inr (<[patterns_key:=Seq (xs ++ appended n)]> b).
Proof.
  revert b xs. induction n as [|n IH]; intros b xs Hb.
  - cbn. by rewrite app_nil_r, insert_id.
  - cbn [compose_times compose]. unfold module_overrides at 1.
    rewrite (compose_singleton _ _ xs) by done.
    rewrite (IH _ (xs ++ extra_patterns)) by apply lookup_insert_eq.
    change (appended (S n)) with (extra_patterns ++ appended n).
    by rewrite insert_insert_eq, <- app_assoc.
Qed.

(** ** The store the module leaves, as a configuration *)

Lemma run_iterate_ref_inv s p items s' :
  iterate (VRef p) s = (Return items, s') → elems_at s p = Some items.
Proof.
  unfold elems_at. cbn [iterate]. destruct (st_heap s !! p) as [op|] eqn:Hp.
  - run_read Hp. cbn.
    by destruct (o_elems op); intros [= <- <-].
  - by run_read Hp.
Qed.

Section refinement.
Context `{ModuleHost}.
Context (module cfg : loc) (s0 s : state) (oc om : object) (items : list value).
Context (Hready : ready module cfg s0 s oc om items).

Local Abbreviation s' := (exported_state s module cfg oc om items).

(** The module changes the elements of no array. *)
Lemma elems_at_exported l :
  is_Some (st_heap s !! l) → elems_at s' l = elems_at s l.
Proof.
  intros [o Hl]. unfold elems_at. destruct (decide (l = module)) as [->|Hm].
  - erewrite exported_state_module, ready_module by done. done.
  - destruct (decide (l = cfg)) as [->|Hc].
    + erewrite exported_state_config, ready_config by done. done.
    + by erewrite exported_state_other, Hl by done.
Qed.

Lemma setting_of_exported v :
  value_ok (st_heap s) v → setting_of s' v = setting_of s v.
Proof. destruct v as [| | | | |l]; try done. intros Hl. cbn. by rewrite elems_at_exported. Qed.

Context (Hbound : (N.of_nat (length items + 2) ≤ max_array_index + 1)%N).

Lemma setting_of_new_patterns :
  setting_of s' (VRef (patterns_loc s)) = Seq (items ++ extra_patterns).
Proof.
  unfold setting_of, elems_at. erewrite exported_state_patterns by done.
  by rewrite new_patterns_within.
Qed.

(** The exported configuration: the base configuration with the extended
    sequence under the patterns key. *)
Lemma config_of_exported :
  object_wf (st_heap s) oc →
  config_of s' (VRef cfg)
  = Some (<[patterns_key:=Seq (items ++ extra_patterns)]>
            (setting_of s <$> to_map (o_props oc))).
Proof.
  intros (_ & Hvs & _). unfold config_of. erewrite exported_state_config by done.
  cbn [mbind option_bind merged_config with_props o_props]. f_equal.
  rewrite to_map_set, fmap_insert, setting_of_new_patterns. f_equal.
  apply map_fmap_ext. intros k v Hk. apply setting_of_exported.
  eapply Forall_snd_elem; [done|]. by apply elem_of_list_to_map_2.
Qed.

End refinement.

(** ** The module implements [compose] *)

Section claims.
Context `{ModuleHost}.
Context (module cfg : loc) (s0 s : state) (oc om : object) (items : list value).
Context (Hready : ready module cfg s0 s oc om items).

Lemma config_of_base :
  config_of s (VRef cfg) = Some (setting_of s <$> to_map (o_props oc)).
Proof. unfold config_of. by rewrite (ready_config _ _ _ _ _ _ _ Hready). Qed.

(** When the base patterns are held by reference, they are an array and the
    base configuration has them as a sequence. *)
Lemma base_patterns_seq p :
  prop_get (o_props oc) patterns_key = Some (VRef p) →
  (setting_of s <$> to_map (o_props oc)) !! patterns_key = Some (Seq items).
Proof.
  intros Hk. rewrite lookup_fmap, <- prop_get_to_map, Hk. cbn.
  destruct (base_items_Return _ _ _ (ready_items _ _ _ _ _ _ _ Hready))
    as (cfg' & oc' & [= <-] & Hc & Hi).
  rewrite (ready_config _ _ _ _ _ _ _ Hready) in Hc. injection Hc as <-.
  rewrite (object_get_present _ _ (VRef p)) in Hi
    by (done || by rewrite own_prop_named by apply patterns_key_named).
  by rewrite (run_iterate_ref_inv _ _ _ _ Hi).
Qed.

Context (p : loc) (Hp : prop_get (o_props oc) patterns_key = Some (VRef p)).
Context (Hbound : (N.of_nat (length items + 2) ≤ max_array_index + 1)%N).
Context (Hwf : state_wf s).

Lemma config_of_final :
  config_of (final (jest_config_body module) s0) (VRef cfg)
  = Some (<[patterns_key:=Seq (items ++ extra_patterns)]>
            (setting_of s <$> to_map (o_props oc))).
Proof.
  rewrite (ready_final _ _ _ _ _ _ _ Hready).
  apply (config_of_exported _ _ _ _ _ _ _ Hready Hbound).
  eapply heap_wf_lookup; [apply Hwf|apply Hready].
Qed.

(** C6.  Refinement.  From a well-formed store in which the base
    configuration is not frozen and holds its patterns in an array, the
    module implements the composer of the specification: the configuration
    it exports is [compose] of the base configuration, as it was when
    [require] returned, and the override directive
    [{coveragePathIgnorePatterns: ['.macro.js$', '<rootDir>/src/stateChangeTypes.js']}]. *)
Theorem module_refines_compose :
  ∃ c, compose (config_of s (VRef cfg)) module_overrides = inr c
     ∧ module_exports module (final (jest_config_body module) s0)
       ≫= config_of (final (jest_config_body module) s0) = Some c.
Proof.
  eexists. split.
  - rewrite config_of_base. cbn [compose]. unfold module_overrides.
    by rewrite (compose_singleton _ _ items) by (by eapply base_patterns_seq).
  - pose proof config_of_final as Hc. rewrite (ready_final _ _ _ _ _ _ _ Hready) in Hc |- *.
    by rewrite module_exports_exported_state.
Qed.

(** C24.  The module is not a pure function of its input.  [compose] is a
    function: it leaves the base configuration as it is.  The module
    changes it: after the run the object that [require] returned denotes a
    configuration other than the one it denoted before. *)
Theorem module_mutates_input :
  config_of (final (jest_config_body module) s0) (VRef cfg) ≠ config_of s (VRef cfg).
Proof.
  rewrite config_of_final, config_of_base. intros [= Heq].
  apply (f_equal (.!! patterns_key)) in Heq.
  rewrite lookup_insert_eq, (base_patterns_seq p Hp) in Heq.
  injection Heq as Heq. apply (f_equal length) in Heq.
  rewrite length_app in Heq. cbn in Heq. lia.
Qed.

End claims.

(** ** Where the module is not [compose] *)

Section divergences.
Context `{ModuleHost}.
Context (module : loc) (s0 s : state).

(** What the spread raises on a value that is not an object. *)
Definition spread_error (jc : value) : type_error :=
  match jc with
  | VUndefined | VNull => NullishBase
  | _ => NotIterable
  end.

Lemma base_items_not_object jc :
  (∀ l, jc ≠ VRef l) → base_items s jc = Throw (TypeError (spread_error jc)).
Proof. intros Hjc. destruct jc; try done. by destruct (Hjc l). Qed.

(** C26.  A base without patterns.  When the base configuration has no
    [coveragePathIgnorePatterns], [compose] succeeds and the result has the
    two new patterns under that key; the module raises [TypeError]. *)
Theorem compose_appends_where_module_raises cfg oc :
  host_require base_request s0 = (Return (VRef cfg), s) →
  st_heap s !! cfg = Some oc → prop_get (o_props oc) patterns_key = None →
  (∃ c, compose (config_of s (VRef cfg)) module_overrides = inr c
        ∧ c !! "coveragePathIgnorePatterns"
          = Some (Seq [VStr ".macro.js$"; VStr "<rootDir>/src/stateChangeTypes.js"]))
  ∧ result (jest_config_body module) s0 = Throw (TypeError NotIterable).
Proof.
  intros Hr Hc Hk. split.
  - eexists. split; [unfold config_of; by rewrite Hc|].
    change "coveragePathIgnorePatterns" with patterns_key.
    by rewrite lookup_compose, lookup_fmap, <- prop_get_to_map, Hk.
  - unfold result, jest_config_body. run_step Hr.
    rewrite (run_after_require_throw _ _ _ (TypeError NotIterable)); [done| |done].
    apply (base_items_missing _ _ _ Hc).
    by rewrite own_prop_named by apply patterns_key_named.
Qed.

(** C27.  A base that is not a mapping.  When [require] returns a value
    that is not an object, [compose] fails with [InvalidConfigurationError];
    the module fails too, with the [TypeError] of the member read (for
    [undefined] and [null]) or of the spread (for the other primitives). *)
Theorem invalid_base_is_type_error jc :
  host_require base_request s0 = (Return jc, s) → (∀ l, jc ≠ VRef l) →
  compose (config_of s jc) module_overrides = inl InvalidConfigurationError
  ∧ result (jest_config_body module) s0 = Throw (TypeError (spread_error jc)).
Proof.
  intros Hr Hjc. split.
  - destruct jc; try done. by destruct (Hjc l).
  - unfold result, jest_config_body. run_step Hr.
    by rewrite (run_after_require_throw _ _ _ _ (base_items_not_object _ Hjc) eq_refl).
Qed.

End divergences.

(** ** Instances on the store of [JestConfig] *)

Lemma module_refines_compose_witness :
  let s' := final (jest_config_body (H := cache_host) 4%positive) sample_state in
  ∃ c, compose (config_of sample_state (VRef 2%positive)) module_overrides = inr c
     ∧ module_exports 4%positive s' ≫= config_of s' = Some c.
Proof.
  intros s'.
  apply (module_refines_compose (H := cache_host) _ _ _ _ _ _ _ sample_ready 3%positive).
  - done.
  - by vm_compute.
  - by_compute.
Defined.

Lemma module_mutates_input_witness :
  config_of (final (jest_config_body (H := cache_host) 4%positive) sample_state)
    (VRef 2%positive)
  ≠ config_of sample_state (VRef 2%positive).
Proof.
  apply (module_mutates_input (H := cache_host) _ _ _ _ _ _ _ sample_ready 3%positive).
  - done.
  - by vm_compute.
  - by_compute.
Defined.

Lemma compose_appends_where_module_raises_witness :
  let s := store_with (VRef 2%positive) bare_config sample_module sample_cache in
  (∃ c, compose (config_of s (VRef 2%positive)) module_overrides = inr c
        ∧ c !! "coveragePathIgnorePatterns"
          = Some (Seq [VStr ".macro.js$"; VStr "<rootDir>/src/stateChangeTypes.js"]))
  ∧ result (jest_config_body (H := cache_host) 4%positive) s
    = Throw (TypeError NotIterable).
Proof.
  intros s.
  by apply (compose_appends_where_module_raises (H := cache_host) _ s s 2%positive
              bare_config).
Defined.

Lemma invalid_base_is_type_error_witness :
  let s := store_with (VNum 42) sample_config sample_module sample_cache in
  compose (config_of s (VNum 42)) module_overrides = inl InvalidConfigurationError
  ∧ result (jest_config_body (H := cache_host) 4%positive) s
    = Throw (TypeError NotIterable).
Proof.
  intros s.
  by apply (invalid_base_is_type_error (H := cache_host) 4%positive s s (VNum 42)).
Defined.
