(* ===== verification/Sharing.v ===== *)
(** * Sharing: the module mutates an object it does not own

    [Object.assign(jestConfig, ...)] writes into the object that
    [require('kcd-scripts/jest')] returned.  Node keeps that object in its
    module cache, so the write is seen by every module that requires the
    same package afterwards, and it is applied again when [jest.config.js]
    is evaluated again.  This file follows the sequences of steps:

    - the module, then a [require] of the base: the same object comes back,
      with the extended patterns;
    - the module, then the module again on the store it left: the two
      patterns are appended a second time;
    - the module [n] times in a row: the configuration in the cache is
      then [compose] applied [n] times to the one that was there.

    The host is the module cache ([cache_host]). *)

From S2P Require Import Prelude Exec Props Heap Objects Builtins Host JestConfig.
From S2P Require Import Invariant Compose.

(** The module evaluated twice in a row. *)
Definition run_twice (module : loc) : exec state () :=
  jest_config_body (H := cache_host) module ;; jest_config_body (H := cache_host) module.

(** The module evaluated [n] times in a row. *)
Fixpoint run_times (n : nat) (module : loc) : exec state () :=
  match n with
  | 0 => mret ()
  | S n => jest_config_body (H := cache_host) module ;; run_times n module
  end.

Section sharing.
Context (module cfg : loc) (s : state) (oc om : object) (items : list value).
Context (Hready : ready (H := cache_host) module cfg s s oc om items).

Local Abbreviation s' := (exported_state s module cfg oc om items).

(** The cache still answers with the base configuration object. *)
Lemma exported_state_require : require base_request s' = (Return (VRef cfg), s').
Proof.
  destruct (run_require_inv _ _ _ _ (ready_require _ _ _ _ _ _ _ Hready))
    as (_ & m & o & Hm & Ho & Hv).
  destruct (decide (m = module)) as [->|Hmod].
  - erewrite run_require; [|done|by eapply exported_state_module].
    do 2 f_equal. apply (object_get_with_props_set om), exports_named.
  - destruct (decide (m = cfg)) as [->|Hcfg].
    + erewrite run_require; [|done|by eapply exported_state_config].
      unfold merged_config. rewrite object_get_with_props_set_ne by done.
      rewrite (ready_config _ _ _ _ _ _ _ Hready) in Ho. injection Ho as <-.
      by rewrite Hv.
    + erewrite run_require; [|done|by eapply exported_state_other]. by rewrite Hv.
Qed.

Context (Hbound : (N.of_nat (length items + 2) ≤ max_array_index + 1)%N).

Lemma exported_state_items : base_items s' (VRef cfg) = Return (items ++ extra_patterns).
Proof.
  eapply base_items_array.
  - by eapply exported_state_config.
  - unfold merged_config. rewrite own_prop_named by apply patterns_key_named.
    apply prop_get_set_eq.
  - by eapply exported_state_patterns.
  - by rewrite new_patterns_within.
Qed.

(** The store the module leaves is one from which it can run again. *)
Lemma ready_again :
  ready (H := cache_host) module cfg s' s'
    (merged_config s oc) (exporting_module om cfg) (items ++ extra_patterns).
Proof.
  split.
  - apply exported_state_require.
  - by eapply exported_state_config.
  - apply exported_state_items.
  - apply Hready.
  - by eapply exported_state_module.
  - apply Hready.
  - apply Hready.
Qed.

(** It is well formed if the store before was. *)
Lemma exported_state_wf : state_wf s → state_wf s'.
Proof.
  intros Hwf. assert (module_state [] module s) as Hok.
  { split; [done|]. constructor; [|done]. cbn.
    rewrite (ready_module _ _ _ _ _ _ _ Hready). by eexists. }
  apply (hoare_jest_config_body (H := cache_host)) in Hok.
  rewrite (ready_run _ _ _ _ _ _ _ Hready) in Hok. apply Hok.
Qed.

(** The configuration it holds: the one before, with the extended patterns. *)
Lemma exported_config_of c :
  state_wf s → config_of s (VRef cfg) = Some c →
  config_of s' (VRef cfg) = Some (<[patterns_key:=Seq (items ++ extra_patterns)]> c).
Proof.
  intros Hwf Hc. rewrite (config_of_base _ _ _ _ _ _ _ Hready) in Hc. injection Hc as <-.
  apply (config_of_exported _ _ _ _ _ _ _ Hready Hbound).
  eapply heap_wf_lookup; [apply Hwf|apply Hready].
Qed.

End sharing.

(** ** The module evaluated [n] times *)

Lemma run_twice_times module s : run_twice module s = run_times 2 module s.
Proof.
  unfold run_twice. cbn [run_times]. rewrite !run_bind.
  destruct (jest_config_body module s) as [[[]|e] s1]; [|done].
  rewrite run_bind. by destruct (jest_config_body module s1) as [[[]|e] s2].
Qed.

(** Every evaluation finds the store ready again, with the patterns the
    evaluations before it have left. *)
Lemma run_times_config module cfg n s oc om items c :
  ready (H := cache_host) module cfg s s oc om items → state_wf s →
  config_of s (VRef cfg) = Some c → c !! patterns_key = Some (Seq items) →
  (N.of_nat (length items + 2 * n) ≤ max_array_index + 1)%N →
  result (run_times n module) s = Return ()
  ∧ config_of (final (run_times n module) s) (VRef cfg)
    = Some (<[patterns_key:=Seq (items ++ appended n)]> c).
Proof.
  revert s oc om items c.
  induction n as [|n IH]; intros s oc om items c Hr Hwf Hc Hk Hb.
  { split; [done|]. unfold final. cbn. by rewrite app_nil_r, insert_id. }
  assert (N.of_nat (length items + 2) ≤ max_array_index + 1)%N as Hb1 by lia.
  unfold result, final. cbn [run_times]. run_step (ready_run _ _ _ _ _ _ _ Hr).
  destruct (IH _ _ _ _ _ (ready_again _ _ _ _ _ _ Hr Hb1)
              (exported_state_wf _ _ _ _ _ _ Hr Hwf)
              (exported_config_of _ _ _ _ _ _ Hr Hb1 c Hwf Hc)
              (lookup_insert_eq _ _ _)) as [Hres Hcfg].
  { rewrite length_app. cbn [length extra_patterns]. lia. }
  split; [exact Hres|]. unfold final in Hcfg. rewrite Hcfg.
  change (appended (S n)) with (extra_patterns ++ appended n).
  by rewrite insert_insert_eq, <- app_assoc.
Qed.

(** [required_patterns s]: the patterns that a module which requires the
    base configuration in [s] finds in it. *)
Definition required_patterns (s : state) : option (list value) :=
  match require "kcd-scripts/jest" s with
  | (Return v, s') => patterns_of s' v
  | _ => None
  end.

Section claims.
Context (module cfg : loc) (s : state) (oc om : object) (items : list value).
Context (Hready : ready (H := cache_host) module cfg s s oc om items).

(** C22.  Aliasing through the module cache.  Once the module has run, a
    [require] of [kcd-scripts/jest] from anywhere returns the object the
    module wrote into: its patterns are the base patterns followed by the
    two patterns of [jest.config.js].  The module has changed the
    configuration of every later user of the package, not only its own. *)
Theorem later_require_sees_extension :
  (N.of_nat (length items + 2) ≤ max_array_index + 1)%N →
  required_patterns (final (jest_config_body (H := cache_host) module) s)
  = Some (items ++ [VStr ".macro.js$"; VStr "<rootDir>/src/stateChangeTypes.js"]).
Proof.
  intros Hlen. rewrite (ready_final _ _ _ _ _ _ _ Hready). unfold required_patterns.
  change "kcd-scripts/jest" with base_request.
  rewrite (exported_state_require _ _ _ _ _ _ Hready).
  by apply (patterns_of_exported_state _ _ _ _ _ _ _ Hready).
Qed.

(** Evaluating the module again appends again.  When [jest.config.js]
    is evaluated a second time while the base configuration is still in the
    module cache, the exported patterns end with the two patterns twice: the
    first evaluation has changed the input of the second. *)
Theorem second_run_appends_again :
  (N.of_nat (length items + 4) ≤ max_array_index + 1)%N →
  patterns_of (final (run_twice module) s) (VRef cfg)
  = Some (items ++ [VStr ".macro.js$"; VStr "<rootDir>/src/stateChangeTypes.js";
                    VStr ".macro.js$"; VStr "<rootDir>/src/stateChangeTypes.js"]).
Proof.
  intros Hlen. unfold run_twice, final.
  run_step (ready_run _ _ _ _ _ _ _ Hready).
  assert (N.of_nat (length items + 2) ≤ max_array_index + 1)%N as Hlen1 by lia.
  rewrite (ready_run _ _ _ _ _ _ _ (ready_again _ _ _ _ _ _ Hready Hlen1)).
  cbn [snd].
  rewrite (patterns_of_exported_state _ _ _ _ _ _ _ (ready_again _ _ _ _ _ _ Hready Hlen1)).
  - by rewrite <- app_assoc.
  - rewrite length_app. cbn [length extra_patterns]. lia.
Qed.

(** C23.  Evaluating the module [n] times composes [n] times.  From a
    well-formed store in which the base configuration holds its patterns in
    an array, [n] evaluations of [jest.config.js] in a row all complete
    normally, and the configuration that is then in the module cache is
    [compose] applied [n] times to the one that was there, with the override
    directive of the source: every evaluation appends the two patterns once
    more. *)
Theorem repeated_runs_compose n p :
  state_wf s → prop_get (o_props oc) patterns_key = Some (VRef p) →
  (N.of_nat (length items + 2 * n) ≤ max_array_index + 1)%N →
  result (run_times n module) s = Return ()
  ∧ inr <$> config_of (final (run_times n module) s) (VRef cfg)
    = Some (compose_times n (config_of s (VRef cfg)) module_overrides).
Proof.
  intros Hwf Hp Hb.
  pose proof (config_of_base _ _ _ _ _ _ _ Hready) as Hc.
  pose proof (base_patterns_seq _ _ _ _ _ _ _ Hready p Hp) as Hk.
  destruct (run_times_config _ _ n _ _ _ _ _ Hready Hwf Hc Hk Hb) as [Hres Hcfg].
  by rewrite Hres, Hcfg, Hc, (compose_times_seq n _ items).
Qed.

End claims.

Lemma later_require_sees_extension_witness :
  required_patterns (final (jest_config_body (H := cache_host) 4%positive) sample_state)
  = Some [VStr "/node_modules/"; VStr "/__fixtures__/"; VStr "/__tests__/";
          VStr ".macro.js$"; VStr "<rootDir>/src/stateChangeTypes.js"].
Proof. apply (later_require_sees_extension _ _ _ _ _ _ sample_ready). by vm_compute. Defined.

Lemma second_run_appends_again_witness :
  patterns_of (final (run_twice 4%positive) sample_state) (VRef 2%positive)
  = Some [VStr "/node_modules/"; VStr "/__fixtures__/"; VStr "/__tests__/";
          VStr ".macro.js$"; VStr "<rootDir>/src/stateChangeTypes.js";
          VStr ".macro.js$"; VStr "<rootDir>/src/stateChangeTypes.js"].
Proof. apply (second_run_appends_again _ _ _ _ _ _ sample_ready). by vm_compute. Defined.

Lemma repeated_runs_compose_witness :
  result (run_times 3 4%positive) sample_state = Return ()
  ∧ inr <$> config_of (final (run_times 3 4%positive) sample_state) (VRef 2%positive)
    = Some (compose_times 3 (config_of sample_state (VRef 2%positive)) module_overrides).
Proof.
  apply (repeated_runs_compose _ _ _ _ _ _ sample_ready 3 3%positive);
    [by_compute|by vm_compute|by_compute].
Defined.
