(* ===== verification/Trans.v ===== *)
(** * Trans: transition systems

    What the machine of the module needs of a relation [R] on
    configurations, stated once for every relation, over the definitions of
    stdpp's [relations] ([rtc], [nsteps], [red], [nf], [sn], [wn],
    [deterministic]):

    - [eventually R P x]: every run from [x] reaches a configuration that
      satisfies [P], the inductive reading of "[P] eventually holds";
    - [invariant R I]: [I] is kept by every step, hence holds all along a
      run that starts in it;
    - termination by a measure into a well-founded order, and the pairs of
      numbers ordered lexicographically as such an order;
    - runs of a deterministic relation: the normal form and the number of
      steps that lead to it are unique. *)

From stdpp Require Export relations.
From S2P Require Import Prelude.

Section eventually.
Context {A : Type} (R : relation A).
Implicit Types (x y : A) (P Q I : A → Prop).

Inductive eventually (P : A → Prop) (x : A) : Prop :=
| eventually_now : P x → eventually P x
| eventually_later : red R x → (∀ y, R x y → eventually P y) → eventually P x.

Definition invariant (I : A → Prop) : Prop := ∀ x y, I x → R x y → I y.

Lemma eventually_trans P Q x :
  eventually P x → (∀ y, P y → eventually Q y) → eventually Q x.
Proof. induction 1 as [|x Hred _ IH]; intros HPQ; [auto|]. apply eventually_later; auto. Qed.

Lemma eventually_weaken P Q x :
  eventually P x → (∀ y, P y → Q y) → eventually Q x.
Proof. intros HP HPQ. eapply eventually_trans; [done|]. intros y Hy. by left; auto. Qed.

(** What holds eventually is reached. *)
Lemma eventually_reaches P x : eventually P x → ∃ y, rtc R x y ∧ P y.
Proof.
  induction 1 as [x Hx|x [y Hxy] _ IH]; [by exists x|].
  destruct (IH y Hxy) as (z & Hyz & Hz). exists z. split; [by eapply rtc_l|done].
Qed.

(** Along an invariant, what holds eventually holds together with it. *)
Lemma eventually_invariant P I x :
  invariant I → I x → eventually P x → eventually (λ y, I y ∧ P y) x.
Proof.
  intros HI Hx HP. induction HP as [x Hp|x Hred _ IH]; [by left|].
  apply eventually_later; [done|]. intros y Hxy. apply IH; [done|by eapply HI].
Qed.

Lemma invariant_rtc I x y : invariant I → I x → rtc R x y → I y.
Proof. intros HI Hx Hxy. induction Hxy as [|x y z Hxy _ IH]; [done|]. eauto. Qed.

(** ** Termination *)

(** A measure that every step lowers in a well-founded order. *)
Lemma sn_measure {B} (lt : relation B) (f : A → B) x :
  well_founded lt → (∀ y z, R y z → lt (f z) (f y)) → sn R x.
Proof.
  intros Hwf Hlt. remember (f x) as b eqn:Hb. revert x Hb.
  induction (Hwf b) as [b _ IH]. intros x ->.
  constructor. intros y Hxy. eapply IH; [by apply Hlt|done].
Qed.

(** Where a configuration either steps or is final, strong normalisation
    is "a final configuration is eventually reached". *)
Lemma sn_eventually_nf x :
  (∀ y, red R y ∨ nf R y) → sn R x → eventually (nf R) x.
Proof.
  intros Hdec. induction 1 as [x _ IH].
  destruct (Hdec x) as [Hred|Hnf]; [|by left].
  apply eventually_later; [done|]. intros y Hxy. by apply IH.
Qed.

(** ** Deterministic relations *)

(** Two runs of a deterministic relation that end in normal forms take
    the same number of steps and end in the same one. *)
Lemma nsteps_nf_unique n m x y z :
  deterministic R → nsteps R n x y → nf R y → nsteps R m x z → nf R z → n = m ∧ y = z.
Proof.
  intros Hdet Hy. revert m z.
  induction Hy as [|n x x' y Hx _ IH]; intros m z Hnfy Hz Hnfz.
  - inversion Hz as [|? ? x' ? Hx]; subst; [done|]. destruct Hnfy. by exists x'.
  - inversion Hz as [|m' ? x'' ? Hx' Hz']; subst; [destruct Hnfz; by exists x'|].
    rewrite <- (Hdet _ _ _ Hx Hx') in Hz'. by destruct (IH _ _ Hnfy Hz' Hnfz) as [-> ->].
Qed.

End eventually.

Arguments eventually_now {A R P x} _.
Arguments eventually_later {A R P x} _ _.

(** ** Pairs of numbers, ordered by the first and then by the second *)

Definition pair_lt (r r' : nat * nat) : Prop :=
  r.1 < r'.1 ∨ (r.1 = r'.1 ∧ r.2 < r'.2).

#[export] Instance pair_lt_dec r r' : Decision (pair_lt r r').
Proof. unfold pair_lt. apply _. Defined.

Lemma pair_lt_wf : well_founded pair_lt.
Proof.
  intros [a b]. revert b. induction (lt_wf a) as [a _ IHa]. intros b.
  induction (lt_wf b) as [b _ IHb]. constructor.
  intros [a' b'] [Hlt|[Heq Hlt]]; cbn in *; [by apply IHa|subst; by apply IHb].
Qed.
