(* ===== verification/Machine.v ===== *)
(** * Machine: the module body, one operation at a time

    [JestConfig.jest_config_body] gives the module as one computation.  This
    file gives the same nine lines as a transition system, in which every
    operation that reads or writes the store is a step of its own: the call
    of [require], the two allocations, the member read, the start of the
    spread, the store of each element, the property definition, the start
    of [Object.assign], the copy of each key and the assignment to
    [module.exports].

    A [point] says where control is and holds the values computed so far;
    [next] is the operation at a point, composed from the operations of
    [Builtins]; a [config] is a point with a store, or a completion; [step]
    is the transition relation and [run] iterates it with fuel.

    [rest p] is the computation that remains at [p], written with the
    definitions of [JestConfig]; a step never changes what remains
    ([step_outcome]), so the machine ends where [jest_config_body] does.
    [rank] orders the points; every step goes down in it, which gives
    termination from every configuration, whatever the host and the store.

    The second half of the file states what holds between the steps.
    [assertion p] is what is known of the store at [p], and [config_ok] adds
    that the store is well formed: both are kept by every step
    ([step_ok]).  [keyed p] says that, once line 5 has read and spread the
    patterns, [jestConfig] is an object that has the property, which no
    later write takes away ([step_keyed]).  [raise_site p] is what an
    exception raised at [p] can be: four operations can raise, the others
    are [quiet] ([next_raises]).
    [left] counts the steps that remain, [pristine] says that the objects
    [require] left are untouched while the literals are built
    ([step_pristine]).  The last sections state the theorems and apply them
    to [JestConfig.sample_state]. *)

From S2P Require Import Prelude Exec Props Heap Objects Builtins Host JestConfig.
From S2P Require Import Invariant Trans.

(** ** Program points *)

Inductive point :=
| AtRequire
| AtObject (jestConfig : value)
| AtArray (jestConfig : value) (o : loc)
| AtMember (jestConfig : value) (o a : loc)
| AtSpread (jestConfig : value) (o a : loc) (base : value)
| AtElement (jestConfig : value) (o a : loc) (i : N) (pending : list value)
| AtLiteral (jestConfig : value) (o a : loc) (i : N) (pending : list value)
| AtDefine (jestConfig : value) (o a : loc)
| AtAssign (jestConfig : value) (o : loc)
| AtCopy (to from : loc) (keys : list string)
| AtExport (merged : value).

#[export] Instance point_eq_dec : EqDecision point.
Proof. solve_decision. Defined.

(** ** The operation at a point

    [next module p] runs the operation at [p] and returns the point that
    follows, or [None] when the module body is finished.
    - [AtRequire]: line 1;
    - [AtObject], [AtArray]: the allocations of the object literal (line 3)
      and of the array literal (line 4);
    - [AtMember], [AtSpread]: line 5, the member read and the start of the
      iteration;
    - [AtElement]: line 5, the store of the next element of the spread, and,
      when none is left, the move to the elements of lines 6 and 7;
    - [AtLiteral]: lines 6 and 7, one element at a time;
    - [AtDefine]: the property definition of line 4;
    - [AtAssign], [AtCopy]: line 3, [Object.assign]: the target, the keys of
      the source, then one key at a time;
    - [AtExport]: line 3, the assignment to [module.exports]. *)
Definition next `{ModuleHost} (module : loc) (p : point) : exec state (option point) :=
  match p with
  | AtRequire =>
      jestConfig ← host_require base_request; mret (Some (AtObject jestConfig))
  | AtObject jc =>
      o ← alloc (plain_object []); mret (Some (AtArray jc o))
  | AtArray jc o =>
      a ← alloc (array_object []); mret (Some (AtMember jc o a))
  | AtMember jc o a =>
      base ← get_member jc patterns_key; mret (Some (AtSpread jc o a base))
  | AtSpread jc o a base =>
      items ← iterate base; mret (Some (AtElement jc o a 0 items))
  | AtElement jc o a i (v :: vs) =>
      create_data_property a (key_of_index i) v;;
      mret (Some (AtElement jc o a (i + 1) vs))
  | AtElement jc o a i [] =>
      mret (Some (AtLiteral jc o a i extra_patterns))
  | AtLiteral jc o a i (v :: vs) =>
      create_data_property a (key_of_index i) v;;
      mret (Some (AtLiteral jc o a (i + 1) vs))
  | AtLiteral jc o a i [] =>
      mret (Some (AtDefine jc o a))
  | AtDefine jc o a =>
      create_data_property o patterns_key (VRef a);; mret (Some (AtAssign jc o))
  | AtAssign jc o =>
      to ← to_object jc; src ← read_obj o; mret (Some (AtCopy to o (own_keys src)))
  | AtCopy to from (k :: ks) =>
      copy_prop to from k;; mret (Some (AtCopy to from ks))
  | AtCopy to from [] =>
      mret (Some (AtExport (VRef to)))
  | AtExport merged =>
      set_member false module "exports" merged;; mret None
  end.

(** ** Configurations and steps *)

Inductive config :=
| Running (p : point) (s : state)
| Done (s : state)
| Raised (e : js_error) (s : state).

#[export] Instance config_eq_dec : EqDecision config.
Proof. solve_decision. Defined.

Definition store_of (c : config) : state :=
  match c with
  | Running _ s | Done s | Raised _ s => s
  end.

Definition is_final (c : config) : bool :=
  match c with
  | Running _ _ => false
  | _ => true
  end.

(** The configuration a completion of [next] leads to. *)
Definition arrive (r : outcome (option point) * state) : config :=
  match r with
  | (Return (Some p), s) => Running p s
  | (Return None, s) => Done s
  | (Throw e, s) => Raised e s
  end.

(** The configuration that stands for a completion of the whole module. *)
Definition completed (r : outcome () * state) : config :=
  match r with
  | (Return _, s) => Done s
  | (Throw e, s) => Raised e s
  end.

Inductive step `{ModuleHost} (module : loc) : relation config :=
| step_next p s p' s' :
    next module p s = (Return (Some p'), s') →
    step module (Running p s) (Running p' s')
| step_done p s s' :
    next module p s = (Return None, s') →
    step module (Running p s) (Done s')
| step_raise p s e s' :
    next module p s = (Throw e, s') →
    step module (Running p s) (Raised e s').

(** The step as a function, and its iteration. *)
Definition step_of `{ModuleHost} (module : loc) (c : config) : option config :=
  match c with
  | Running p s => Some (arrive (next module p s))
  | _ => None
  end.

Fixpoint run `{ModuleHost} (module : loc) (fuel : nat) (c : config) : config :=
  match fuel with
  | 0 => c
  | S fuel' =>
      match step_of module c with
      | Some c' => run module fuel' c'
      | None => c
      end
  end.

(** The module starts at line 1. *)
Definition start (s : state) : config := Running AtRequire s.

(** ** What remains at a point

    [rest module p]: the rest of the module body from [p], as a computation
    made of the definitions of [Builtins] and [JestConfig]. *)
Definition rest `{ModuleHost} (module : loc) (p : point) : exec state () :=
  let export merged := set_member false module "exports" merged in
  let assign jc o := object_assign jc [VRef o] ≫= export in
  let define jc o a := create_data_property o patterns_key (VRef a);; assign jc o in
  let literal jc o a i vs := push_from a i vs;; define jc o a in
  let element jc o a i vs := push_from a i vs ≫= λ i', literal jc o a i' extra_patterns in
  match p with
  | AtRequire => jest_config_body module
  | AtObject jc => overrides_literal jc ≫= λ overrides,
                   object_assign jc [overrides] ≫= export
  | AtArray jc o => patterns_literal jc ≫= λ patterns,
                    create_data_property o patterns_key patterns;; assign jc o
  | AtMember jc o a => get_member jc patterns_key ≫= λ base,
                       iterate base ≫= element jc o a 0%N
  | AtSpread jc o a base => iterate base ≫= element jc o a 0%N
  | AtElement jc o a i vs => element jc o a i vs
  | AtLiteral jc o a i vs => literal jc o a i vs
  | AtDefine jc o a => define jc o a
  | AtAssign jc o => assign jc o
  | AtCopy to from ks => for_each (copy_prop to from) ks;; export (VRef to)
  | AtExport merged => export merged
  end.

(** The completion a configuration stands for. *)
Definition outcome_of `{ModuleHost} (module : loc) (c : config) : outcome () * state :=
  match c with
  | Running p s => rest module p s
  | Done s => (Return (), s)
  | Raised e s => (Throw e, s)
  end.

(** ** The order of the points

    [rank p] is the stage of [p] in the module and the number of list
    elements left at that stage. *)
Definition rank (p : point) : nat * nat :=
  match p with
  | AtRequire => (10, 0)
  | AtObject _ => (9, 0)
  | AtArray _ _ => (8, 0)
  | AtMember _ _ _ => (7, 0)
  | AtSpread _ _ _ _ => (6, 0)
  | AtElement _ _ _ _ vs => (5, length vs)
  | AtLiteral _ _ _ _ vs => (4, length vs)
  | AtDefine _ _ _ => (3, 0)
  | AtAssign _ _ => (2, 0)
  | AtCopy _ _ ks => (1, length ks)
  | AtExport _ => (0, 0)
  end.

Definition config_rank (c : config) : nat * nat :=
  match c with
  | Running p _ => (S (rank p).1, (rank p).2)
  | _ => (0, 0)
  end.

(** [run_cases with tac] compares two runs made of the same operations: it runs the
    sequences on both sides and splits on the completion of each operation
    in turn; [tac] unfolds the definitions that the operations expose. *)
Ltac run_case :=
  match goal with
  | |- context [match ?m ?s with (_, _) => _ end] =>
      lazymatch m with
      | context [match _ with _ => _ end] => fail
      | _ => destruct (m s) as [[?|?] ?]
      end
  end.

Tactic Notation "run_cases" "with" tactic3(tac) :=
  let norm := repeat (progress (tac; repeat rewrite run_bind; repeat rewrite run_ret)) in
  repeat (norm; run_case); norm;
  repeat match goal with u : () |- _ => destruct u end.

(** ** Steps *)

Section machine.
Context `{ModuleHost} (module : loc).
Implicit Types (p : point) (s : state) (c : config).

Lemma step_arrive p s : step module (Running p s) (arrive (next module p s)).
Proof. destruct (next module p s) as [[[p'|]|e] s'] eqn:E; cbn; by constructor. Qed.

Lemma step_inv c c' :
  step module c c' → ∃ p s, c = Running p s ∧ c' = arrive (next module p s).
Proof. destruct 1 as [p s p' s' E|p s s' E|p s e s' E]; exists p, s; by rewrite E. Qed.

Lemma step_of_spec c c' : step module c c' ↔ step_of module c = Some c'.
Proof.
  split.
  - intros (p & s & -> & ->)%step_inv. done.
  - destruct c as [p s| |]; cbn; intros ?; simplify_eq. apply step_arrive.
Qed.

Lemma step_deterministic : deterministic (step module).
Proof. intros c c1 c2 H1%step_of_spec H2%step_of_spec. congruence. Qed.

Lemma red_running p s : red (step module) (Running p s).
Proof. eexists. apply step_arrive. Qed.

Lemma final_nf c : is_final c = true ↔ nf (step module) c.
Proof.
  split.
  - intros Hc (c' & (p & s & -> & _)%step_inv). done.
  - destruct c as [p s| |]; [|done..]. intros []. apply red_running.
Qed.

Lemma red_or_nf c : red (step module) c ∨ nf (step module) c.
Proof.
  destruct c as [p s| |]; [left; apply red_running|right; by apply final_nf..].
Qed.

#[export] Instance red_step_dec c : Decision (red (step module) c).
Proof.
  refine (cast_if (decide (is_final c = false))).
  - destruct c; [apply red_running|done..].
  - by intros (c' & (p & s & -> & _)%step_inv).
Defined.

(** ** A step leaves what remains unchanged *)

(** What remains after the operation at a point. *)
Definition continue (op : option point) : exec state () :=
  match op with
  | Some p => rest module p
  | None => mret ()
  end.

Lemma rest_next p : rest module p ≡ next module p ≫= continue.
Proof.
  intros s.
  destruct p as [|jc|jc o|jc o a|jc o a b|jc o a i [|v vs]|jc o a i [|v vs]
                |jc o a|jc o|to from [|k ks]|merged]; cbn [rest next].
  all: unfold jest_config_body, overrides_literal, patterns_literal, object_assign.
  all: cbn [push_from for_each assign_from].
  all: run_cases with
         (cbn [continue rest push_from for_each assign_from];
          unfold overrides_literal, patterns_literal, object_assign).
  all: done.
Qed.

Lemma step_outcome c c' : step module c c' → outcome_of module c' = outcome_of module c.
Proof.
  intros (p & s & -> & ->)%step_inv. cbn [outcome_of].
  rewrite (rest_next p s), run_bind.
  by destruct (next module p s) as [[[p'|]|e] s'].
Qed.

Lemma rtc_outcome c c' :
  rtc (step module) c c' → outcome_of module c' = outcome_of module c.
Proof.
  induction 1 as [|c c1 c' Hstep _ IH]; [done|]. by rewrite IH, (step_outcome c c1).
Qed.

(** A final configuration is the completion it stands for. *)
Lemma completed_outcome c : is_final c = true → completed (outcome_of module c) = c.
Proof. by destruct c. Qed.

Lemma completed_final r : is_final (completed r) = true.
Proof. by destruct r as [[[]|e] s]. Qed.

(** ** Every step goes down *)

Lemma next_rank p s p' s' :
  next module p s = (Return (Some p'), s') → pair_lt (rank p') (rank p).
Proof.
  destruct p as [|jc|jc o|jc o a|jc o a b|jc o a i [|v vs]|jc o a i [|v vs]
                |jc o a|jc o|to from [|k ks]|merged]; cbn [next].
  all: run_cases with idtac.
  all: intros; simplify_eq; try (by left; cbn; lia); by right; cbn; lia.
Qed.

Lemma step_rank c c' : step module c c' → pair_lt (config_rank c') (config_rank c).
Proof.
  destruct 1 as [p s p' s' E|p s s' E|p s e s' E]; cbn; [|left; cbn; lia..].
  destruct (next_rank _ _ _ _ E) as [?|[? ?]]; [left|right]; cbn; lia.
Qed.

Lemma step_sn c : sn (step module) c.
Proof. eapply sn_measure; [apply pair_lt_wf|apply step_rank]. Qed.

(** The iteration follows the steps, and stops at a final configuration. *)
Lemma run_rtc fuel c : rtc (step module) c (run module fuel c).
Proof.
  revert c. induction fuel as [|fuel IH]; intros c; cbn; [done|].
  destruct (step_of module c) as [c'|] eqn:E; [|done].
  eapply rtc_l; [by apply step_of_spec|apply IH].
Qed.

Lemma run_final fuel c : is_final c = true → run module fuel c = c.
Proof. by destruct fuel, c. Qed.

Lemma run_nsteps n c c' : nsteps (step module) n c c' → run module n c = c'.
Proof.
  induction 1 as [|n c c1 c' Hstep%step_of_spec _ IH]; [done|]. cbn. by rewrite Hstep.
Qed.

Lemma run_add n m c : run module (n + m) c = run module m (run module n c).
Proof.
  revert c. induction n as [|n IH]; intros c; cbn; [done|].
  destruct (step_of module c) as [c'|] eqn:E; [apply IH|].
  destruct c; simplify_eq/=; by rewrite run_final.
Qed.

(** What a run reaches when it ends, and that it ends. *)
Lemma final_reached c c' :
  rtc (step module) c c' → is_final c' = true → c' = completed (outcome_of module c).
Proof. intros Hrtc Hf. by rewrite <- (rtc_outcome _ _ Hrtc), completed_outcome. Qed.

Lemma reaches_completed c :
  ∃ n, nsteps (step module) n c (completed (outcome_of module c)).
Proof.
  destruct (sn_wn c (step_sn c)) as (c' & Hrtc & Hnf%final_nf).
  rewrite <- (final_reached _ _ Hrtc Hnf). by apply rtc_nsteps.
Qed.

(** Every run ends. *)
Lemma eventually_final c : eventually (step module) (λ c', is_final c' = true) c.
Proof.
  eapply eventually_weaken; [apply sn_eventually_nf; [apply red_or_nf|apply step_sn]|].
  intros c'. apply final_nf.
Qed.



End machine.

(** ** Assertions at the points

    [held p] is the list of values a point holds.  [assertion p s] is what
    is known of the store at [p] beyond its being well formed: the object
    literal is still empty while the array is filled, the array is filled in
    order, [jestConfig] is an object once it has been read from, and the keys
    still to copy are ordinary names. *)

Definition held (p : point) : list value :=
  match p with
  | AtRequire => []
  | AtObject jc => [jc]
  | AtArray jc o => [jc; VRef o]
  | AtMember jc o a => [jc; VRef o; VRef a]
  | AtSpread jc o a base => [base; jc; VRef o; VRef a]
  | AtElement jc o a _ vs | AtLiteral jc o a _ vs => vs ++ [jc; VRef o; VRef a]
  | AtDefine jc o a => [jc; VRef o; VRef a]
  | AtAssign jc o => [jc; VRef o]
  | AtCopy to from _ => [VRef to; VRef from]
  | AtExport merged => [merged]
  end.

Definition is_ref (v : value) : Prop :=
  match v with
  | VRef _ => True
  | _ => False
  end.

#[export] Instance is_ref_dec v : Decision (is_ref v).
Proof. destruct v; apply _. Defined.

(** [filling s a i]: the cell [a] holds an array being filled in order, and
    [i] is the next index. *)
Definition filling (s : state) (a : loc) (i : N) : Prop :=
  ∃ oa, st_heap s !! a = Some oa ∧ growing oa i.

Definition assertion (p : point) (s : state) : Prop :=
  match p with
  | AtRequire | AtObject _ | AtExport _ => True
  | AtArray _ o => st_heap s !! o = Some (plain_object [])
  | AtMember _ o a =>
      o ≠ a ∧ st_heap s !! o = Some (plain_object []) ∧ filling s a 0
  | AtSpread jc o a base =>
      o ≠ a ∧ st_heap s !! o = Some (plain_object []) ∧ filling s a 0
      ∧ (is_ref jc ∨ base = VUndefined)
  | AtElement jc o a i _ | AtLiteral jc o a i _ =>
      o ≠ a ∧ st_heap s !! o = Some (plain_object []) ∧ filling s a i ∧ is_ref jc
  | AtDefine jc o a => st_heap s !! o = Some (plain_object []) ∧ is_ref jc
  | AtAssign jc o =>
      is_ref jc ∧ ∃ v, st_heap s !! o = Some (plain_object [(patterns_key, v)])
  | AtCopy _ _ ks => Forall named_key_ok ks
  end.

(** [solve_held] proves that a list of held values is included in another,
    where both are given by their elements. *)
Ltac solve_held :=
  try (intros ?); cbn [held app];
  repeat rewrite ?elem_of_cons, ?elem_of_app, ?elem_of_nil; tauto.

Section assertions.
Context `{ModuleHost} (module : loc) (keep : list value).
Implicit Types (p : point) (s : state) (c : config).

(** The store is well formed, what the point, the caller and the module
    system hold is valid, and the assertion of the point holds. *)
Definition point_ok (p : point) (s : state) : Prop :=
  ok_state (VRef module :: held p ++ keep) s ∧ assertion p s.

Definition config_ok (c : config) : Prop :=
  match c with
  | Running p s => point_ok p s
  | Done s => ok_state (VRef module :: keep) s
  | Raised e s => ok_state (VRef module :: keep) s ∧ is_js_exception e = true
  end.

(** [config_ok] of the configuration a completion of [next] leads to. *)
Definition after_ok (op : option point) (s : state) : Prop :=
  config_ok (arrive (Return op, s)).

Definition raised_ok (e : js_error) (s : state) : Prop :=
  config_ok (Raised e s).

(** An operation followed by the move to the next point. *)
Lemma hoare_then {A} (P : state → Prop) (m : exec state A) (f : A → point) :
  hoare P m (λ a, point_ok (f a)) raised_ok →
  hoare P (m ≫= λ a, mret (Some (f a))) after_ok raised_ok.
Proof. intros Hm. eapply hoare_bind; [done|]. intros a. by apply hoare_ret. Qed.

Lemma ok_state_held p p' s :
  held p' ⊆ held p → ok_state (VRef module :: held p ++ keep) s →
  ok_state (VRef module :: held p' ++ keep) s.
Proof.
  intros Hsub. apply ok_state_weaken. intros v. specialize (Hsub v). revert Hsub.
  solve_held.
Qed.

(** *** Lines 1 to 4: [require] and the allocations *)

Lemma next_ok_require : hoare (point_ok AtRequire) (next module AtRequire) after_ok raised_ok.
Proof.
  apply hoare_then. eapply hoare_conseq; [apply (host_require_ok (VRef module :: keep))|..].
  - intros s [Hok _]. exact Hok.
  - intros jc s Hok. split; [|done].
    apply (ok_state_weaken (jc :: VRef module :: keep)); [|exact Hok].
    solve_held.
  - done.
Qed.

(** Allocation at a point [p] that moves to [p'], which holds the new
    object besides. *)
Lemma alloc_ok p s ob :
  point_ok p s → (∀ h, object_wf h ob) →
  ∃ l s', alloc ob s = (Return l, s') ∧ st_heap s !! l = None
    ∧ st_heap s' = <[l:=ob]> (st_heap s)
    ∧ ok_state (VRef module :: (held p ++ [VRef l]) ++ keep) s'.
Proof.
  intros [Hok _] Hob. exists (fresh_loc (st_heap s)). eexists.
  split_and!; [apply run_alloc|apply fresh_loc_fresh|done|].
  eapply ok_state_weaken; [|apply (ok_state_insert _ _ _ ob Hok), Hob].
  solve_held.
Qed.

Lemma next_ok_object jc :
  hoare (point_ok (AtObject jc)) (next module (AtObject jc)) after_ok raised_ok.
Proof.
  apply hoare_then. intros s Hp.
  destruct (alloc_ok _ s (plain_object []) Hp object_wf_plain_nil)
    as (l & s' & -> & Hl & Hs' & Hok).
  split; [done|]. cbn. by rewrite Hs', lookup_insert_eq.
Qed.

Lemma next_ok_array jc o :
  hoare (point_ok (AtArray jc o)) (next module (AtArray jc o)) after_ok raised_ok.
Proof.
  apply hoare_then. intros s Hp.
  destruct (alloc_ok _ s (array_object []) Hp object_wf_array_nil)
    as (l & s' & -> & Hl & Hs' & Hok).
  destruct Hp as [_ Ho]. cbn in Ho. assert (o ≠ l) by congruence.
  split; [done|]. cbn. unfold filling. rewrite Hs'.
  split_and!; [done|by rewrite lookup_insert_ne|]. exists (array_object []).
  rewrite lookup_insert_eq. split; [done|apply growing_array_nil].
Qed.

(** *** Line 5: the member read and the spread *)

(** A member read on a value that is not an object finds no property of an
    ordinary name. *)
Lemma get_member_shape jc k s b s' :
  ¬ is_ref jc → named_key_ok k → get_member jc k s = (Return b, s') → b = VUndefined.
Proof.
  destruct jc as [| |?|?|str|?]; cbn; rewrite ?run_ret, ?run_throw; intros Hr Hk ?;
    simplify_eq; try done.
  by apply string_get_named.
Qed.

Lemma next_ok_member jc o a :
  hoare (point_ok (AtMember jc o a)) (next module (AtMember jc o a)) after_ok raised_ok.
Proof.
  apply hoare_then. intros s [Hok (Hne & Ho & Ha)].
  pose proof (hoare_get_member _ jc patterns_key ltac:(by right; left) s Hok) as H1.
  pose proof (get_member_final jc patterns_key s) as H2. unfold final in H2.
  destruct (get_member jc patterns_key s) as [[b|e] s'] eqn:E; cbn in H2; subst s'.
  - split; [eapply ok_state_weaken; [|exact H1]; solve_held|].
    split_and!; [done..|]. destruct (decide (is_ref jc)) as [|Hr]; [by left|right].
    eapply get_member_shape; [done|apply patterns_key_named|done].
  - destruct H1 as [H1 ->]. split; [|done]. eapply ok_state_weaken; [|exact H1]. solve_held.
Qed.

Lemma next_ok_spread jc o a base :
  hoare (point_ok (AtSpread jc o a base)) (next module (AtSpread jc o a base))
    after_ok raised_ok.
Proof.
  apply hoare_then. intros s [Hok (Hne & Ho & Ha & Hb)].
  pose proof (hoare_iterate _ base ltac:(by right; left) s Hok) as H1.
  pose proof (iterate_final base s) as H2. unfold final in H2.
  destruct (iterate base s) as [[vs|e] s'] eqn:E; cbn in H2; subst s'.
  - split; [eapply ok_state_weaken; [|exact H1]; solve_held|].
    split_and!; [done..|]. by destruct Hb as [? | ->].
  - destruct H1 as [H1 ->]. split; [|done]. eapply ok_state_weaken; [|exact H1]. solve_held.
Qed.

(** *** Lines 5 to 7: the elements *)

(** A store at the next index of an array being filled succeeds and
    changes that array only. *)
Lemma store_filling K s a i v :
  ok_state K s → v ∈ K → filling s a i →
  ∃ s', create_data_property a (key_of_index i) v s = (Return (), s')
    ∧ ok_state K s' ∧ filling s' a (i + 1)
    ∧ ∀ l, l ≠ a → st_heap s' !! l = st_heap s !! l.
Proof.
  intros Hok Hv (oa & Hoa & Hg).
  destruct (growing_step oa i v Hg) as (oa' & Hset & Hg').
  exists (with_heap s (<[a:=oa']> (st_heap s))).
  split; [by apply (run_set_member_ok true _ _ _ _ oa)|]. split_and!.
  - apply ok_state_write; [done..|]. eapply object_wf_set; [|by eapply ok_state_elem|done].
    eapply heap_wf_lookup; [apply Hok|done].
  - exists oa'. cbn. by rewrite lookup_insert_eq.
  - intros l Hl. cbn. by rewrite lookup_insert_ne.
Qed.

(** The two loops store one element and go on with the rest. *)
Local Ltac store_next :=
  let s := fresh "s" in let s' := fresh "s'" in
  apply hoare_then; intros s [Hok (Hne & Ho & Ha & Hr)];
  destruct (store_filling _ s _ _ _ Hok ltac:(by right; left) Ha)
    as (s' & -> & Hok' & Ha' & Hsame);
  split; [eapply ok_state_weaken; [|exact Hok']; solve_held|];
  split_and!; [done|by rewrite Hsame|done..].

Lemma next_ok_element jc o a i vs :
  hoare (point_ok (AtElement jc o a i vs)) (next module (AtElement jc o a i vs))
    after_ok raised_ok.
Proof.
  destruct vs as [|v vs]; [|store_next].
  apply hoare_ret. intros s [Hok Ha]. split; [|done].
  eapply ok_state_weaken; [|apply (ok_state_app _ _ extra_patterns Hok)].
  - solve_held.
  - by repeat constructor.
Qed.

Lemma next_ok_literal jc o a i vs :
  hoare (point_ok (AtLiteral jc o a i vs)) (next module (AtLiteral jc o a i vs))
    after_ok raised_ok.
Proof.
  destruct vs as [|v vs]; [|store_next].
  apply hoare_ret. intros s [Hok (_ & Ho & _ & Hr)]. split; [|done].
  eapply ok_state_weaken; [|exact Hok]. solve_held.
Qed.

(** *** Lines 3 and 4: the property definition, [Object.assign] and the export *)

Lemma next_ok_define jc o a :
  hoare (point_ok (AtDefine jc o a)) (next module (AtDefine jc o a)) after_ok raised_ok.
Proof.
  apply hoare_then. intros s [Hok (Ho & Hr)]. unfold create_data_property.
  rewrite (run_set_member_ok true o patterns_key (VRef a) s _ _ Ho eq_refl).
  split; [|split; [done|]; cbn; rewrite lookup_insert_eq; by eexists].
  eapply ok_state_weaken; [|apply ok_state_write; [exact Hok|done|]]; [solve_held|].
  eapply (object_wf_set _ (plain_object [])); [apply object_wf_plain_nil| |done].
  eapply ok_state_elem; [done|]. solve_held.
Qed.

Lemma next_ok_assign jc o :
  hoare (point_ok (AtAssign jc o)) (next module (AtAssign jc o)) after_ok raised_ok.
Proof.
  intros s [Hok (Hr & v & Ho)]. destruct jc as [| | | | |cfg]; try done.
  cbn [next to_object]. rewrite run_bind, run_ret, run_bind, (run_read_obj _ _ _ Ho), run_ret.
  split; [exact Hok|]. repeat constructor; apply patterns_key_named.
Qed.

(** The copy of a property of an ordinary name raises exceptions of
    JavaScript only. *)
Lemma hoare_copy_named K to from k :
  VRef to ∈ K → VRef from ∈ K → named_key_ok k →
  hoare (ok_state K) (copy_prop to from k)
    (λ _, ok_state K) (λ e s, ok_state K s ∧ is_js_exception e = true).
Proof.
  intros Hto Hfrom Hk s Hok. unfold copy_prop.
  destruct (ok_state_lookup _ _ _ Hok Hfrom) as (o & Ho & Hwf). run_read Ho.
  destruct (own_prop o k) as [v|] eqn:Hv; [|done].
  pose proof (hoare_set_member (v :: K) true to k v ltac:(by right) ltac:(by left) s
                (ok_state_cons _ _ _ Hok (own_prop_ok _ _ _ _ Hwf Hv))) as Hs.
  destruct (set_member true to k v s) as [[[]|e] s']; [|destruct Hs as [Hs He]; split];
    [eapply ok_state_weaken; [|done]; by apply list_subseteq_cons..|by apply He].
Qed.

Lemma next_ok_copy to from ks :
  hoare (point_ok (AtCopy to from ks)) (next module (AtCopy to from ks)) after_ok raised_ok.
Proof.
  destruct ks as [|k ks].
  - apply hoare_ret. intros s [Hok _]. split; [|done].
    eapply ok_state_weaken; [|exact Hok]. solve_held.
  - apply hoare_then. intros s [Hok [Hk Hks]%Forall_cons].
    pose proof (hoare_copy_named _ to from k ltac:(by right; left)
                  ltac:(by right; right; left) Hk s Hok) as Hc.
    destruct (copy_prop to from k s) as [[[]|e] s']; [done|].
    destruct Hc as [Hc He]. split; [|done]. eapply ok_state_weaken; [|exact Hc]. solve_held.
Qed.

Lemma next_ok_export merged :
  hoare (point_ok (AtExport merged)) (next module (AtExport merged)) after_ok raised_ok.
Proof.
  intros s [Hok _]. cbn [next]. rewrite run_bind.
  pose proof (hoare_set_member _ false module "exports" merged ltac:(by left)
                ltac:(by right; left) s Hok) as Hs.
  destruct (set_member false module "exports" merged s) as [[[]|e] s'].
  - eapply ok_state_weaken; [|exact Hs]. solve_held.
  - by destruct Hs as [_ [? _]]; [apply exports_named|].
Qed.

(** The assertions are kept by every operation, on both exits. *)
Lemma next_ok p : hoare (point_ok p) (next module p) after_ok raised_ok.
Proof.
  destruct p; auto using next_ok_require, next_ok_object, next_ok_array, next_ok_member,
    next_ok_spread, next_ok_element, next_ok_literal, next_ok_define, next_ok_assign,
    next_ok_copy, next_ok_export.
Qed.

Lemma step_ok : invariant (step module) config_ok.
Proof.
  intros c c' Hc (p & s & -> & ->)%step_inv. pose proof (next_ok p s Hc) as Hn.
  by destruct (next module p s) as [[[p'|]|e] s'].
Qed.

End assertions.

(** ** The base configuration has the property

    [has_key s v]: [v] is an object of [s] with an own property
    [coveragePathIgnorePatterns].  When line 5 has read the property of
    [jestConfig] and the spread has accepted what was read, [jestConfig] is
    such an object, since a missing property reads as [undefined], which
    the spread refuses.  No write takes a property away, so [jestConfig]
    still has it when [Object.assign] copies: [keyed p s] is what the point
    [p] knows of it. *)

Definition has_key (s : state) (v : value) : Prop :=
  ∃ l o, v = VRef l ∧ st_heap s !! l = Some o ∧ is_Some (own_prop o patterns_key).

Definition keyed (p : point) (s : state) : Prop :=
  match p with
  | AtSpread jc _ _ base => base = VUndefined ∨ has_key s jc
  | AtElement jc _ _ _ _ | AtLiteral jc _ _ _ _ | AtDefine jc _ _ | AtAssign jc _ =>
      has_key s jc
  | AtCopy to _ ks => has_key s (VRef to) ∧ Forall (λ k, k = patterns_key) ks
  | _ => True
  end.

Definition config_keyed (c : config) : Prop :=
  match c with
  | Running p s => keyed p s
  | _ => True
  end.

(** A write that completes keeps the property, whatever it writes. *)
Lemma has_key_set_member strict l k v s s' jc :
  set_member strict l k v s = (Return (), s') → has_key s jc → has_key s' jc.
Proof.
  intros [->|(o & o' & Hl & Hset & ->)]%set_member_returns; [done|].
  intros (l' & oc & -> & Hoc & Hk). destruct (decide (l' = l)) as [->|Hne].
  - exists l, o'. cbn. rewrite lookup_insert_eq. split_and!; [done..|].
    simplify_eq. destruct (decide (k = patterns_key)) as [->|Hkk].
    + rewrite (own_prop_set_eq _ _ _ _ Hset). by eexists.
    + by rewrite (own_prop_set_ne _ _ _ _ _ Hset Hkk).
  - exists l', oc. cbn. by rewrite lookup_insert_ne.
Qed.

Lemma has_key_copy_prop to from k s s' jc :
  copy_prop to from k s = (Return (), s') → has_key s jc → has_key s' jc.
Proof.
  unfold copy_prop. intros E.
  destruct (st_heap s !! from) as [o|] eqn:Hl; run_read Hl in E; [|done].
  destruct (own_prop o k); [by apply (has_key_set_member _ _ _ _ _ _ _ E)|].
  rewrite run_ret in E. by injection E as <-.
Qed.

(** What the member read of line 5 returns is [undefined], or the base has
    the property. *)
Lemma has_key_read jc s b s' :
  get_member jc patterns_key s = (Return b, s') → b = VUndefined ∨ has_key s' jc.
Proof.
  intros E. destruct jc as [| |?|?|str|l]; cbn [get_member] in E;
    rewrite ?run_ret in E; try done; try (left; by injection E as <- _).
  destruct (st_heap s !! l) as [o|] eqn:Hl; run_read Hl in E; [|done].
  rewrite run_ret in E. injection E as <- <-.
  destruct (own_prop o patterns_key) as [v|] eqn:Hp.
  - right. exists l, o. by rewrite Hp.
  - left. by apply object_get_absent.
Qed.

(** ** Where exceptions are raised

    [raise_site p s e]: what an exception [e] of the operation at [p] in the
    store [s] is, and what it says of the values at hand.  [require] raises
    what the host raises; the member read raises on a base that is
    [undefined] or [null]; the spread on a value that is neither a string
    nor an array; the copy of [Object.assign] on a target that is frozen,
    the property being one the target has.  The other operations are
    [quiet]: the allocations, the stores into the new array, the definition
    of the property, the start of [Object.assign] and the assignment to
    [module.exports] do not raise. *)

Definition raise_site (p : point) (s : state) (e : js_error) : Prop :=
  match p with
  | AtRequire => is_js_exception e = true
  | AtMember jc _ _ => e = TypeError NullishBase ∧ (jc = VUndefined ∨ jc = VNull)
  | AtSpread _ _ _ base =>
      e = TypeError NotIterable ∧ (∀ str, base ≠ VStr str)
      ∧ ∀ l o, base = VRef l → st_heap s !! l = Some o → o_elems o = None
  | AtCopy to _ (_ :: _) =>
      e = TypeError ReadOnly ∧ ∃ o, st_heap s !! to = Some o ∧ o_integrity o = Frozen
  | _ => False
  end.

Definition quiet (p : point) : bool :=
  match p with
  | AtRequire | AtMember _ _ _ | AtSpread _ _ _ _ | AtCopy _ _ (_ :: _) => false
  | _ => true
  end.

(** An operation followed by the move to the next point raises when the
    operation does. *)
Lemma throw_then {A B} (m : exec state A) (f : A → B) s e s' :
  (m ≫= λ a, mret (f a)) s = (Throw e, s') → m s = (Throw e, s').
Proof.
  rewrite run_bind. destruct (m s) as [[a|e0] s1]; [by rewrite run_ret|by intros [= -> ->]].
Qed.

Lemma return_then {A B} (m : exec state A) (f : A → B) s b s' :
  (m ≫= λ a, mret (f a)) s = (Return b, s') → ∃ a, m s = (Return a, s') ∧ b = f a.
Proof.
  rewrite run_bind. destruct (m s) as [[a|e0] s1]; [|done].
  rewrite run_ret. intros [= <- <-]. by exists a.
Qed.

Section raising.
Context `{ModuleHost} (module : loc) (keep : list value).
Implicit Types (p : point) (s : state) (c : config).

(** The operation of a quiet point completes. *)
Lemma next_quiet p s :
  point_ok module keep p s → quiet p = true → ∃ op s', next module p s = (Return op, s').
Proof.
  intros [Hok Ha] Hq.
  destruct p as [|jc|jc o|jc o a|jc o a b|jc o a i [|v vs]|jc o a i [|v vs]
                |jc o a|jc o|to from [|k ks]|merged]; try done; cbn [next assertion] in *;
    try (by eexists _, _).
  1,2: destruct Ha as (_ & _ & Ha & _);
    destruct (store_filling _ s _ _ v Hok ltac:(solve_held) Ha) as (s' & E & _);
    rewrite run_bind, E, run_ret; by eexists _, _.
  - destruct Ha as [Ho _]. unfold create_data_property.
    rewrite run_bind, (run_set_member_ok true o patterns_key (VRef a) s _ _ Ho eq_refl).
    by eexists _, _.
  - destruct Ha as (Hr & v & Ho). destruct jc; try done. cbn [to_object].
    rewrite run_bind, run_ret, run_bind, (run_read_obj _ _ _ Ho). by eexists _, _.
  - pose proof (result_set_member_sloppy module "exports" merged s) as Hr.
    unfold result in Hr. rewrite run_bind.
    destruct (set_member false module "exports" merged s) as [[[]|e] s'];
      [by eexists _, _|].
    discriminate Hr; [|apply exports_named].
    apply (ok_state_elem _ _ (VRef module) Hok). by left.
Qed.

(** Every step keeps what is known of the property. *)
Lemma next_keyed p s p' s' :
  point_ok module keep p s → keyed p s → next module p s = (Return (Some p'), s') →
  keyed p' s'.
Proof.
  intros [Hok Ha] Hk E.
  destruct p as [|jc|jc o|jc o a|jc o a b|jc o a i [|v vs]|jc o a i [|v vs]
                |jc o a|jc o|to from [|k ks]|merged]; cbn [next] in E;
    try (rewrite run_ret in E; injection E as <- <-; try done; by apply Hk);
    try (apply return_then in E as (x & E & [= ->])); try done; cbn [keyed] in *.
  - by eapply has_key_read.
  - pose proof (iterate_final b s) as Hs. unfold final in Hs. rewrite E in Hs.
    cbn in Hs. subst s'. destruct Hk as [->|Hk]; [done|exact Hk].
  - destruct x. exact (has_key_set_member true _ _ _ _ _ _ E Hk).
  - destruct x. exact (has_key_set_member true _ _ _ _ _ _ E Hk).
  - destruct x. exact (has_key_set_member true _ _ _ _ _ _ E Hk).
  - destruct Hk as (l & oc & -> & Hl & Hp), Ha as (_ & v & Ho).
    cbn [to_object] in E. rewrite run_bind, run_ret, run_bind, (run_read_obj _ _ _ Ho) in E.
    rewrite run_ret in E. injection E as <- <-. split; [by exists l, oc|].
    by repeat constructor.
  - destruct x, Hk as [Hk [_ Hks]%Forall_cons].
    split; [exact (has_key_copy_prop _ _ _ _ _ _ E Hk)|done].
Qed.

Lemma step_keyed : invariant (step module) (λ c, config_ok module keep c ∧ config_keyed c).
Proof.
  intros c c' [Hc Hk] Hstep. split; [by eapply step_ok|].
  destruct (step_inv module _ _ Hstep) as (p & s & -> & ->).
  destruct (next module p s) as [[[p'|]|e] s'] eqn:E; [|done..].
  by apply (next_keyed p s).
Qed.

(** An exception is raised at one of the four other points, by the
    operation the point names, and the store is the one it was raised in. *)
Lemma next_raises p s e s' :
  point_ok module keep p s → keyed p s → next module p s = (Throw e, s') →
  raise_site p s e ∧ (p ≠ AtRequire → s' = s).
Proof.
  intros Hp Hkey E. destruct (quiet p) eqn:Hq.
  { destruct (next_quiet p s Hp Hq) as (op & s1 & E'). congruence. }
  destruct Hp as [Hok Ha].
  destruct p as [| | |jc o a|jc o a b| | | | |to from [|k ks]|]; try done;
    cbn [next] in E; apply throw_then in E.
  - pose proof (host_require_ok _ base_request s Hok) as Hh. rewrite E in Hh.
    split; [apply Hh|done].
  - by destruct (get_member_raises _ jc _ _ _ _ Hok ltac:(solve_held) E) as (-> & -> & ?).
  - by destruct (iterate_raises _ b _ _ _ Hok ltac:(solve_held) E) as (-> & -> & ? & ?).
  - apply Forall_cons in Ha as [Hk _].
    destruct Hkey as [(l & ot & [= <-] & Hto & Hp) [-> _]%Forall_cons].
    destruct (copy_prop_raises _ to from _ _ _ _ Hok ltac:(solve_held)
                ltac:(solve_held) Hk E) as (-> & _).
    destruct (copy_prop_raises_present _ to from _ _ _ _ ot Hok ltac:(solve_held)
                Hk Hto Hp E) as [-> Hf].
    split; [|done]. split; [done|by exists ot].
Qed.

End raising.

(** ** The number of steps

    [left n c]: the number of steps from [c] to the end when nothing raises,
    [n] being the number of values the spread yields.  [spreads items p s]:
    at a point before the spread, what the spread will yield is [items]. *)

Definition left (n : nat) (c : config) : nat :=
  match c with
  | Running AtRequire _ => n + 14
  | Running (AtObject _) _ => n + 13
  | Running (AtArray _ _) _ => n + 12
  | Running (AtMember _ _ _) _ => n + 11
  | Running (AtSpread _ _ _ _) _ => n + 10
  | Running (AtElement _ _ _ _ vs) _ => length vs + 9
  | Running (AtLiteral _ _ _ _ vs) _ => length vs + 6
  | Running (AtDefine _ _ _) _ => 5
  | Running (AtAssign _ _) _ => 4
  | Running (AtCopy _ _ ks) _ => length ks + 2
  | Running (AtExport _) _ => 1
  | _ => 0
  end.

Definition spreads `{ModuleHost} (items : list value) (p : point) (s : state) : Prop :=
  match p with
  | AtRequire =>
      ∃ jc s', host_require base_request s = (Return jc, s') ∧ base_items s' jc = Return items
  | AtObject jc | AtArray jc _ | AtMember jc _ _ => base_items s jc = Return items
  | AtSpread _ _ _ base => iterate base s = (Return items, s)
  | _ => True
  end.

Section count.
Context `{ModuleHost} (module : loc) (items : list value).
Implicit Types (p : point) (s : state) (c : config).

(** A step that does not end the run takes one off what is left. *)
Lemma next_left p s p' s' :
  assertion p s → spreads items p s → next module p s = (Return (Some p'), s') →
  spreads items p' s'
  ∧ left (length items) (Running p s) = S (left (length items) (Running p' s')).
Proof.
  destruct p as [|jc|jc o|jc o a|jc o a b|jc o a i [|v vs]|jc o a i [|v vs]
                |jc o a|jc o|to from [|k ks]|merged]; cbn [next spreads assertion].
  all: intros Ha Hs; try destruct Hs as (jc & s1 & Hreq & Hs).
  all: try apply base_items_inv in Hs as [(e & _ & ?)|(b & Hg & Hi)]; try done.
  all: try (destruct Ha as (Hr & w & Ho); destruct jc; try done; cbn [to_object]).
  all: rewrite ?run_bind, ?run_alloc, ?Hreq, ?Hg, ?Hi, ?run_ret, ?run_bind,
         ?(run_read_obj _ _ _ Ho), ?run_ret.
  all: run_cases with idtac; intros ?; simplify_eq; cbn [spreads left length].
  all: split; [|by cbn; lia || done].
  all: try done; try (apply base_items_alloc; [|done]).
  all: by unfold base_items, result; rewrite run_bind, Hg, Hi.
Qed.

Lemma next_left_done p s s' :
  next module p s = (Return None, s') → left (length items) (Running p s) = 1.
Proof.
  destruct p as [|jc|jc o|jc o a|jc o a b|jc o a i [|v vs]|jc o a i [|v vs]
                |jc o a|jc o|to from [|k ks]|merged]; cbn [next]; [..|done].
  all: run_cases with idtac; intros; simplify_eq.
Qed.

Definition counted (c : config) : Prop :=
  match c with
  | Running p s => point_ok module [] p s ∧ spreads items p s
  | _ => True
  end.

(** A run that completes normally takes the steps that are left. *)
Lemma count_steps n c sf :
  left (length items) c = n → counted c → outcome_of module c = (Return (), sf) →
  nsteps (step module) n c (Done sf).
Proof.
  revert c. induction n as [|n IH]; intros [p s|s|e s] Hn Hc Ho; try done.
  - destruct p; cbn in Hn; lia.
  - cbn in Ho. simplify_eq. constructor.
  - destruct Hc as [Hok Hs].
    pose proof (step_arrive module p s) as Hstep.
    pose proof (step_outcome module _ _ Hstep) as Hout. rewrite Ho in Hout.
    pose proof (step_ok module [] (Running p s) _ Hok Hstep) as Hok'.
    destruct (next module p s) as [[[p'|]|e] s'] eqn:E; cbn [arrive outcome_of] in *.
    + destruct (next_left p s p' s' (proj2 Hok) Hs E) as [Hs' Hl]. rewrite Hl in Hn.
      eapply nsteps_l; [done|]. apply IH; [by injection Hn|done..].
    + rewrite (next_left_done _ _ _ E) in Hn. simplify_eq. by apply nsteps_once.
    + done.
Qed.

End count.

(** ** Nothing that existed is changed before the copy

    Between [require] and the first copy of [Object.assign] the machine is
    [building]: it allocates the two literals and writes into them only.
    [written p] is the cell the operation at [p] may write, [literal_cells p]
    the cells of the literals at [p]. *)

Definition building (c : config) : bool :=
  match c with
  | Running (AtRequire | AtCopy _ _ _ | AtExport _) _ | Done _ | Raised _ _ => false
  | Running _ _ => true
  end.

Definition written (module : loc) (p : point) : gset loc :=
  match p with
  | AtElement _ _ a _ (_ :: _) | AtLiteral _ _ a _ (_ :: _) => {[a]}
  | AtDefine _ o _ => {[o]}
  | AtCopy to _ (_ :: _) => {[to]}
  | AtExport _ => {[module]}
  | _ => ∅
  end.

Definition literal_cells (p : point) : gset loc :=
  match p with
  | AtArray _ o | AtAssign _ o => {[o]}
  | AtMember _ o a | AtSpread _ o a _ | AtElement _ o a _ _ | AtLiteral _ o a _ _
  | AtDefine _ o a => {[o; a]}
  | _ => ∅
  end.

(** [pristine s1 c]: at a building configuration, every cell of [s1] holds
    what it held and the literals occupy cells that [s1] did not have. *)
Definition pristine (s1 : state) (c : config) : Prop :=
  match c with
  | Running AtRequire _ => False
  | Running p s =>
      building c = true →
      frame ∅ s1 s ∧ ∀ l, l ∈ literal_cells p → st_heap s1 !! l = None
  | _ => True
  end.

Section pristine.
Context `{ModuleHost} (module : loc).
Implicit Types (p : point) (s : state) (c : config).

(** A change outside the cells of [s1] is no change for [s1]. *)
Lemma frame_outside M s1 s s' :
  frame ∅ s1 s → frame M s s' → (∀ l, l ∈ M → st_heap s1 !! l = None) → frame ∅ s1 s'.
Proof.
  intros H1 H2 HM. split_and!.
  - by rewrite (frame_modules _ _ _ H2), (frame_modules _ _ _ H1).
  - destruct H1 as (_ & ? & _), H2 as (_ & ? & _). set_solver.
  - intros l o _ Hl. eapply frame_lookup; [done| |by eapply frame_lookup].
    intros Hin. specialize (HM l Hin). congruence.
Qed.

Lemma frame_fresh M s1 s l : frame M s1 s → st_heap s !! l = None → st_heap s1 !! l = None.
Proof.
  intros (_ & Hdom & _) Hl. apply (not_elem_of_dom (D := gset loc)).
  apply (not_elem_of_dom (D := gset loc)) in Hl. set_solver.
Qed.

(** The operation at a point writes at most the cell [written] names. *)
Lemma next_writes p : p ≠ AtRequire → relates (frame (written module p)) (next module p).
Proof.
  intros Hp.
  destruct p as [|jc|jc o|jc o a|jc o a b|jc o a i [|v vs]|jc o a i [|v vs]
                |jc o a|jc o|to from [|k ks]|merged]; [done|cbn [next written]..].
  all: try (apply relates_bind; [apply _| |intros ?;
              try (apply relates_bind; [apply _| |intros ?])]).
  all: try (apply relates_ret; apply _).
  all: auto using relates_alloc, relates_get_member, relates_iterate, relates_read_obj.
  all: try (apply relates_set_member || apply relates_copy_prop); try set_solver.
  destruct jc; try (apply relates_ret || apply relates_throw); apply _.
Qed.

(** The literals of the next point are those of the point, or new. *)
Lemma next_cells p s p' s' :
  next module p s = (Return (Some p'), s') →
  p' ≠ AtRequire
  ∧ (building (Running p' s') = true → p ≠ AtRequire →
     building (Running p s) = true
     ∧ written module p ⊆ literal_cells p
     ∧ ∀ l, l ∈ literal_cells p' → l ∈ literal_cells p ∨ st_heap s !! l = None).
Proof.
  destruct p as [|jc|jc o|jc o a|jc o a b|jc o a i [|v vs]|jc o a i [|v vs]
                |jc o a|jc o|to from [|k ks]|merged]; cbn [next].
  all: run_cases with (rewrite ?run_alloc); intros ?; simplify_eq.
  all: split; [done|]; intros Hb Hp; try done.
  all: cbn [building written literal_cells].
  all: split_and!; [done|set_solver|]; intros l; set_unfold; intros Hl.
  all: repeat destruct Hl as [Hl|Hl]; subst;
         first [by left; auto|by right; apply fresh_loc_fresh].
Qed.

Lemma pristine_building s1 p s :
  pristine s1 (Running p s) → building (Running p s) = true →
  frame ∅ s1 s ∧ ∀ l, l ∈ literal_cells p → st_heap s1 !! l = None.
Proof. destruct p; try done; intros Hp Hb; by apply Hp. Qed.

Lemma pristine_intro s1 p s :
  p ≠ AtRequire →
  (building (Running p s) = true →
   frame ∅ s1 s ∧ ∀ l, l ∈ literal_cells p → st_heap s1 !! l = None) →
  pristine s1 (Running p s).
Proof. by destruct p. Qed.

Lemma step_pristine s1 : invariant (step module) (pristine s1).
Proof.
  intros c c' Hc (p & s & -> & ->)%step_inv.
  destruct (next module p s) as [[[p'|]|e] s'] eqn:E; cbn [arrive]; try done.
  destruct (next_cells _ _ _ _ E) as [Hp' Hcells].
  assert (p ≠ AtRequire) as Hp by (by intros ->).
  apply pristine_intro; [done|]. intros Hb.
  destruct (Hcells Hb Hp) as (Hbp & Hw & Hl).
  destruct (pristine_building _ _ _ Hc Hbp) as [Hf Hfresh].
  pose proof (relates_run _ _ _ _ _ (next_writes p Hp) E) as Hfr.
  split.
  - eapply frame_outside; [done..|]. intros l Hin. by apply Hfresh, (Hw l).
  - intros l [Hin|Hnew]%Hl; [by apply Hfresh|by eapply frame_fresh].
Qed.

(** An exception raised while building leaves the store it found. *)
Lemma raise_pristine s1 c e s' :
  pristine s1 c → building c = true → step module c (Raised e s') → frame ∅ s1 s'.
Proof.
  intros Hc Hb (p & s & -> & Hr)%step_inv.
  destruct (next module p s) as [[[p'|]|e'] s''] eqn:E; simplify_eq/=.
  destruct (pristine_building _ _ _ Hc Hb) as [Hf Hfresh].
  assert (p ≠ AtRequire) as Hp by (by intros ->).
  pose proof (relates_run _ _ _ _ _ (next_writes p Hp) E) as Hfr.
  eapply frame_outside; [done..|]. intros l Hin. apply Hfresh.
  destruct p as [| | | | |? ? ? ? [|]|? ? ? ? [|]| | | |]; try done;
    revert Hin; cbn [written literal_cells]; set_unfold; tauto.
Qed.

End pristine.

(** ** Summary: runs of the machine *)

Section summary.
Context `{ModuleHost} (module : loc).
Implicit Types (s : state) (c : config).

(** C14.  The assertions hold all along every run.  From a well-formed
    store in which the module object exists, every configuration the machine
    reaches, final or not, has a well-formed store in which the values that
    the point, the caller and the module system hold are valid, and
    satisfies the assertion of its point: the object literal stays empty
    while the array is filled, the array is filled in order without a hole,
    the keys that [Object.assign] copies are ordinary names; and a
    configuration that has raised has raised an exception of JavaScript. *)
Theorem reachable_configs_ok keep s c :
  module_state keep module s → rtc (step module) (start s) c → config_ok module keep c.
Proof. intros Hs. apply invariant_rtc; [apply step_ok|]. by split. Qed.

(** C15.  Every exception has its site.  From a well-formed store in which
    the module object exists, when a run of the module ends in an exception,
    the exception was raised by one of four operations and says why: by
    [require], and then it is the host's; by the member read of line 5, a
    [TypeError] on a base that is [undefined] or [null]; by the spread of
    line 5, a [TypeError] on a value that is neither a string nor an array;
    or by the copy of [Object.assign], the [TypeError] of a write to a
    property that cannot be changed, on a target that is frozen: the base
    configuration has the property by then, so the other refusal, of a new
    property by an object that is not extensible, cannot occur.  Except for
    [require], the store in
    which the run ends is the one in which the operation was attempted.  No
    allocation, no store into the new array, and not the assignment to
    [module.exports] can raise. *)
Theorem exceptions_have_sites keep s0 e s' :
  module_state keep module s0 → rtc (step module) (start s0) (Raised e s') →
  ∃ p s, rtc (step module) (start s0) (Running p s)
       ∧ step module (Running p s) (Raised e s')
       ∧ raise_site p s e ∧ (p ≠ AtRequire → s' = s).
Proof.
  intros Hs [[=]|(c & Hc & Hstep)]%rtc_inv_r.
  destruct (step_inv module _ _ Hstep) as (p & s & -> & Harr).
  assert (config_ok module keep (Running p s) ∧ config_keyed (Running p s)) as [Hok Hk]
    by (apply (invariant_rtc _ _ (start s0) _ (step_keyed module keep)); [|done]; by split).
  destruct (next module p s) as [[[p'|]|e0] s1] eqn:E; try done.
  injection Harr as <- <-. destruct (next_raises module keep p s _ _ Hok Hk E).
  by exists p, s.
Qed.

(** C16.  Nothing that existed is changed before the copy.  Let [require]
    have returned [jestConfig] in the store [s1].  In every configuration
    that the machine reaches before [Object.assign] starts to copy, that is
    while the literals are allocated and filled, every object of [s1] is as
    it was and the module cache is unchanged; and when the operation at such
    a configuration raises, the store it leaves has the objects of [s1] as
    they were.  The base configuration is written late, in the copy, and the
    module object last. *)
Theorem untouched_before_copy jc s1 c :
  rtc (step module) (Running (AtObject jc) s1) c → building c = true →
  frame ∅ s1 (store_of c) ∧ ∀ e s', step module c (Raised e s') → frame ∅ s1 s'.
Proof.
  intros Hrtc Hb. assert (pristine s1 c) as Hc.
  { eapply invariant_rtc; [apply step_pristine| |done]. by intros _. }
  split; [|intros e s'; by apply raise_pristine].
  destruct c as [p s| |]; [|done..]. by apply (pristine_building _ _ _ Hc Hb).
Qed.

Context (cfg : loc) (s0 s : state) (oc om : object) (items : list value).
Context (Hready : ready module cfg s0 s oc om items).

Lemma ready_outcome :
  outcome_of module (start s0) = (Return (), exported_state s module cfg oc om items).
Proof. exact (ready_run _ _ _ _ _ _ _ Hready). Qed.

Lemma ready_reaches :
  rtc (step module) (start s0) (Done (exported_state s module cfg oc om items)).
Proof.
  destruct (reaches_completed module (start s0)) as [n Hn%rtc_nsteps_2].
  by rewrite ready_outcome in Hn.
Qed.

Lemma ready_steps :
  module_state [] module s0 →
  nsteps (step module) (length items + 14) (start s0)
    (Done (exported_state s module cfg oc om items)).
Proof.
  intros Hok. apply (count_steps module items); [done| |apply ready_outcome].
  split; [by split|]. exists (VRef cfg), s. split; apply Hready.
Qed.

(** C17.  The number of steps.  From a well-formed store in which [require]
    returns a base configuration that is not frozen and whose patterns
    iterate to [items], the machine is done after exactly
    [length items + 14] steps, in the store [exported_state]: one step for
    each base pattern and fourteen for the rest of the module. *)
Theorem module_step_count :
  module_state [] module s0 →
  nsteps (step module) (length items + 14) (start s0)
    (Done (exported_state s module cfg oc om items))
  ∧ ∀ n c, nsteps (step module) n (start s0) c → is_final c = true →
      n = length items + 14.
Proof.
  intros Hok. pose proof (ready_steps Hok) as Hn.
  split; [done|]. intros n c Hc Hf. apply (final_nf module) in Hf.
  eapply (nsteps_nf_unique _ _ _ _ _ _ (step_deterministic module) Hc Hf Hn).
  by apply final_nf.
Qed.


End summary.

(** ** The theorems on a concrete store *)

Lemma reachable_configs_ok_witness :
  config_ok 4%positive []
    (run (H := cache_host) 4%positive 8 (start sample_state)).
Proof.
  exact (reachable_configs_ok (H := cache_host) _ _ _ _ sample_state_ok (run_rtc _ _ _)).
Defined.

Lemma exceptions_have_sites_witness :
  let s0 := store_with (VRef 2%positive) frozen_config sample_module sample_cache in
  let c := run (H := cache_host) 4%positive 20 (start s0) in
  ∃ p s, rtc (step (H := cache_host) 4%positive) (start s0) (Running p s)
       ∧ step (H := cache_host) 4%positive (Running p s)
           (Raised (TypeError ReadOnly) (store_of c))
       ∧ raise_site p s (TypeError ReadOnly) ∧ (p ≠ AtRequire → store_of c = s).
Proof.
  intros s0 c. apply (exceptions_have_sites (H := cache_host) 4%positive [] s0);
    [by_compute|].
  replace (Raised (TypeError ReadOnly) (store_of c)) with c by (by vm_compute).
  apply run_rtc.
Defined.

Lemma untouched_before_copy_witness :
  let c := run (H := cache_host) 4%positive 7
             (Running (AtObject (VRef 2%positive)) sample_state) in
  frame ∅ sample_state (store_of c)
  ∧ ∀ e s', step (H := cache_host) 4%positive c (Raised e s') → frame ∅ sample_state s'.
Proof.
  intros c. by apply (untouched_before_copy (H := cache_host) 4%positive
                        (VRef 2%positive) sample_state c (run_rtc _ _ _)).
Defined.

Lemma module_step_count_witness :
  nsteps (step (H := cache_host) 4%positive) 17 (start sample_state)
    (Done (exported_state sample_state 4%positive 2%positive
             sample_config sample_module sample_patterns))
  ∧ ∀ n c, nsteps (step (H := cache_host) 4%positive) n (start sample_state) c →
      is_final c = true → n = 17.
Proof.
  exact (module_step_count (H := cache_host) _ _ _ _ _ _ _ sample_ready sample_state_ok).
Defined.

