(* ===== verification/Typing.v ===== *)
(** * Typing: the shape of a configuration

    Jest reads the exported object against a schema: under
    [coveragePathIgnorePatterns] it expects an array of strings.  This file
    states such schemas as types and shows that the module keeps them.

    A type [ty] is a primitive type, [TAny], an array type or an object type
    that lists the fields it promises.  The store is typed by a [store_ty],
    which gives the type of some of its cells; a reference has the type of
    its cell, and a cell has an array type when all its elements have the
    element type, an object type when it is an ordinary object whose fields
    read as values of the promised types.  Cells without a type are
    unconstrained: they are what the running code is still building, or what
    it treats as [any], like the module object.

    The theorems are those of a type system for a store: typing is kept
    when the store typing grows, a write of a value of the field's type
    keeps the store typed, a read gives a value of the field's type, and the
    module, from a base configuration whose patterns are an array, leaves
    the base configuration at its type, with the store typed by an extension
    of the store typing it started from. *)

From S2P Require Import Prelude Exec Props Heap Objects Builtins Host JestConfig.

(** ** Types *)

#[warnings="-register-all"] Inductive ty :=
| TAny
| TUndefined
| TNull
| TBoolean
| TNumber
| TString
| TArray (elem : ty)
| TObject (fields : list (string * ty)).

(** Induction on types, with the hypothesis for every field of an object
    type. *)
Fixpoint ty_ind_fields (P : ty → Prop)
    (Hany : P TAny) (Hundef : P TUndefined) (Hnull : P TNull) (Hbool : P TBoolean)
    (Hnum : P TNumber) (Hstr : P TString) (Harr : ∀ e, P e → P (TArray e))
    (Hobj : ∀ fs, Forall (λ kt, P kt.2) fs → P (TObject fs)) (t : ty) : P t :=
  let rec := ty_ind_fields P Hany Hundef Hnull Hbool Hnum Hstr Harr Hobj in
  match t with
  | TAny => Hany
  | TUndefined => Hundef
  | TNull => Hnull
  | TBoolean => Hbool
  | TNumber => Hnum
  | TString => Hstr
  | TArray e => Harr e (rec e)
  | TObject fs =>
      Hobj fs ((fix go (fs : list (string * ty)) : Forall (λ kt, P kt.2) fs :=
                  match fs with
                  | [] => @List.Forall_nil _ _
                  | kt :: fs' => @List.Forall_cons _ _ kt fs' (rec kt.2) (go fs')
                  end) fs)
  end.

Fixpoint ty_eqb (t u : ty) : bool :=
  match t, u with
  | TAny, TAny | TUndefined, TUndefined | TNull, TNull
  | TBoolean, TBoolean | TNumber, TNumber | TString, TString => true
  | TArray t', TArray u' => ty_eqb t' u'
  | TObject fs, TObject gs =>
      (fix go (fs gs : list (string * ty)) : bool :=
         match fs, gs with
         | [], [] => true
         | (k, t') :: fs', (k', u') :: gs' =>
             bool_decide (k = k') && ty_eqb t' u' && go fs' gs'
         | _, _ => false
         end) fs gs
  | _, _ => false
  end.

Lemma ty_eqb_eq t u : ty_eqb t u = true ↔ t = u.
Proof.
  revert u. induction t as [| | | | | |e IH|fs IH] using ty_ind_fields;
    intros [| | | | | |e'|gs]; cbn; try (split; (done || congruence)).
  - rewrite IH. split; congruence.
  - revert gs. induction IH as [|[k t] fs Ht _ IHfs]; intros [|[k' u] gs];
      try (split; (done || congruence)).
    rewrite !andb_true_iff, bool_decide_eq_true, (Ht u), (IHfs gs). cbn.
    split; [intros [[-> ->] ?]|intros ?]; simplify_eq; auto.
Qed.

#[export] Instance ty_eq_dec : EqDecision ty.
Proof.
  intros t u. destruct (ty_eqb t u) eqn:E.
  - left. by apply ty_eqb_eq.
  - right. intros Heq%ty_eqb_eq. congruence.
Defined.

(** ** Typing of values, cells and stores *)

Abbreviation store_ty := (gmap loc ty).

(** [has_type Σ v t]: the value [v] has type [t].  A reference has the type
    of its cell. *)
Definition has_type (Σ : store_ty) (v : value) (t : ty) : Prop :=
  match t, v with
  | TAny, _ => True
  | TUndefined, VUndefined | TNull, VNull | TBoolean, VBool _
  | TNumber, VNum _ | TString, VStr _ => True
  | (TArray _ | TObject _), VRef l => Σ !! l = Some t
  | _, _ => False
  end.

(** [cell_type Σ o t]: the object [o] may be stored in a cell of type [t]. *)
Definition cell_type (Σ : store_ty) (o : object) (t : ty) : Prop :=
  match t with
  | TArray e => from_option (Forall (λ v, has_type Σ v e)) False (o_elems o)
  | TObject fs =>
      o_elems o = None ∧ Forall (λ kt, has_type Σ (object_get o kt.1) kt.2) fs
  | _ => False
  end.

(** [heap_typed Σ h]: every cell that [Σ] gives a type to exists in [h] and
    holds an object of that type. *)
Definition heap_typed (Σ : store_ty) (h : gmap loc object) : Prop :=
  map_Forall (λ l t, from_option (λ o, cell_type Σ o t) False (h !! l)) Σ.

Definition typed (Σ : store_ty) (s : state) : Prop := heap_typed Σ (st_heap s).

(** [fits Σ t k v]: writing [v] under the key [k] suits a cell of type [t]:
    an element of an array has the element type, a promised field of an
    object has the promised type; other keys are free. *)
Definition fits (Σ : store_ty) (t : ty) (k : string) (v : value) : Prop :=
  match t with
  | TArray e => is_Some (index_of_key k) → has_type Σ v e
  | TObject fs => Forall (λ kt, kt.1 = k → has_type Σ v kt.2) fs
  | _ => True
  end.

(** [write_fits Σ l k v]: the write suits the type of the cell [l], if it
    has one. *)
Definition write_fits (Σ : store_ty) (l : loc) (k : string) (v : value) : Prop :=
  from_option (λ t, fits Σ t k v) True (Σ !! l).

#[export] Instance from_option_dec {A} (P : A → Prop) (Q : Prop) (mx : option A)
  `{!∀ a, Decision (P a), !Decision Q} : Decision (from_option P Q mx).
Proof. destruct mx; apply _. Defined.

#[export] Instance has_type_dec Σ v t : Decision (has_type Σ v t).
Proof. destruct t, v; cbn; apply _. Defined.

#[export] Instance cell_type_dec Σ o t : Decision (cell_type Σ o t).
Proof. destruct t; cbn; apply _. Defined.

#[export] Instance fits_dec Σ t k v : Decision (fits Σ t k v).
Proof. destruct t; cbn; apply _. Defined.

#[export] Instance write_fits_dec Σ l k v : Decision (write_fits Σ l k v).
Proof. unfold write_fits. apply _. Defined.

#[export] Instance heap_typed_dec Σ h : Decision (heap_typed Σ h).
Proof. unfold heap_typed. apply _. Defined.

#[export] Instance typed_dec Σ s : Decision (typed Σ s).
Proof. unfold typed. apply _. Defined.

(** ** The store typing may grow *)

Section typing.
Implicit Types (Σ : store_ty) (h : gmap loc object) (o : object) (v : value).
Implicit Types (t e : ty) (l : loc) (k : string) (s : state).

Lemma has_type_mono Σ Σ' v t : Σ ⊆ Σ' → has_type Σ v t → has_type Σ' v t.
Proof. intros Hsub. destruct t, v; cbn; try done; intros ?; by eapply lookup_weaken. Qed.

Lemma cell_type_mono Σ Σ' o t : Σ ⊆ Σ' → cell_type Σ o t → cell_type Σ' o t.
Proof.
  intros Hsub. destruct t; cbn; try done.
  - destruct (o_elems o); cbn; [|done]. intros Hf. eapply Forall_impl; [done|].
    intros v. by apply has_type_mono.
  - intros [? Hf]. split; [done|]. eapply Forall_impl; [done|].
    intros [k t]. by apply has_type_mono.
Qed.

(** ** Canonical forms and reads *)

Lemma has_type_ref Σ v t :
  has_type Σ v t → (∃ e, t = TArray e) ∨ (∃ fs, t = TObject fs) →
  ∃ l, v = VRef l ∧ Σ !! l = Some t.
Proof. intros Hv [[e ->]|[fs ->]]; destruct v; try done; by eexists. Qed.

Lemma heap_typed_lookup Σ h l t :
  heap_typed Σ h → Σ !! l = Some t → ∃ o, h !! l = Some o ∧ cell_type Σ o t.
Proof.
  intros Hh Hl. specialize (Hh l t Hl). cbn in Hh.
  destruct (h !! l) as [o|]; [by exists o|done].
Qed.

Lemma heap_typed_fresh Σ h l : heap_typed Σ h → h !! l = None → Σ !! l = None.
Proof.
  intros Hh Hl. destruct (Σ !! l) as [t|] eqn:E; [|done].
  destruct (heap_typed_lookup _ _ _ _ Hh E) as (o & ? & _). congruence.
Qed.

Lemma typed_elems Σ h l e o :
  heap_typed Σ h → Σ !! l = Some (TArray e) → h !! l = Some o →
  ∃ vs, o_elems o = Some vs ∧ Forall (λ v, has_type Σ v e) vs.
Proof.
  intros Hh Hl Ho. destruct (heap_typed_lookup _ _ _ _ Hh Hl) as (o' & ? & Hc).
  simplify_eq. cbn in Hc. destruct (o_elems o) as [vs|]; [by exists vs|done].
Qed.

Lemma typed_field Σ h l fs o k t :
  heap_typed Σ h → Σ !! l = Some (TObject fs) → h !! l = Some o → (k, t) ∈ fs →
  o_elems o = None ∧ has_type Σ (object_get o k) t.
Proof.
  intros Hh Hl Ho Hk. destruct (heap_typed_lookup _ _ _ _ Hh Hl) as (o' & ? & He & Hc).
  simplify_eq. split; [done|]. by apply (Forall_elem _ _ _ Hc Hk).
Qed.

(** ** Writes and allocation *)

(** A cell gets a type: the store typing grows by a cell that [Σ] did not
    know. *)
Lemma heap_typed_alloc Σ h l o t :
  heap_typed Σ h → h !! l = None → cell_type (<[l:=t]> Σ) o t →
  heap_typed (<[l:=t]> Σ) (<[l:=o]> h).
Proof.
  intros Hh Hl Ho. pose proof (heap_typed_fresh _ _ _ Hh Hl) as HΣ.
  apply map_Forall_insert; [done|]. split; [by rewrite lookup_insert_eq|].
  intros l' t' Hl'. destruct (heap_typed_lookup _ _ _ _ Hh Hl') as (o' & Ho' & Hc).
  rewrite lookup_insert_ne by congruence. rewrite Ho'. cbn.
  eapply cell_type_mono; [|done]. by apply insert_subseteq.
Qed.

(** A cell is overwritten by an object of its type, if it has one. *)
Lemma heap_typed_insert Σ h l o :
  heap_typed Σ h → (∀ t, Σ !! l = Some t → cell_type Σ o t) →
  heap_typed Σ (<[l:=o]> h).
Proof.
  intros Hh Ho l' t' Hl'. destruct (decide (l' = l)) as [->|Hne].
  - rewrite lookup_insert_eq. by apply Ho.
  - rewrite lookup_insert_ne by done. by apply Hh.
Qed.

(** A new cell without a type: the store typing stays as it is. *)
Lemma heap_typed_extend Σ h l o :
  heap_typed Σ h → h !! l = None → heap_typed Σ (<[l:=o]> h).
Proof.
  intros Hh Hl. apply heap_typed_insert; [done|]. intros t Ht.
  by rewrite (heap_typed_fresh _ _ _ Hh Hl) in Ht.
Qed.

(** A cell that had no type gets one, once it holds an object of it. *)
Lemma heap_typed_declare Σ h l o t :
  heap_typed Σ h → Σ !! l = None → h !! l = Some o → cell_type (<[l:=t]> Σ) o t →
  heap_typed (<[l:=t]> Σ) h.
Proof.
  intros Hh HΣ Hl Ho. apply map_Forall_insert; [done|]. split; [by rewrite Hl|].
  intros l' t' Hl'. destruct (heap_typed_lookup _ _ _ _ Hh Hl') as (o' & -> & Hc).
  eapply cell_type_mono; [|done]. by apply insert_subseteq.
Qed.

(** A value of the type of a promised array suits the field: the types
    promised for one key of a typed object agree. *)
Lemma fits_field Σ o fs k e v :
  cell_type Σ o (TObject fs) → (k, TArray e) ∈ fs → has_type Σ v (TArray e) →
  fits Σ (TObject fs) k v.
Proof.
  intros [_ Hfs] Hk Hv. cbn. rewrite Forall_forall in Hfs |- *.
  pose proof (Hfs _ Hk) as Hp. cbn [fst snd] in Hp.
  destruct (has_type_ref _ _ _ Hp) as (p & Hget & HΣp); [left; by eexists|].
  intros [k' t] Hkt ?. simplify_eq/=. specialize (Hfs _ Hkt). cbn in Hfs.
  rewrite Hget in Hfs. destruct t; try done; cbn in Hfs; rewrite HΣp in Hfs; [|done].
  by injection Hfs as <-.
Qed.

(** A typed object has the array fields its type promises. *)
Lemma typed_field_present Σ o fs k e :
  cell_type Σ o (TObject fs) → (k, TArray e) ∈ fs →
  ∃ v, prop_get (o_props o) k = Some v ∧ has_type Σ v (TArray e).
Proof.
  intros [Hplain Hfs] Hk. pose proof (Forall_elem _ _ _ Hfs Hk) as Hp. cbn [fst snd] in Hp.
  rewrite object_get_plain in Hp by done.
  destruct (prop_get (o_props o) k) as [v|]; [by exists v|done].
Qed.

(** A strict write to such a field is refused by a frozen object only. *)
Lemma typed_write_raises Σ s l fs k e v err s' :
  typed Σ s → Σ !! l = Some (TObject fs) → (k, TArray e) ∈ fs →
  set_member true l k v s = (Throw err, s') →
  s' = s ∧ err = TypeError ReadOnly
  ∧ ∃ o, st_heap s !! l = Some o ∧ o_integrity o = Frozen.
Proof.
  intros Hs Hl Hk E. destruct (heap_typed_lookup _ _ _ _ Hs Hl) as (o & Ho & Hc).
  destruct (typed_field_present _ _ _ _ _ Hc Hk) as (w & Hw & _).
  unfold set_member in E. run_read Ho in E.
  rewrite (object_set_plain _ _ _ (proj1 Hc)) in E. unfold set_named, has_prop in E.
  rewrite Hw, bool_decide_true in E by by eexists.
  destruct (o_integrity o) eqn:Hi; rewrite ?run_write_obj, ?run_throw in E; try done.
  injection E as <- <-. split_and!; [done..|by exists o].
Qed.

(** [[Set]] keeps the type of the object it updates. *)
Lemma object_set_typed Σ o t k v o' :
  cell_type Σ o t → fits Σ t k v → object_set o k v = SetOk o' → cell_type Σ o' t.
Proof.
  destruct t as [| | | | | |e|fs]; try done; cbn.
  - destruct (o_elems o) as [vs|] eqn:E; [cbn|done]. intros Hvs Hv.
    intros [[_ ->]|(vs' & n & ? & Hn & Hset)]%object_set_cases; [cbn; by rewrite E|].
    simplify_eq. specialize (Hv ltac:(by eexists)).
    apply set_index_inv in Hset as [[_ ->]|[_ ->]]; cbn.
    + by apply Forall_insert.
    + apply Forall_app. by split; [|constructor].
  - intros [E Hfs] Hv. rewrite (object_set_plain _ _ _ E). intros ->%set_named_inv.
    split; [done|]. rewrite Forall_forall in Hfs, Hv |- *. intros [k' t'] Hk'.
    rewrite object_get_plain by done. cbn. rewrite prop_get_set. case_decide as Hk.
    + subst. by apply (Hv _ Hk').
    + rewrite <- object_get_plain by done. by apply (Hfs _ Hk').
Qed.

(** The accumulation of an array literal keeps the element type. *)
Lemma push_all_typed Σ o e i vs :
  cell_type Σ o (TArray e) → Forall (λ v, has_type Σ v e) vs →
  cell_type Σ (push_all o i vs) (TArray e).
Proof.
  revert o i. induction vs as [|v vs IH]; intros o i Ho Hvs; [done|].
  apply Forall_cons in Hvs as [Hv Hvs]. cbn [push_all].
  destruct (object_set o (key_of_index i) v) as [o'| |] eqn:Hset; [|done..].
  apply IH; [|done]. eapply object_set_typed; [done| |done]. by intros _.
Qed.

Lemma set_member_typed Σ strict l k v s :
  typed Σ s → write_fits Σ l k v → typed Σ (final (set_member strict l k v) s).
Proof.
  intros Hs Hfit. unfold final, set_member.
  destruct (st_heap s !! l) as [o|] eqn:Ho; [run_read Ho|by run_read Ho].
  destruct (object_set o k v) as [o'|why|what] eqn:Hset; [|by destruct strict|done].
  rewrite run_write_obj. apply heap_typed_insert; [done|]. intros t Ht.
  unfold write_fits in Hfit. rewrite Ht in Hfit.
  destruct (heap_typed_lookup _ _ _ _ Hs Ht) as (o0 & ? & Hc). simplify_eq.
  by eapply object_set_typed.
Qed.

(** A typed store after [set_member], whatever it returned. *)
Lemma set_member_typed_run Σ strict l k v s r s' :
  set_member strict l k v s = (r, s') → typed Σ s → write_fits Σ l k v → typed Σ s'.
Proof.
  intros E Hs Hfit. pose proof (set_member_typed Σ strict l k v s Hs Hfit) as Ht.
  unfold final in Ht. by rewrite E in Ht.
Qed.

End typing.

(** ** The module keeps the type of the base configuration *)

(** The store typing once the literals are built: the new array has the
    type of the base patterns, the object literal promises its one field. *)
Definition literal_ty (Σ : store_ty) (s : state) (e : ty) : store_ty :=
  <[overrides_loc s:=TObject [(patterns_key, TArray e)]]> (<[patterns_loc s:=TArray e]> Σ).

Section module.
Context (Σ : store_ty) (s : state) (e : ty).
Context (Hs : typed Σ s).

Lemma literal_ty_extends : Σ ⊆ literal_ty Σ s e.
Proof.
  unfold literal_ty. transitivity (<[patterns_loc s:=TArray e]> Σ); apply insert_subseteq.
  - eapply heap_typed_fresh; [done|apply patterns_loc_fresh].
  - rewrite lookup_insert_ne by (symmetry; apply patterns_loc_ne).
    eapply heap_typed_fresh; [done|apply overrides_loc_fresh].
Qed.

Lemma literal_ty_patterns : literal_ty Σ s e !! patterns_loc s = Some (TArray e).
Proof.
  unfold literal_ty. rewrite lookup_insert_ne by apply patterns_loc_ne.
  apply lookup_insert_eq.
Qed.

(** The two literals are typed. *)
Lemma literal_heap_typed items :
  Forall (λ v, has_type Σ v e) (items ++ extra_patterns) →
  heap_typed (literal_ty Σ s e) (literal_heap s items).
Proof.
  intros Hitems. unfold literal_ty, literal_heap. apply heap_typed_alloc.
  - apply heap_typed_alloc; [done|apply patterns_loc_fresh|].
    apply push_all_typed; [by constructor|]. eapply Forall_impl; [done|].
    intros v. apply has_type_mono, insert_subseteq.
    eapply heap_typed_fresh; [done|apply patterns_loc_fresh].
  - rewrite lookup_insert_ne by (symmetry; apply patterns_loc_ne). apply overrides_loc_fresh.
  - split; [done|]. constructor; [|done]. cbn [fst snd].
    rewrite (object_get_Some _ _ (VRef (patterns_loc s))); [apply literal_ty_patterns|done|].
    cbn. by rewrite decide_True.
Qed.

Context (cfg : loc) (fs : list (string * ty)).
Context (Hcfg : Σ !! cfg = Some (TObject fs)).
Context (Hkey : (patterns_key, TArray e) ∈ fs).

(** A base configuration of an object type that promises an array under
    [coveragePathIgnorePatterns] can be spread, and yields values of the
    element type. *)
Lemma typed_base_items :
  ∃ oc items, st_heap s !! cfg = Some oc ∧ cell_type Σ oc (TObject fs)
    ∧ base_items s (VRef cfg) = Return items ∧ Forall (λ v, has_type Σ v e) items
    ∧ has_type Σ (object_get oc patterns_key) (TArray e).
Proof.
  destruct (heap_typed_lookup _ _ _ _ Hs Hcfg) as (oc & Hoc & Hc).
  destruct (typed_field _ _ _ _ _ _ _ Hs Hcfg Hoc Hkey) as [Hplain Hp].
  destruct (has_type_ref _ _ _ Hp) as (p & Hget & HΣp); [left; by eexists|].
  destruct (heap_typed_lookup _ _ _ _ Hs HΣp) as (op & Hop & _).
  destruct (typed_elems _ _ _ _ _ Hs HΣp Hop) as (items & Hitems & Hall).
  exists oc, items. split_and!; [done..| |done|done].
  eapply base_items_array; [done| |done..].
  rewrite own_prop_plain by done. rewrite object_get_plain in Hget by done.
  destruct (prop_get (o_props oc) patterns_key); by simplify_eq/=.
Qed.

(** The new array suits the field of the base configuration. *)
Lemma patterns_fit oc :
  has_type Σ (object_get oc patterns_key) (TArray e) → cell_type Σ oc (TObject fs) →
  fits (literal_ty Σ s e) (TObject fs) patterns_key (VRef (patterns_loc s)).
Proof.
  intros _ Hc. eapply fits_field; [|done|apply literal_ty_patterns].
  eapply cell_type_mono; [apply literal_ty_extends|done].
Qed.

End module.

Lemma fits_mono Σ Σ' t k v : Σ ⊆ Σ' → fits Σ t k v → fits Σ' t k v.
Proof.
  intros Hsub. destruct t; cbn; try done.
  - intros Hv Hk. by eapply has_type_mono; [|apply Hv].
  - intros Hfs. eapply Forall_impl; [done|]. intros [k' t'] Hv Hk.
    by eapply has_type_mono; [|apply Hv].
Qed.

(** A cell in use keeps its type, or its lack of one, when the literals
    get theirs. *)
Lemma literal_ty_used Σ s e l :
  is_Some (st_heap s !! l) → literal_ty Σ s e !! l = Σ !! l.
Proof.
  intros [o Ho]. destruct (used_not_fresh _ _ _ Ho) as [? ?].
  unfold literal_ty. by rewrite !lookup_insert_ne.
Qed.

(** What a typed configuration holds under [coveragePathIgnorePatterns]. *)
Lemma typed_patterns Σ s v fs e :
  typed Σ s → has_type Σ v (TObject fs) → (patterns_key, TArray e) ∈ fs →
  ∃ vs, patterns_of s v = Some vs ∧ Forall (λ v, has_type Σ v e) vs.
Proof.
  intros Hs Hv Hkey. destruct (has_type_ref _ _ _ Hv) as (cfg & -> & Hcfg); [right; by eexists|].
  destruct (heap_typed_lookup _ _ _ _ Hs Hcfg) as (oc & Hoc & _).
  destruct (typed_field _ _ _ _ _ _ _ Hs Hcfg Hoc Hkey) as [_ Hp].
  destruct (has_type_ref _ _ _ Hp) as (p & Hget & HΣp); [left; by eexists|].
  destruct (heap_typed_lookup _ _ _ _ Hs HΣp) as (op & Hop & _).
  destruct (typed_elems _ _ _ _ _ Hs HΣp Hop) as (vs & Hvs & Hall).
  exists vs. split; [|done]. cbn. rewrite Hoc. cbn. change "coveragePathIgnorePatterns" with patterns_key.
  rewrite Hget, Hop. done.
Qed.

(** ** Summary: types are kept *)

(** A write that suits the type of its cell keeps the store typed.
    When the store is typed by [Σ] and the value written under [k] has the
    type that the cell's type promises for [k] (the element type for an
    index of an array, the field's type for a promised field of an object;
    any value for another key or for a cell without a type), the store after
    [set_member] is typed by [Σ], whether the write succeeds, is refused
    silently or raises. *)
Theorem set_member_preserves_types Σ strict l k v s :
  typed Σ s → write_fits Σ l k v → typed Σ (final (set_member strict l k v) s).
Proof. apply set_member_typed. Qed.

Section preservation.
Context `{ModuleHost} (module : loc).
Context (Σ : store_ty) (s0 s : state) (cfg : loc) (fs : list (string * ty)) (e : ty).
Context (Hreq : host_require base_request s0 = (Return (VRef cfg), s)).
Context (Hs : typed Σ s) (Hcfg : Σ !! cfg = Some (TObject fs)).
Context (Hkey : (patterns_key, TArray e) ∈ fs).
Context (Hextra : Forall (λ v, has_type Σ v e) extra_patterns).
Context (Hmod : is_Some (st_heap s !! module)).
Context (Hexp : write_fits Σ module "exports" (VRef cfg)).

(** The base configuration with the new array under its pattern key has
    the type it had. *)
Lemma merged_config_typed oc items :
  st_heap s !! cfg = Some oc → cell_type Σ oc (TObject fs) →
  base_items s (VRef cfg) = Return items → o_integrity oc ≠ Frozen →
  has_type Σ (object_get oc patterns_key) (TArray e) →
  cell_type (literal_ty Σ s e) (merged_config s oc) (TObject fs).
Proof.
  intros Hoc Hc Hb Hf Hp.
  eapply object_set_typed; [|by eapply patterns_fit|].
  - eapply cell_type_mono; [by apply literal_ty_extends|done].
  - by rewrite (object_set_patterns _ _ _ _ _ Hoc Hb), decide_False.
Qed.

(** The store the module leaves is typed, and the module did not fail in
    the member read or in the spread. *)
Lemma module_typed :
  typed (literal_ty Σ s e) (final (jest_config_body module) s0)
  ∧ (result (jest_config_body module) s0 = Return ()
     ∨ result (jest_config_body module) s0 = Throw (TypeError ReadOnly)).
Proof.
  destruct (typed_base_items Σ s e Hs cfg fs Hcfg Hkey)
    as (oc & items & Hoc & Hc & Hb & Hall & Hp).
  assert (heap_typed (literal_ty Σ s e) (literal_heap s items)) as Hlit
    by (apply literal_heap_typed; [done|by apply Forall_app]).
  unfold final, result, jest_config_body. run_step Hreq.
  destruct (decide (o_integrity oc = Frozen)) as [Hf|Hf].
  { rewrite (run_after_require_frozen module s cfg oc items Hoc Hb Hf). auto. }
  rewrite (run_after_require_merged module s cfg oc items Hoc Hb Hf). split.
  - apply set_member_typed.
    + apply heap_typed_insert; [done|]. intros t Ht.
      rewrite (lookup_weaken _ _ _ _ Hcfg (literal_ty_extends Σ s e Hs)) in Ht.
      injection Ht as <-. by eapply merged_config_typed.
    + unfold write_fits in *. rewrite literal_ty_used by done.
      destruct (Σ !! module); [|done]. eapply fits_mono; [by apply literal_ty_extends|done].
  - left. apply result_set_member_sloppy; [|apply exports_named].
    destruct Hmod as [om Hom]. cbn. apply lookup_insert_is_Some'. right.
    by rewrite (literal_heap_used _ _ _ _ Hom).
Qed.

End preservation.

Section summary.
Context `{ModuleHost} (module : loc).
Context (Σ : store_ty) (s0 s : state) (jc : value) (fs : list (string * ty)) (e : ty).

(** C10.  The module keeps the type of the base configuration.  Let
    [require] return a value [jc] of an object type that promises, under
    [coveragePathIgnorePatterns], an array of elements of a type [e] that
    the two new patterns have (strings, or [any]), in a store typed by [Σ]
    in which the module object exists and may take [jc] as its [exports].
    Then the module ends normally or with the [TypeError] of a frozen base
    configuration, never with that of the member read or of the spread, and
    in both cases the store it leaves is typed by [Σ] extended with the
    types of the two literals: [jc] still has its type, and its patterns are
    an array whose elements all have type [e]. *)
Theorem jest_config_preserves_types :
  host_require base_request s0 = (Return jc, s) →
  typed Σ s → has_type Σ jc (TObject fs) → (patterns_key, TArray e) ∈ fs →
  Forall (λ v, has_type Σ v e) extra_patterns →
  is_Some (st_heap s !! module) → write_fits Σ module "exports" jc →
  let Σ' := literal_ty Σ s e in
  let s' := final (jest_config_body module) s0 in
  Σ ⊆ Σ' ∧ typed Σ' s' ∧ has_type Σ' jc (TObject fs)
  ∧ (∃ vs, patterns_of s' jc = Some vs ∧ Forall (λ v, has_type Σ' v e) vs)
  ∧ (result (jest_config_body module) s0 = Return ()
     ∨ result (jest_config_body module) s0 = Throw (TypeError ReadOnly)).
Proof.
  intros Hreq Hs Hjc Hkey Hextra Hmod Hexp Σ' s'.
  pose proof (literal_ty_extends Σ s e Hs) as Hsub.
  assert (has_type Σ' jc (TObject fs)) as Hjc' by by eapply has_type_mono.
  destruct (has_type_ref _ _ _ Hjc) as (cfg & -> & Hcfg); [right; by eexists|].
  destruct (module_typed module Σ s0 s cfg fs e) as [Hs' Hr]; [done..|].
  split_and!; [done..|by eapply typed_patterns|done].
Qed.

End summary.

(** ** The theorems on a concrete store

    [sample_ty] types the configuration of [sample_state] as Jest reads it;
    the module objects have no type. *)
Definition sample_ty : store_ty :=
  {[ 2%positive := TObject [("testEnvironment", TString);
                            ("coveragePathIgnorePatterns", TArray TString);
                            ("testTimeout", TNumber)];
     3%positive := TArray TString ]}.

Lemma sample_state_typed : typed sample_ty sample_state.
Proof. by_compute. Defined.

Lemma set_member_preserves_types_witness :
  typed sample_ty
    (final (set_member true 2%positive "testTimeout" (VNum 100)) sample_state).
Proof.
  apply (set_member_preserves_types _ _ _ _ _ _ sample_state_typed). by_compute.
Defined.

Lemma jest_config_preserves_types_witness :
  let Σ' := literal_ty sample_ty sample_state TString in
  let s' := final (jest_config_body (H := cache_host) 4%positive) sample_state in
  sample_ty ⊆ Σ' ∧ typed Σ' s'
  ∧ has_type Σ' (VRef 2%positive) (TObject [("testEnvironment", TString);
                                            ("coveragePathIgnorePatterns", TArray TString);
                                            ("testTimeout", TNumber)])
  ∧ (∃ vs, patterns_of s' (VRef 2%positive) = Some vs
       ∧ Forall (λ v, has_type Σ' v TString) vs)
  ∧ (result (jest_config_body (H := cache_host) 4%positive) sample_state = Return ()
     ∨ result (jest_config_body (H := cache_host) 4%positive) sample_state
       = Throw (TypeError ReadOnly)).
Proof.
  apply (jest_config_preserves_types (H := cache_host) 4%positive sample_ty
           sample_state sample_state (VRef 2%positive)); by_compute.
Defined.
