(* ===== verification/Soundness.v ===== *)
(** * Soundness: the types are kept by every step

    [Typing] shows that the store the module leaves is typed.  This file
    shows it of every store on the way, over the machine of [Machine]: a
    typed configuration steps to a typed configuration (preservation), and
    the only operation that can fail from a typed configuration is the copy
    of [Object.assign] into a frozen base configuration (progress, but for
    that one [TypeError]).

    The store typing grows with the run.  The array literal gets the type
    of the base patterns when it is allocated, empty; the object literal has
    no type while it is empty, and gets the type that promises its one
    field when the field is defined.  [point_typed Σ' p] says what the
    values of the point [p] are in the store typing [Σ'] of the moment:
    which cells are typed, that the value read at line 5 is an array of the
    element type, that the values still to store have that type. *)

From S2P Require Import Prelude Exec Props Heap Objects Builtins Host JestConfig.
From S2P Require Import Invariant Trans Machine Typing.

(** A location in use is not the next one allocated. *)
Lemma fresh_loc_ne h l : is_Some (h !! l) → fresh_loc h ≠ l.
Proof. intros [o Hl] <-. by rewrite fresh_loc_fresh in Hl. Qed.

Section soundness.
Context `{ModuleHost} (module : loc).
Context (Σ : store_ty) (cfg : loc) (fs : list (string * ty)) (e : ty).
Implicit Types (p : point) (s : state) (c : config).

(** The type of the object literal of lines 3 to 9. *)
Definition literal_type : ty := TObject [(patterns_key, TArray e)].

(** [typing_of Σ' s]: the store typing [Σ'] of the moment extends the one
    the run started from, types the store, and has left the module object
    as it was: no type, or the type it had. *)
Definition typing_of (Σ' : store_ty) s : Prop :=
  Σ ⊆ Σ' ∧ Σ' !! module = Σ !! module ∧ typed Σ' s.

Definition point_typed (Σ' : store_ty) p : Prop :=
  match p with
  | AtRequire => False
  | AtObject jc => jc = VRef cfg
  | AtArray jc o => jc = VRef cfg ∧ Σ' !! o = None ∧ o ≠ module
  | AtMember jc o a | AtDefine jc o a =>
      jc = VRef cfg ∧ Σ' !! o = None ∧ o ≠ module ∧ Σ' !! a = Some (TArray e)
  | AtSpread jc o a base =>
      jc = VRef cfg ∧ Σ' !! o = None ∧ o ≠ module ∧ Σ' !! a = Some (TArray e)
      ∧ has_type Σ' base (TArray e)
  | AtElement jc o a _ vs | AtLiteral jc o a _ vs =>
      jc = VRef cfg ∧ Σ' !! o = None ∧ o ≠ module ∧ Σ' !! a = Some (TArray e)
      ∧ Forall (λ v, has_type Σ' v e) vs
  | AtAssign jc o => jc = VRef cfg ∧ Σ' !! o = Some literal_type
  | AtCopy to from ks =>
      to = cfg ∧ Σ' !! from = Some literal_type ∧ Forall (λ k, k = patterns_key) ks
  | AtExport merged => merged = VRef cfg
  end.

(** A typed configuration: one that is reached once [require] has returned
    the base configuration.  A configuration that has raised has raised the
    [TypeError] of a write to a frozen base configuration. *)
Definition config_typed c : Prop :=
  match c with
  | Running p s => ∃ Σ', typing_of Σ' s ∧ point_typed Σ' p
  | Done s => ∃ Σ', typing_of Σ' s
  | Raised err s =>
      err = TypeError ReadOnly
      ∧ (∃ oc, st_heap s !! cfg = Some oc ∧ o_integrity oc = Frozen)
      ∧ ∃ Σ', typing_of Σ' s
  end.

Context (Hcfg : Σ !! cfg = Some (TObject fs)).
Context (Hkey : (patterns_key, TArray e) ∈ fs).
Context (Hextra : Forall (λ v, has_type Σ v e) extra_patterns).
Context (Hexp : write_fits Σ module "exports" (VRef cfg)).

(** ** The store typing of the moment *)

Lemma typing_of_refl s : typed Σ s → typing_of Σ s.
Proof. by split. Qed.

Lemma typing_of_typed Σ' s s' : typing_of Σ' s → typed Σ' s' → typing_of Σ' s'.
Proof. by intros (? & ? & _) ?. Qed.

(** A cell other than the module object gets a type. *)
Lemma typing_of_insert Σ' s s' l t :
  typing_of Σ' s → Σ' !! l = None → l ≠ module → typed (<[l:=t]> Σ') s' →
  typing_of (<[l:=t]> Σ') s'.
Proof.
  intros (Hsub & Hm & _) Hl Hne Hs'. split; [|by rewrite lookup_insert_ne].
  etransitivity; [done|by apply insert_subseteq].
Qed.

(** The base configuration is typed all along. *)
Lemma typing_of_config Σ' s :
  typing_of Σ' s →
  Σ' !! cfg = Some (TObject fs)
  ∧ ∃ oc, st_heap s !! cfg = Some oc ∧ cell_type Σ' oc (TObject fs).
Proof.
  intros (Hsub & _ & Hs). pose proof (lookup_weaken _ _ _ _ Hcfg Hsub) as Hc.
  split; [done|]. by apply (heap_typed_lookup _ _ _ _ Hs Hc).
Qed.

Lemma typing_of_export Σ' s : typing_of Σ' s → write_fits Σ' module "exports" (VRef cfg).
Proof.
  intros (Hsub & Hm & _). unfold write_fits in *. rewrite Hm.
  destruct (Σ !! module); [|done]. by eapply fits_mono.
Qed.

Lemma module_used p s : point_ok module [] p s → is_Some (st_heap s !! module).
Proof. intros [Hok _]. apply (ok_state_elem _ _ (VRef module) Hok). by left. Qed.

(** ** Preservation, operation by operation *)

Local Notation "p '~>' s" :=
  (point_ok module [] p s → config_typed (Running p s) →
   config_typed (arrive (next module p s))) (at level 70, only parsing).

Lemma typed_require s : AtRequire ~> s.
Proof. by intros _ (Σ' & _ & ?). Qed.

Lemma typed_object jc s : AtObject jc ~> s.
Proof.
  intros Hp (Σ' & HΣ & ->). cbn [next]. rewrite run_bind, run_alloc, run_ret.
  pose proof (fresh_loc_fresh (st_heap s)) as Hl. exists Σ'. split.
  - eapply typing_of_typed; [done|]. apply heap_typed_extend; [apply HΣ|done].
  - split_and!; [done| |by apply fresh_loc_ne, (module_used _ _ Hp)].
    eapply heap_typed_fresh; [apply HΣ|done].
Qed.

Lemma typed_array jc o s : AtArray jc o ~> s.
Proof.
  intros Hp (Σ' & HΣ & -> & Ho & Hom). cbn [next]. rewrite run_bind, run_alloc, run_ret.
  pose proof (fresh_loc_fresh (st_heap s)) as Hl.
  pose proof (heap_typed_fresh _ _ _ (proj2 (proj2 HΣ)) Hl) as HΣl.
  assert (fresh_loc (st_heap s) ≠ o) as Hne
    by (apply fresh_loc_ne; destruct Hp as [_ Ha]; cbn in Ha; by rewrite Ha).
  exists (<[fresh_loc (st_heap s):=TArray e]> Σ'). split.
  - eapply typing_of_insert; [done..|by apply fresh_loc_ne, (module_used _ _ Hp)|].
    apply heap_typed_alloc; [apply HΣ|done|]. by constructor.
  - split_and!; [done|by rewrite lookup_insert_ne|done|apply lookup_insert_eq].
Qed.

Lemma typed_member jc o a s : AtMember jc o a ~> s.
Proof.
  intros _ (Σ' & HΣ & -> & Ho & Hom & Ha). cbn [next].
  destruct (typing_of_config _ _ HΣ) as (Hc & oc & Hoc & Hty).
  rewrite run_bind, (run_get_member_ref _ _ _ _ Hoc), run_ret.
  exists Σ'. split; [done|]. split_and!; [done..|].
  by destruct (typed_field _ _ _ _ _ _ _ (proj2 (proj2 HΣ)) Hc Hoc Hkey).
Qed.

Lemma typed_spread jc o a base s : AtSpread jc o a base ~> s.
Proof.
  intros _ (Σ' & HΣ & -> & Ho & Hom & Ha & Hb). cbn [next].
  destruct (has_type_ref _ _ _ Hb) as (p & -> & Hp); [left; by eexists|].
  destruct (heap_typed_lookup _ _ _ _ (proj2 (proj2 HΣ)) Hp) as (op & Hop & _).
  destruct (typed_elems _ _ _ _ _ (proj2 (proj2 HΣ)) Hp Hop) as (vs & Hvs & Hall).
  rewrite run_bind, (run_iterate_array _ _ _ _ Hop Hvs), run_ret.
  exists Σ'. by split.
Qed.

(** A store into the new array of a value of the element type. *)
Lemma typed_push (Σ' : store_ty) s a i v s' :
  typing_of Σ' s → Σ' !! a = Some (TArray e) → has_type Σ' v e →
  create_data_property a (key_of_index i) v s = (Return (), s') → typing_of Σ' s'.
Proof.
  intros HΣ Ha Hv E. eapply typing_of_typed; [done|]. unfold create_data_property in E.
  eapply set_member_typed_run; [exact E|apply HΣ|]. unfold write_fits. rewrite Ha. by intros _.
Qed.

(** The two loops: the next value is stored and the rest is still typed. *)
Local Ltac typed_store_next :=
  let s' := fresh "s'" in
  intros Hp (Σ' & HΣ & -> & Ho & Hom & Ha & [Hv Hvs]%Forall_cons);
  destruct (next_quiet module [] _ _ Hp eq_refl) as (op & s' & E); rewrite E;
  cbn [next] in E; apply return_then in E as ([] & E & ->);
  exists Σ'; split; [by eapply typed_push|done].

Lemma typed_element jc o a i vs s : AtElement jc o a i vs ~> s.
Proof.
  destruct vs as [|v vs]; [|typed_store_next].
  intros _ (Σ' & HΣ & -> & Ho & Hom & Ha & _). cbn [next]. rewrite run_ret.
  exists Σ'. split; [done|]. split_and!; [done..|].
  eapply Forall_impl; [exact Hextra|]. intros v. apply has_type_mono, HΣ.
Qed.

Lemma typed_literal jc o a i vs s : AtLiteral jc o a i vs ~> s.
Proof.
  destruct vs as [|v vs]; [|typed_store_next].
  intros _ (Σ' & HΣ & -> & Ho & Hom & Ha & _). cbn [next]. rewrite run_ret.
  exists Σ'. by split.
Qed.

(** The property is defined: the object literal gets its type. *)
Lemma typed_define jc o a s : AtDefine jc o a ~> s.
Proof.
  intros [_ [Hho _]] (Σ' & HΣ & -> & Ho & Hom & Ha). cbn [next].
  unfold create_data_property.
  rewrite run_bind, (run_set_member_ok true o patterns_key (VRef a) s _ _ Hho eq_refl), run_ret.
  assert (o ≠ a) as Hne by congruence.
  exists (<[o:=literal_type]> Σ'). split; [|split; [done|apply lookup_insert_eq]].
  eapply typing_of_insert; [done..|]. eapply heap_typed_declare; [|done|apply lookup_insert_eq|].
  - apply heap_typed_insert; [apply HΣ|]. intros t Ht. by rewrite Ho in Ht.
  - split; [done|]. constructor; [|done]. cbn [fst snd].
    rewrite (object_get_Some _ _ (VRef a)); [|done|cbn; by rewrite decide_True].
    cbn. by rewrite lookup_insert_ne.
Qed.

Lemma typed_assign jc o s : AtAssign jc o ~> s.
Proof.
  intros [_ (_ & v & Hho)] (Σ' & HΣ & -> & Ho). cbn [next to_object].
  rewrite run_bind, run_ret, run_bind, (run_read_obj _ _ _ Hho), run_ret.
  exists Σ'. split; [done|]. split_and!; [done..|]. by repeat constructor.
Qed.

(** The copy: the value of the literal's field suits the field of the base
    configuration, and the write is refused by a frozen object only. *)
Lemma typed_copy to from ks s : AtCopy to from ks ~> s.
Proof.
  destruct ks as [|k ks].
  { intros _ (Σ' & HΣ & -> & _). cbn [next]. rewrite run_ret. exists Σ'. by split. }
  intros _ (Σ' & HΣ & -> & Hfrom & [-> Hks]%Forall_cons).
  pose proof (proj2 (proj2 HΣ)) as Hs.
  destruct (heap_typed_lookup _ _ _ _ Hs Hfrom) as (src & Hsrc & Hcs).
  destruct (typed_field_present _ _ _ _ _ Hcs ltac:(by left)) as (v & Hv & Hvt).
  destruct (typing_of_config _ _ HΣ) as (Hc & oc & Hoc & Hty).
  cbn [next]. unfold copy_prop.
  rewrite run_bind, run_bind, (run_read_obj _ _ _ Hsrc), own_prop_plain, Hv by apply Hcs.
  destruct (set_member true cfg patterns_key v s) as [[[]|err] s'] eqn:E.
  - rewrite run_ret. exists Σ'. split; [|done]. eapply typing_of_typed; [done|].
    eapply set_member_typed_run; [exact E|done|]. unfold write_fits. rewrite Hc.
    by eapply fits_field.
  - destruct (typed_write_raises _ _ _ _ _ _ _ _ _ Hs Hc Hkey E) as (-> & -> & Hfz).
    split_and!; [done..|by exists Σ'].
Qed.

Lemma typed_export merged s : AtExport merged ~> s.
Proof.
  intros Hp (Σ' & HΣ & ->).
  destruct (next_quiet module [] _ _ Hp eq_refl) as (op & s' & E). rewrite E.
  cbn [next] in E. apply return_then in E as ([] & E & ->).
  exists Σ'. eapply typing_of_typed; [done|].
  eapply set_member_typed_run; [exact E|apply HΣ|by eapply typing_of_export].
Qed.

(** Every operation keeps the configuration typed. *)
Lemma next_typed p s : p ~> s.
Proof.
  destruct p; auto using typed_require, typed_object, typed_array, typed_member,
    typed_spread, typed_element, typed_literal, typed_define, typed_assign, typed_copy,
    typed_export.
Qed.

Lemma step_typed :
  invariant (step module) (λ c, config_ok module [] c ∧ config_typed c).
Proof.
  intros c c' [Hok Hc] Hstep. split; [by eapply step_ok|].
  destruct (step_inv module _ _ Hstep) as (p & s & -> & ->). by apply next_typed.
Qed.

(** ** Type safety of the runs *)

(** What a typed configuration says of its store. *)
Lemma config_typed_store c : config_typed c → ∃ Σ', Σ ⊆ Σ' ∧ typed Σ' (store_of c).
Proof.
  destruct c as [p s|s|err s]; cbn [config_typed store_of].
  - intros (Σ' & (? & _ & ?) & _). by exists Σ'.
  - intros (Σ' & ? & _ & ?). by exists Σ'.
  - intros (_ & _ & Σ' & ? & _ & ?). by exists Σ'.
Qed.

(** Once [require] has returned a typed base configuration, every
    configuration is typed. *)
Lemma typed_reachable s0 s1 c :
  module_state [] module s0 → host_require base_request s0 = (Return (VRef cfg), s1) →
  typed Σ s1 → rtc (step module) (start s0) c → c ≠ start s0 → config_typed c.
Proof.
  intros Hok Hreq Hs [->|(c1 & Hstep & Hc)]%rtc_inv Hne; [done|].
  eapply (invariant_rtc _ _ c1 c step_typed); [|done]. split.
  - eapply step_ok; [|done]. by split.
  - destruct (step_inv module _ _ Hstep) as (p & s & [= <- <-] & ->).
    cbn [next]. rewrite run_bind, Hreq, run_ret. exists Σ. by split.
Qed.

(** C11.  Type safety, step by step.  Let [require] return a base
    configuration of an object type that promises, under
    [coveragePathIgnorePatterns], an array of elements of a type that the
    two new patterns have, in a store typed by [Σ] in which the module
    object may take the base configuration as its [exports].  Then every
    configuration the machine reaches afterwards, final or not, has a store
    typed by an extension of [Σ]: no operation of the module, the stores
    into the new array and the copy of [Object.assign] included, leaves a
    cell at odds with its type.  And the run does not go wrong but in one
    way: a configuration that has raised has raised the [TypeError] of a
    write to a base configuration that is frozen; the member read and the
    spread of line 5 cannot fail. *)
Theorem typed_run_is_safe s0 s1 c :
  module_state [] module s0 → host_require base_request s0 = (Return (VRef cfg), s1) →
  typed Σ s1 → rtc (step module) (start s0) c → c ≠ start s0 →
  (∃ Σ', Σ ⊆ Σ' ∧ typed Σ' (store_of c))
  ∧ ∀ err s, c = Raised err s →
      err = TypeError ReadOnly ∧ ∃ oc, st_heap s !! cfg = Some oc ∧ o_integrity oc = Frozen.
Proof.
  intros Hok Hreq Hs Hc Hne. pose proof (typed_reachable s0 s1 c Hok Hreq Hs Hc Hne) as Ht.
  split; [by apply config_typed_store|]. intros err s ->. by destruct Ht as (? & ? & _).
Qed.

End soundness.

(** ** The theorem on concrete stores

    On [JestConfig.sample_state], typed by [Typing.sample_ty], after nine
    steps; and on the same store with a frozen base configuration, where
    the run ends in the exception the theorem allows. *)

Lemma typed_run_is_safe_witness :
  let c := run (H := cache_host) 4%positive 9 (start sample_state) in
  (∃ Σ', sample_ty ⊆ Σ' ∧ typed Σ' (store_of c))
  ∧ ∀ err s, c = Raised err s →
      err = TypeError ReadOnly
      ∧ ∃ oc, st_heap s !! 2%positive = Some oc ∧ o_integrity oc = Frozen.
Proof.
  intros c.
  apply (typed_run_is_safe (H := cache_host) 4%positive sample_ty 2%positive
           [("testEnvironment", TString); ("coveragePathIgnorePatterns", TArray TString);
            ("testTimeout", TNumber)] TString eq_refl ltac:(by_compute) ltac:(by_compute)
           ltac:(by_compute) sample_state sample_state c sample_state_ok eq_refl
           sample_state_typed (run_rtc _ _ _)).
  by_compute.
Defined.

Example frozen_run_raises_read_only :
  let s0 := store_with (VRef 2%positive) frozen_config sample_module sample_cache in
  ∃ s, run (H := cache_host) 4%positive 20 (start s0) = Raised (TypeError ReadOnly) s
     ∧ typed sample_ty s0.
Proof. intros s0. eexists. split; [by vm_compute|by_compute]. Qed.
