(* ===== verification/Represent.v ===== *)
(** * Represent: the module on every configuration of the specification

    [Compose] relates a store to the configuration it denotes, by
    [config_of], and shows that the module implements [compose] on a store
    that is [ready].  This file goes the other way: [represent b] is the
    store in which Node runs [jest.config.js] when [kcd-scripts/jest]
    exports the configuration [b] of the specification, with

    - the module object of [kcd-scripts/jest] at 1, in the module cache;
    - the configuration object at 2, one property per setting of [b];
    - the module object of [jest.config.js] at 3, its initial [exports],
      the empty object, at 4;
    - one array per sequence of [b], the one of key [k] at [array_loc k].

    A configuration is [flat] when its settings are primitive values and
    sequences of primitive values.  For every flat [b]:

    - [represent b] is well formed and denotes [b] (the round trip of
      [config_of] and [represent]);
    - when [b] has a sequence of patterns, [represent b] is [ready], so the
      theorems of [JestConfig], [Compose] and [Machine] apply: the module
      exports [compose b module_overrides];
    - when [b] has no patterns, the module raises where [compose] appends
      to the empty sequence;
    - when the patterns of [b] are one string, the module spreads its
      characters where [compose] replaces it.

    Together these say on which configurations the module and the composer
    of the specification agree ([agrees], decidable).  The file also
    instantiates the step count of [Machine] and the repeated evaluation of
    [Sharing] on represented stores, and shows that the store of a
    configuration whose patterns are strings is typed, so that the type
    safety of [Soundness] holds of every run from it. *)

From S2P Require Import Prelude Exec Props Heap Objects Builtins Host JestConfig.
From S2P Require Import Invariant Trans Machine Typing Soundness Compose Sharing.

(** ** Flat configurations *)

Definition primitive (v : value) : Prop :=
  match v with VRef _ => False | _ => True end.

#[export] Instance primitive_dec v : Decision (primitive v).
Proof. destruct v; apply _. Defined.

Definition flat_setting (st : setting) : Prop :=
  match st with
  | Seq xs => Forall primitive xs
  | Scalar v => primitive v
  end.

#[export] Instance flat_setting_dec st : Decision (flat_setting st).
Proof. destruct st; apply _. Defined.

Definition flat (b : configuration) : Prop := map_Forall (λ _, flat_setting) b.

#[export] Instance flat_dec b : Decision (flat b).
Proof. unfold flat. apply _. Defined.

(** ** The store of a configuration *)

Definition base_module_loc : loc := 1%positive.
Definition config_loc : loc := 2%positive.
Definition module_loc : loc := 3%positive.
Definition exports_loc : loc := 4%positive.

(** The array of the sequence under key [k]: a location of its own, past
    the four above. *)
Definition array_loc (k : string) : loc := (encode k + exports_loc)%positive.

(** The value of the property that holds a setting. *)
Definition value_of (k : string) (st : setting) : value :=
  match st with
  | Seq _ => VRef (array_loc k)
  | Scalar v => v
  end.

Definition array_of (st : setting) : option object :=
  match st with
  | Seq xs => Some (array_object xs)
  | Scalar _ => None
  end.

Definition arrays (b : configuration) : gmap loc object :=
  kmap array_loc (omap array_of b).

Definition config_props (b : configuration) : gmap string value :=
  map_imap (λ k st, Some (value_of k st)) b.

Definition config_object (b : configuration) : object :=
  plain_object (map_to_list (config_props b)).

Definition base_module : object :=
  plain_object [("id", VStr "kcd-scripts/jest"); ("exports", VRef config_loc);
                ("loaded", VBool true)].

Definition this_module : object :=
  plain_object [("id", VStr "."); ("exports", VRef exports_loc); ("loaded", VBool false)].

Definition represent (b : configuration) : state :=
  State
    (<[base_module_loc:=base_module]>
       (<[config_loc:=config_object b]>
          (<[module_loc:=this_module]>
             (<[exports_loc:=plain_object []]> (arrays b)))))
    {[ base_request := base_module_loc ]}.

Arguments represent : simpl never.

(** ** Cells of the store *)

#[export] Instance array_loc_inj : Inj (=) (=) array_loc.
Proof. intros k k' Hk. unfold array_loc in Hk. apply (inj encode). lia. Qed.

Lemma array_loc_above k : (exports_loc < array_loc k)%positive.
Proof. unfold array_loc. lia. Qed.

Section cells.
Context (b : configuration).
Implicit Types (k : string) (l : loc) (st : setting).

Lemma lookup_arrays k : arrays b !! array_loc k = b !! k ≫= array_of.
Proof. unfold arrays. rewrite lookup_kmap by apply _. apply lookup_omap. Qed.

Lemma lookup_arrays_inv l o :
  arrays b !! l = Some o →
  ∃ k xs, l = array_loc k ∧ b !! k = Some (Seq xs) ∧ o = array_object xs.
Proof.
  unfold arrays. intros Hl. apply (lookup_kmap_Some _) in Hl as (k & -> & Hk).
  rewrite lookup_omap in Hk. destruct (b !! k) as [[xs|v]|] eqn:Hb; simplify_eq/=.
  by exists k, xs.
Qed.

Lemma represent_base_module : st_heap (represent b) !! base_module_loc = Some base_module.
Proof. apply lookup_insert_eq. Qed.

Lemma represent_config : st_heap (represent b) !! config_loc = Some (config_object b).
Proof. unfold represent. cbn. rewrite lookup_insert_ne by done. apply lookup_insert_eq. Qed.

Lemma represent_module : st_heap (represent b) !! module_loc = Some this_module.
Proof. unfold represent. cbn. rewrite !lookup_insert_ne by done. apply lookup_insert_eq. Qed.

Lemma represent_exports : st_heap (represent b) !! exports_loc = Some (plain_object []).
Proof. unfold represent. cbn. rewrite !lookup_insert_ne by done. apply lookup_insert_eq. Qed.

Lemma represent_array k : st_heap (represent b) !! array_loc k = b !! k ≫= array_of.
Proof.
  pose proof (array_loc_above k) as Hk. unfold represent. cbn.
  rewrite !lookup_insert_ne
    by (cbv [base_module_loc config_loc module_loc exports_loc] in *; lia).
  apply lookup_arrays.
Qed.

(** Every cell of the store is one of the five kinds. *)
Lemma represent_lookup_inv l o :
  st_heap (represent b) !! l = Some o →
  o ∈ [base_module; config_object b; this_module; plain_object []]
  ∨ ∃ k xs, l = array_loc k ∧ b !! k = Some (Seq xs) ∧ o = array_object xs.
Proof.
  unfold represent. cbn. rewrite !lookup_insert_Some.
  intros [[_ <-]|[_ [[_ <-]|[_ [[_ <-]|[_ [[_ <-]|[_ Hl]]]]]]]];
    [left; set_solver..|right; by apply lookup_arrays_inv].
Qed.

(** The properties of the configuration object. *)
Lemma to_map_config : to_map (o_props (config_object b)) = config_props b.
Proof. apply list_to_map_to_list. Qed.

Lemma prop_get_config k :
  prop_get (o_props (config_object b)) k = value_of k <$> b !! k.
Proof.
  rewrite prop_get_to_map, to_map_config. unfold config_props.
  rewrite map_lookup_imap. by destruct (b !! k).
Qed.

Lemma own_prop_config k : own_prop (config_object b) k = value_of k <$> b !! k.
Proof. by rewrite own_prop_plain, prop_get_config. Qed.

End cells.

(** ** A flat configuration and its store *)

Lemma primitive_ok h v : primitive v → value_ok h v.
Proof. by destruct v. Qed.

(** What the spread of line 5 yields on a setting: the items of a
    sequence, the characters of a string, nothing on another value. *)
Definition spread_of (st : setting) : option (list value) :=
  match st with
  | Seq xs => Some xs
  | Scalar (VStr str) => Some (chars str)
  | Scalar _ => None
  end.

Section represented.
Context (b : configuration) (Hflat : flat b).
Implicit Types (k : string) (st : setting) (xs : list value).

Local Abbreviation s := (represent b).

Lemma setting_of_represent k st :
  b !! k = Some st → setting_of s (value_of k st) = st.
Proof.
  intros Hk. pose proof (Hflat k st Hk) as Hst. destruct st as [xs|v]; [|by destruct v].
  cbn [value_of setting_of]. unfold elems_at. by rewrite represent_array, Hk.
Qed.

(** The configuration object denotes [b]. *)
Lemma denoted_settings : setting_of s <$> to_map (o_props (config_object b)) = b.
Proof.
  rewrite to_map_config. apply map_eq. intros k. unfold config_props.
  rewrite lookup_fmap, map_lookup_imap. destruct (b !! k) as [st|] eqn:Hk; [|done].
  cbn. by rewrite (setting_of_represent k st).
Qed.

Lemma config_of_represent : config_of s (VRef config_loc) = Some b.
Proof.
  unfold config_of. rewrite represent_config. cbn [mbind option_bind].
  by rewrite denoted_settings.
Qed.

(** *** Well-formedness *)

Lemma value_of_ok k st : b !! k = Some st → value_ok (st_heap s) (value_of k st).
Proof.
  intros Hk. pose proof (Hflat k st Hk) as Hst. destruct st as [xs|v]; [|by apply primitive_ok].
  cbn [value_of value_ok]. rewrite represent_array, Hk. by eexists.
Qed.

Lemma config_object_wf : object_wf (st_heap s) (config_object b).
Proof.
  split_and!; [apply NoDup_fst_map_to_list| |done..].
  apply Forall_fmap, Forall_forall. intros [k v] Hkv%elem_of_map_to_list.
  unfold config_props in Hkv. rewrite map_lookup_imap in Hkv.
  destruct (b !! k) as [st|] eqn:Hk; simplify_eq/=. by apply value_of_ok.
Qed.

Lemma array_object_wf xs : Forall primitive xs → object_wf (st_heap s) (array_object xs).
Proof.
  intros Hxs. split_and!; [apply NoDup_nil_2|done| |done].
  cbn. eapply Forall_impl; [done|]. intros v. apply primitive_ok.
Qed.

Lemma closed_object_wf o :
  o ∈ [base_module; this_module; plain_object []] → object_wf (st_heap s) o.
Proof.
  intros Ho. assert (props_wf (o_props o) ∧ o_elems o = None
    ∧ Forall (λ v, v ∈ [VRef config_loc; VRef exports_loc] ∨ primitive v) (o_props o).*2)
    as (Hnd & Hel & Hvs) by (set_unfold; destruct Ho as [->|[->|[->|[]]]]; by_compute).
  split_and!; [done| |by rewrite Hel|unfold is_array; by rewrite Hel].
  eapply Forall_impl; [done|]. intros v [Hv|Hv]; [|by apply primitive_ok].
  rewrite !elem_of_cons, elem_of_nil in Hv. destruct Hv as [->|[->|[]]]; cbn [value_ok];
    [rewrite represent_config|rewrite represent_exports]; by eexists.
Qed.

Lemma represent_wf : state_wf s.
Proof.
  split; [|apply map_Forall_singleton; rewrite represent_base_module; by eexists].
  intros l o [Ho|(k & xs & -> & Hk & ->)]%represent_lookup_inv.
  - rewrite !elem_of_cons, elem_of_nil in Ho.
    destruct Ho as [->|[->|[->|[->|[]]]]]; [|apply config_object_wf|..];
      apply closed_object_wf; rewrite !elem_of_cons; tauto.
  - apply array_object_wf, (Hflat k _ Hk).
Qed.

Lemma represent_module_state : module_state [] module_loc s.
Proof.
  split; [apply represent_wf|]. constructor; [|done].
  cbn [value_ok]. rewrite represent_module. by eexists.
Qed.

(** *** What [require] and the spread give *)

Lemma represent_require :
  host_require (ModuleHost := cache_host) base_request s = (Return (VRef config_loc), s).
Proof.
  apply (run_require _ _ base_module_loc base_module); [done|apply represent_base_module].
Qed.

Lemma represent_items :
  base_items s (VRef config_loc)
  = from_option Return (Throw (TypeError NotIterable)) (b !! patterns_key ≫= spread_of).
Proof.
  rewrite (base_items_object _ _ _ (represent_config b)). unfold result.
  destruct (b !! patterns_key) as [st|] eqn:Hk.
  - rewrite (object_get_present _ _ (value_of patterns_key st))
      by (done || by rewrite own_prop_config, Hk).
    pose proof (Hflat _ _ Hk) as Hst. destruct st as [xs|v]; [|by destruct v].
    cbn [value_of]. by rewrite (run_iterate_array _ _ (array_object xs) xs)
      by (done || by rewrite represent_array, Hk).
  - by rewrite object_get_absent by (done || by rewrite own_prop_config, Hk).
Qed.

Lemma represent_ready xs :
  b !! patterns_key ≫= spread_of = Some xs →
  ready (H := cache_host) module_loc config_loc s s (config_object b) this_module xs.
Proof.
  intros Hk. split; [apply represent_require|apply represent_config| |done|
                     apply represent_module|done|done].
  by rewrite represent_items, Hk.
Qed.

End represented.

(** ** The module and the composer on a flat configuration *)

(** [agrees b]: run where [kcd-scripts/jest] exports [b], the module
    completes and exports the configuration that [compose] gives. *)
Definition agrees (b : configuration) : Prop :=
  let run := jest_config_body (H := cache_host) module_loc in
  match compose (Some b) module_overrides with
  | inr c =>
      result run (represent b) = Return ()
      ∧ module_exports module_loc (final run (represent b))
        ≫= config_of (final run (represent b)) = Some c
  | inl _ => False
  end.

#[export] Instance agrees_dec b : Decision (agrees b).
Proof. unfold agrees. destruct (compose _ _); apply _. Defined.

Lemma compose_module_overrides b :
  compose (Some b) module_overrides
  = inr (<[patterns_key:=combine (b !! patterns_key) (Seq extra_patterns)]> b).
Proof. cbn [compose]. unfold module_overrides. by rewrite compose_override. Qed.

Lemma chars_nil str : chars str = [] ↔ str = EmptyString.
Proof. by destruct str. Qed.

Section agreement.
Context (b : configuration) (Hflat : flat b).

Local Abbreviation run := (jest_config_body (H := cache_host) module_loc).

(** The spread raises: so does the module. *)
Lemma represent_raises :
  b !! patterns_key ≫= spread_of = None →
  result run (represent b) = Throw (TypeError NotIterable).
Proof.
  intros Hk. unfold result, jest_config_body. run_step (represent_require b).
  rewrite (run_after_require_throw _ _ _ (TypeError NotIterable)); [done| |done].
  by rewrite represent_items, Hk.
Qed.

Context (xs : list value) (Hxs : b !! patterns_key ≫= spread_of = Some xs).
Context (Hbound : (N.of_nat (length xs + 2) ≤ max_array_index + 1)%N).

(** The spread yields [xs]: the module completes, and what it exports
    denotes [b] with [xs] and the two new patterns under the key. *)
Lemma represent_completes : result run (represent b) = Return ().
Proof. unfold result. by rewrite (ready_run _ _ _ _ _ _ _ (represent_ready b Hflat xs Hxs)). Qed.

Lemma exported_config :
  module_exports module_loc (final run (represent b))
    ≫= config_of (final run (represent b))
  = Some (<[patterns_key:=Seq (xs ++ extra_patterns)]> b).
Proof.
  pose proof (represent_ready b Hflat xs Hxs) as Hr.
  rewrite (ready_final _ _ _ _ _ _ _ Hr), module_exports_exported_state.
  cbn [mbind option_bind].
  rewrite (config_of_exported _ _ _ _ _ _ _ Hr Hbound (config_object_wf b Hflat)).
  by rewrite denoted_settings.
Qed.

(** The machine of the module is done after one step for each value of
    the spread and fourteen for the rest. *)
Lemma represent_steps :
  nsteps (step (H := cache_host) module_loc) (length xs + 14) (start (represent b))
    (Done (final run (represent b))).
Proof.
  pose proof (represent_ready b Hflat xs Hxs) as Hr.
  rewrite (ready_final _ _ _ _ _ _ _ Hr).
  apply (ready_steps _ _ _ _ _ _ _ Hr), (represent_module_state b Hflat).
Qed.

(** They agree exactly when appending to [xs] is what [compose] does with
    the setting of the key. *)
Lemma agrees_spread :
  agrees b ↔ combine (b !! patterns_key) (Seq extra_patterns) = Seq (xs ++ extra_patterns).
Proof.
  unfold agrees. rewrite compose_module_overrides, represent_completes, exported_config.
  split; [intros [_ [= Heq]]|by intros ->].
  apply (f_equal (.!! patterns_key)) in Heq. rewrite !lookup_insert_eq in Heq. congruence.
Qed.

End agreement.

(** Evaluated [n] times, the module leaves in the cache the configuration
    [b] with the two patterns appended [n] times to its own. *)
Lemma represent_runs b xs n :
  flat b → b !! patterns_key = Some (Seq xs) →
  (N.of_nat (length xs + 2 * n) ≤ max_array_index + 1)%N →
  result (run_times n module_loc) (represent b) = Return ()
  ∧ config_of (final (run_times n module_loc) (represent b)) (VRef config_loc)
    = Some (<[patterns_key:=Seq (xs ++ appended n)]> b).
Proof.
  intros Hflat Hk Hb. eapply run_times_config; [|by apply represent_wf| |done..].
  - apply (represent_ready b Hflat xs). by rewrite Hk.
  - by apply config_of_represent.
Qed.

(** The number of values that the spread of line 5 yields on [b]. *)
Definition pattern_count (b : configuration) : nat :=
  from_option length 0 (b !! patterns_key ≫= spread_of).

(** ** Theorems *)


(** C7.  End-to-end refinement.  For every flat configuration [b] whose
    [coveragePathIgnorePatterns] is a sequence [xs], run by Node where
    [kcd-scripts/jest] exports [b] the module completes normally and the
    configuration it exports is [compose b overrides] for the override
    directive of the source: [b] with the two new patterns appended to
    [xs]. *)
Theorem module_computes_compose b xs :
  flat b → b !! patterns_key = Some (Seq xs) →
  (N.of_nat (length xs + 2) ≤ max_array_index + 1)%N →
  let run := jest_config_body (H := cache_host) module_loc in
  compose (Some b) module_overrides
  = inr (<[patterns_key:=Seq (xs ++ extra_patterns)]> b)
  ∧ result run (represent b) = Return ()
  ∧ inr <$> (module_exports module_loc (final run (represent b))
             ≫= config_of (final run (represent b)))
    = Some (compose (Some b) module_overrides).
Proof.
  intros Hflat Hk Hbound run.
  assert (b !! patterns_key ≫= spread_of = Some xs) as Hxs by (by rewrite Hk).
  rewrite compose_module_overrides, Hk. split_and!; [done|by eapply represent_completes|].
  unfold run. by rewrite (exported_config b Hflat xs Hxs Hbound).
Qed.

(** C8.  Where the module and the specification agree.  On a flat
    configuration the module exports what [compose] gives if and only if
    the configuration holds its patterns as a sequence, or as the empty
    string.  In every other case they differ: without patterns and on a
    pattern that is not a string the module raises where [compose]
    succeeds, and a non-empty string is spread into its characters where
    [compose] replaces it. *)
Theorem agrees_iff_sequence b :
  flat b → (N.of_nat (pattern_count b + 2) ≤ max_array_index + 1)%N →
  agrees b
  ↔ (∃ xs, b !! patterns_key = Some (Seq xs))
    ∨ b !! patterns_key = Some (Scalar (VStr EmptyString)).
Proof.
  intros Hflat Hbound. unfold pattern_count in Hbound.
  destruct (b !! patterns_key ≫= spread_of) as [xs|] eqn:Hxs.
  - rewrite (agrees_spread b Hflat xs Hxs Hbound).
    destruct (b !! patterns_key) as [[ys|[]]|]; simplify_eq/=; [split; by eauto|].
    split; [|by intros [[? [=]]|[= ->]]].
    intros [= Heq]. right. do 3 f_equal. apply chars_nil, nil_length_inv.
    apply (f_equal length) in Heq. rewrite length_app in Heq. lia.
  - split.
    + unfold agrees. rewrite compose_module_overrides, (represent_raises b Hflat Hxs).
      by intros [? _].
    + by intros [[ys Hk]|Hk]; rewrite Hk in Hxs.
Qed.

(** ** Typed configurations

    The store of a configuration whose patterns are a sequence of strings
    is typed by [patterns_ty]: the configuration object has the type that
    promises an array of strings under [coveragePathIgnorePatterns], the
    array of the patterns is such an array.  The other settings are free. *)

Definition is_string (v : value) : Prop :=
  match v with VStr _ => True | _ => False end.

#[export] Instance is_string_dec v : Decision (is_string v).
Proof. destruct v; apply _. Defined.

Definition patterns_ty : store_ty :=
  {[ config_loc := TObject [(patterns_key, TArray TString)];
     array_loc patterns_key := TArray TString ]}.

Lemma is_string_typed Σ v : is_string v → has_type Σ v TString.
Proof. by destruct v. Qed.

Lemma patterns_ty_config :
  patterns_ty !! config_loc = Some (TObject [(patterns_key, TArray TString)]).
Proof. apply lookup_insert_eq. Qed.

Lemma patterns_ty_array : patterns_ty !! array_loc patterns_key = Some (TArray TString).
Proof.
  pose proof (array_loc_above patterns_key) as Hk. unfold patterns_ty.
  rewrite lookup_insert_ne by (cbv [config_loc exports_loc] in *; lia).
  apply lookup_insert_eq.
Qed.

Section typed.
Context (b : configuration) (xs : list value).
Context (Hflat : flat b) (Hxs : b !! patterns_key = Some (Seq xs)).
Context (Hstr : Forall is_string xs).

Lemma represent_typed : typed patterns_ty (represent b).
Proof.
  apply map_Forall_insert_2; [|apply map_Forall_insert_2; [|apply map_Forall_empty]].
  - rewrite represent_config. split; [done|]. constructor; [|done]. cbn [fst snd].
    rewrite (object_get_present _ _ (VRef (array_loc patterns_key))) by
      (done || by rewrite own_prop_config, Hxs).
    apply patterns_ty_array.
  - rewrite represent_array, Hxs. cbn.
    eapply Forall_impl; [done|]. intros v. apply (is_string_typed patterns_ty).
Qed.

(** Every store that a run of the module reaches from [represent b] is
    typed by an extension of [patterns_ty]: the exported configuration
    still has an array of strings for its patterns. *)
Lemma represent_run_typed c :
  rtc (step (H := cache_host) module_loc) (start (represent b)) c →
  ∃ Σ', patterns_ty ⊆ Σ' ∧ typed Σ' (store_of c).
Proof.
  intros Hc. destruct (decide (c = start (represent b))) as [->|Hne].
  { exists patterns_ty. split; [done|apply represent_typed]. }
  eapply config_typed_store, typed_reachable; [apply patterns_ty_config|..|done|done].
  - by left.
  - by repeat constructor.
  - done.
  - by apply represent_module_state.
  - by apply represent_require.
  - apply represent_typed.
Qed.

End typed.

(** ** Instances *)

(** The configuration of [JestConfig.sample_state], as a configuration of
    the specification. *)
Definition sample_base : configuration :=
  {[ "testEnvironment" := Scalar (VStr "jsdom");
     "coveragePathIgnorePatterns" := Seq sample_patterns;
     "testTimeout" := Scalar (VNum 5000) ]}.


Lemma module_computes_compose_witness :
  let run := jest_config_body (H := cache_host) module_loc in
  compose (Some sample_base) module_overrides
  = inr (<[patterns_key:=Seq (sample_patterns ++ extra_patterns)]> sample_base)
  ∧ result run (represent sample_base) = Return ()
  ∧ inr <$> (module_exports module_loc (final run (represent sample_base))
             ≫= config_of (final run (represent sample_base)))
    = Some (compose (Some sample_base) module_overrides).
Proof.
  apply (module_computes_compose sample_base sample_patterns);
    [by_compute|by vm_compute|by_compute].
Defined.

Lemma agrees_iff_sequence_witness :
  agrees sample_base
  ↔ (∃ xs, sample_base !! patterns_key = Some (Seq xs))
    ∨ sample_base !! patterns_key = Some (Scalar (VStr EmptyString)).
Proof. apply (agrees_iff_sequence sample_base); by_compute. Defined.

(** The sample configuration is typed, and so is every store of its run. *)
Example sample_base_run_typed c :
  rtc (step (H := cache_host) module_loc) (start (represent sample_base)) c →
  ∃ Σ', patterns_ty ⊆ Σ' ∧ typed Σ' (store_of c).
Proof. apply (represent_run_typed sample_base sample_patterns); by_compute. Qed.

(** The same by evaluation: [agrees] is decidable, and running the module
    on the store of a configuration decides it. *)
Example sample_base_agrees : agrees sample_base.
Proof. by_compute. Qed.

Example empty_string_agrees :
  agrees {[ "coveragePathIgnorePatterns" := Scalar (VStr EmptyString) ]}.
Proof. by_compute. Qed.

Example no_patterns_disagrees :
  ¬ agrees {[ "testEnvironment" := Scalar (VStr "jsdom") ]}.
Proof. by_compute. Qed.

Example string_pattern_disagrees :
  ¬ agrees {[ "coveragePathIgnorePatterns" := Scalar (VStr "lib") ]}.
Proof. by_compute. Qed.

Example three_runs_append_thrice :
  config_of (final (run_times 3 module_loc) (represent sample_base)) (VRef config_loc)
  = Some (<[patterns_key:=Seq (sample_patterns ++ extra_patterns ++ extra_patterns
                                 ++ extra_patterns)]> sample_base).
Proof. by_compute. Qed.
